(** * Context-encoder GAN training core (train.py): losses, step, trainer

    A shallow embedding of [train.py].  Tensors are dense rank-4 arrays
    (a shape and an element accessor); floating-point numbers are
    idealised as real numbers, so rounding is outside the model and a
    mean over zero elements is taken to be [0].  The external model
    provider (generator, discriminator, gradients, Adam) is abstract. *)

From Stdlib Require Import Reals Lra Lia ZArith List Bool Arith.
From Stdlib Require String DecimalString DecimalNat.
Import ListNotations.
Import String.StringSyntax.
Delimit Scope string_scope with string.

Open Scope R_scope.

(* ================================================================== *)
(** ** Python slices with unit step *)

Module PySlice.

Record pyslice := mkSlice { start : option Z; stop : option Z }.

(** [a:b], [:b], [a:] and [:] *)
Definition between (a b : Z) : pyslice := mkSlice (Some a) (Some b).
Definition upto (b : Z) : pyslice := mkSlice None (Some b).
Definition from (a : Z) : pyslice := mkSlice (Some a) None.
Definition all : pyslice := mkSlice None None.

(** A bound given by the program: a negative index counts from the end,
    and the result is clipped to [0, len]. *)
Definition adjust (len i : Z) : Z :=
  if (i <? 0)%Z then Z.max 0 (i + len) else Z.min i len.

Definition lower (len : nat) (s : pyslice) : Z :=
  match start s with
  | None => 0%Z
  | Some i => adjust (Z.of_nat len) i
  end.

Definition upper (len : nat) (s : pyslice) : Z :=
  match stop s with
  | None => Z.of_nat len
  | Some i => adjust (Z.of_nat len) i
  end.

(** First selected index, and number of selected indices. *)
Definition offset (len : nat) (s : pyslice) : nat := Z.to_nat (lower len s).
Definition extent (len : nat) (s : pyslice) : nat :=
  Z.to_nat (upper len s - lower len s).

(** Index [i] of the sliced axis is selected by the slice. *)
Definition selects (len : nat) (s : pyslice) (i : nat) : Prop :=
  (offset len s <= i < offset len s + extent len s)%nat.

End PySlice.
Import PySlice.

(* ================================================================== *)
(** ** Rank-4 tensors *)

Record tensor := mkTensor {
  dim0 : nat; dim1 : nat; dim2 : nat; dim3 : nat;
  elt : nat -> nat -> nat -> nat -> R
}.

Definition same_shape (a b : tensor) : Prop :=
  dim0 a = dim0 b /\ dim1 a = dim1 b /\ dim2 a = dim2 b /\ dim3 a = dim3 b.

(** [t[s0, s1, s2, s3]] *)
Definition getitem (t : tensor) (s0 s1 s2 s3 : pyslice) : tensor :=
  mkTensor (extent (dim0 t) s0) (extent (dim1 t) s1)
           (extent (dim2 t) s2) (extent (dim3 t) s3)
           (fun i j k l =>
              elt t (offset (dim0 t) s0 + i) (offset (dim1 t) s1 + j)
                    (offset (dim2 t) s2 + k) (offset (dim3 t) s3 + l))%nat.

(** [tf.transpose(t, (0, 3, 1, 2))]: channel-last to channel-first. *)
Definition transpose_0312 (t : tensor) : tensor :=
  mkTensor (dim0 t) (dim3 t) (dim1 t) (dim2 t)
           (fun n c h w => elt t n h w c).

(** [tf.transpose(t, (0, 2, 3, 1))]: channel-first to channel-last. *)
Definition transpose_0231 (t : tensor) : tensor :=
  mkTensor (dim0 t) (dim2 t) (dim3 t) (dim1 t)
           (fun n h w c => elt t n c h w).

Definition full_like (v : R) (t : tensor) : tensor :=
  mkTensor (dim0 t) (dim1 t) (dim2 t) (dim3 t) (fun _ _ _ _ => v).

Definition ones_like : tensor -> tensor := full_like 1.
Definition zeros_like : tensor -> tensor := full_like 0.

(** A tensor of the given shape filled with one value. *)
Definition fill (d0 d1 d2 d3 : nat) (v : R) : tensor :=
  mkTensor d0 d1 d2 d3 (fun _ _ _ _ => v).

(* ================================================================== *)
(** ** Sums and means over index ranges *)

Fixpoint sum_n (n : nat) (f : nat -> R) : R :=
  match n with
  | O => 0
  | S k => sum_n k f + f k
  end.

(** Mean of [f 0 .. f (n-1)]; the mean of nothing is [0]. *)
Definition mean_n (n : nat) (f : nat -> R) : R :=
  match n with
  | O => 0
  | S _ => sum_n n f / INR n
  end.

Definition sum3 (d0 d1 d2 : nat) (f : nat -> nat -> nat -> R) : R :=
  sum_n d0 (fun i => sum_n d1 (fun j => sum_n d2 (fun k => f i j k))).

Definition sum4 (d0 d1 d2 d3 : nat) (f : nat -> nat -> nat -> nat -> R) : R :=
  sum_n d0 (fun i => sum3 d1 d2 d3 (f i)).

(** [total / count], and [0] when nothing was counted. *)
Definition safe_div (total : R) (count : nat) : R :=
  match count with
  | O => 0
  | S _ => total / INR count
  end.

(* ================================================================== *)
(** ** Loss functions *)

Module Losses.

(** Modelled from the spec: the Keras loss objects built at module scope
    ([tf.keras.losses.*] with [Reduction.SUM_OVER_BATCH_SIZE]) are library
    code.  A loss object applies an element-wise function, averages it
    over the last axis, and averages the resulting per-sample values. *)
Definition keras_loss (f : R -> R -> R) (y_true y_pred : tensor) : R :=
  safe_div
    (sum3 (dim0 y_pred) (dim1 y_pred) (dim2 y_pred)
          (fun i j k =>
             mean_n (dim3 y_pred)
                    (fun l => f (elt y_true i j k l) (elt y_pred i j k l))))
    (dim0 y_pred * dim1 y_pred * dim2 y_pred).

(** Modelled from the spec: cross-entropy from raw logits in the
    numerically stable form, label [z] and logit [x]. *)
Definition sigmoid_cross_entropy_with_logits (z x : R) : R :=
  Rmax x 0 - x * z + ln (1 + exp (- Rabs x)).

Definition squared_difference (a b : R) : R := (b - a) * (b - a).

(** [cross_entropy = BinaryCrossentropy(from_logits=True, SUM_OVER_BATCH_SIZE)] *)
Definition cross_entropy : tensor -> tensor -> R :=
  keras_loss sigmoid_cross_entropy_with_logits.

(** [MSE = MeanSquaredError(SUM_OVER_BATCH_SIZE)] *)
Definition MSE : tensor -> tensor -> R :=
  keras_loss squared_difference.

Definition discriminator_loss (real_output fake_output : tensor) : R :=
  let real_loss := cross_entropy (ones_like real_output) real_output in
  let fake_loss := cross_entropy (zeros_like fake_output) fake_output in
  let total_loss := real_loss + fake_loss in
  total_loss.

Definition weight_l2_default : R := 9 / 10.
Definition weight_adv_default : R := 1 / 10.

Definition generator_loss_weighted
    (fake_output y_true y_pred : tensor) (overlap : Z) (use_gpu : bool)
    (weight_l2 weight_adv : R) : R :=
  let adv_loss := cross_entropy (ones_like fake_output) fake_output in
  let l2_loss :=
    if negb (overlap =? 0)%Z then
      let inner := between overlap (- overlap) in
      let head := upto overlap in
      let tail := from (- overlap) in
      let '(y_true_center, y_pred_center,
            y_true_overlap_left, y_true_overlap_right,
            y_pred_overlap_left, y_pred_overlap_right) :=
        if use_gpu then
          (getitem y_true all all inner inner,
           getitem y_pred all all inner inner,
           getitem y_true all all head head,
           getitem y_true all all tail tail,
           getitem y_pred all all head head,
           getitem y_pred all all tail tail)
        else
          (getitem y_true all inner inner all,
           getitem y_pred all inner inner all,
           getitem y_true all head head all,
           getitem y_true all tail tail all,
           getitem y_pred all head head all,
           getitem y_pred all tail tail all) in
      let center_loss := MSE y_true_center y_pred_center in
      let overlap_loss :=
        10 * (MSE y_true_overlap_left y_pred_overlap_left
              + MSE y_true_overlap_right y_pred_overlap_right) in
      center_loss + overlap_loss
    else MSE y_true y_pred in
  let total_loss := weight_l2 * l2_loss + weight_adv * adv_loss in
  total_loss.

(** The call with the default weights, as every caller makes it. *)
Definition generator_loss
    (fake_output y_true y_pred : tensor) (overlap : Z) (use_gpu : bool) : R :=
  generator_loss_weighted fake_output y_true y_pred overlap use_gpu
                          weight_l2_default weight_adv_default.

End Losses.

(* ================================================================== *)
(** ** The loss formulas in the words of the specification *)

Module LossSpec.

Definition sigmoid (x : R) : R := 1 / (1 + exp (- x)).

(** Binary cross-entropy of the probability [sigmoid x] against label [z]. *)
Definition binary_cross_entropy (z x : R) : R :=
  - (z * ln (sigmoid x) + (1 - z) * ln (1 - sigmoid x)).

(** Mean of [g] over every element of the tensor. *)
Definition batch_mean (g : R -> R) (t : tensor) : R :=
  safe_div
    (sum4 (dim0 t) (dim1 t) (dim2 t) (dim3 t)
          (fun i j k l => g (elt t i j k l)))
    (dim0 t * dim1 t * dim2 t * dim3 t).

(** A half-open rectangle of pixel positions. *)
Record region := mkRegion {
  row_lo : nat; row_hi : nat; col_lo : nat; col_hi : nat
}.

Definition in_region (r : region) (i j : nat) : Prop :=
  (row_lo r <= i < row_hi r /\ col_lo r <= j < col_hi r)%nat.

Definition disjoint (r1 r2 : region) : Prop :=
  forall i j, ~ (in_region r1 i j /\ in_region r2 i j).

Definition inside (r : region) (height width : nat) : Prop :=
  forall i j, in_region r i j -> (i < height /\ j < width)%nat.

Definition whole (height width : nat) : region :=
  mkRegion 0 height 0 width.

(** The interior without a border of width [o] on each side. *)
Definition center_region (height width o : nat) : region :=
  mkRegion o (height - o) o (width - o).

Definition top_left_square (o : nat) : region := mkRegion 0 o 0 o.

Definition bottom_right_square (height width o : nat) : region :=
  mkRegion (height - o) height (width - o) width.

(** Spatial extent and pixel access under either layout. *)
Definition height (channel_first : bool) (t : tensor) : nat :=
  if channel_first then dim2 t else dim1 t.
Definition width (channel_first : bool) (t : tensor) : nat :=
  if channel_first then dim3 t else dim2 t.
Definition channels (channel_first : bool) (t : tensor) : nat :=
  if channel_first then dim1 t else dim3 t.
Definition pixel (channel_first : bool) (t : tensor) (n i j c : nat) : R :=
  if channel_first then elt t n c i j else elt t n i j c.

(** Mean squared error over the pixels of a region, all samples and
    channels. *)
Definition region_MSE (channel_first : bool) (r : region)
    (y_true y_pred : tensor) : R :=
  safe_div
    (sum4 (dim0 y_pred) (row_hi r - row_lo r) (col_hi r - col_lo r)
          (channels channel_first y_pred)
          (fun n i j c =>
             Rsqr (pixel channel_first y_pred n (row_lo r + i) (col_lo r + j) c
                   - pixel channel_first y_true n (row_lo r + i) (col_lo r + j) c)))
    (dim0 y_pred * (row_hi r - row_lo r) * (col_hi r - col_lo r)
     * channels channel_first y_pred).

(** The adversarial term: cross-entropy of the verdict against all ones. *)
Definition adversarial (fake_output : tensor) : R :=
  batch_mean (binary_cross_entropy 1) fake_output.

(** The generator loss as the specification describes it. *)
Definition generator_loss_described
    (fake_output y_true y_pred : tensor) (overlap : Z) (use_gpu : bool) : R :=
  let h := height use_gpu y_pred in
  let w := width use_gpu y_pred in
  let o := Z.to_nat overlap in
  let reconstruction :=
    if (overlap =? 0)%Z then region_MSE use_gpu (whole h w) y_true y_pred
    else region_MSE use_gpu (center_region h w o) y_true y_pred
         + 10 * (region_MSE use_gpu (top_left_square o) y_true y_pred
                 + region_MSE use_gpu (bottom_right_square h w o) y_true y_pred)
  in 9 / 10 * reconstruction + 1 / 10 * adversarial fake_output.

(** The three regions are pairwise disjoint, the two squares lie inside
    the image, and the other two corners belong to none of them. *)
Definition regions_as_described (h w o : nat) : Prop :=
  let c := center_region h w o in
  let tl := top_left_square o in
  let br := bottom_right_square h w o in
  disjoint c tl /\ disjoint c br /\ disjoint tl br
  /\ inside tl h w /\ inside br h w
  /\ (forall r, r = c \/ r = tl \/ r = br ->
        ~ in_region r 0 (w - 1) /\ ~ in_region r (h - 1) 0).

(** The whole statement about the generator loss at one input. *)
Definition generator_loss_claim
    (fake_output y_true y_pred : tensor) (overlap : Z) (use_gpu : bool) : Prop :=
  ((0 <= overlap)%Z ->
   Losses.generator_loss fake_output y_true y_pred overlap use_gpu
   = generator_loss_described fake_output y_true y_pred overlap use_gpu)
  /\ ((0 < overlap)%Z ->
      regions_as_described (height use_gpu y_pred) (width use_gpu y_pred)
                           (Z.to_nat overlap)).

End LossSpec.

(* ================================================================== *)
(** ** The external model provider *)

(** The generator, the discriminator, reverse-mode differentiation and
    the Adam update rule are external.  A model object carries its
    trainable variables together with whatever state its layers keep;
    calling it returns the output and the model object after the call. *)
Class ModelProvider := {
  Generator : Type;
  Discriminator : Type;
  GeneratorGrads : Type;
  DiscriminatorGrads : Type;
  GeneratorSlots : Type;
  DiscriminatorSlots : Type;
  build_autoencoder : bool -> Generator;
  build_discriminator : bool -> Discriminator;
  generator_call : Generator -> tensor -> bool -> tensor * Generator;
  discriminator_call : Discriminator -> tensor -> bool -> tensor * Discriminator;
  generator_gradient : (Generator -> R) -> Generator -> GeneratorGrads;
  discriminator_gradient :
    (Discriminator -> R) -> Discriminator -> DiscriminatorGrads;
  generator_slots_init : GeneratorSlots;
  discriminator_slots_init : DiscriminatorSlots;
  generator_adam :
    R -> GeneratorSlots -> GeneratorGrads -> Generator
    -> GeneratorSlots * Generator;
  discriminator_adam :
    R -> DiscriminatorSlots -> DiscriminatorGrads -> Discriminator
    -> DiscriminatorSlots * Discriminator
}.

(** An optimizer instance: its learning rate and its moment estimates. *)
Record Optimizer (Slots : Type) := mkOptimizer {
  learning_rate : R;
  slots : Slots
}.
Arguments mkOptimizer {Slots} _ _.
Arguments learning_rate {Slots} _.
Arguments slots {Slots} _.

(** [tf.keras.optimizers.Adam(lr)] *)
Definition Adam {Slots : Type} (init : Slots) (lr : R) : Optimizer Slots :=
  mkOptimizer lr init.

Inductive network := TheGenerator | TheDiscriminator.

(** Calls made on the models and optimizers, in the order they happen. *)
Inductive Call :=
| Forward (net : network) (training : bool)
| ApplyGradients (net : network).

(* ================================================================== *)
(** ** Step executor and evaluation executor *)

Module Step.
Section WithProvider.
Context {P : ModelProvider}.

(** The mutable objects the executors work on. *)
Record World := mkWorld {
  generator : Generator;
  discriminator : Discriminator;
  generator_optimizer : Optimizer GeneratorSlots;
  discriminator_optimizer : Optimizer DiscriminatorSlots;
  calls : list Call
}.

Definition Exec (A : Type) : Type := World -> A * World.

Definition ret {A : Type} (a : A) : Exec A := fun w => (a, w).

Definition bind {A B : Type} (m : Exec A) (k : A -> Exec B) : Exec B :=
  fun w => let (a, w') := m w in k a w'.

Definition gets {A : Type} (f : World -> A) : Exec A := fun w => (f w, w).

Definition call_generator (x : tensor) (training : bool) : Exec tensor :=
  fun w =>
    let (y, g) := generator_call (generator w) x training in
    (y, mkWorld g (discriminator w) (generator_optimizer w)
                (discriminator_optimizer w)
                (calls w ++ [Forward TheGenerator training])).

Definition call_discriminator (x : tensor) (training : bool) : Exec tensor :=
  fun w =>
    let (y, d) := discriminator_call (discriminator w) x training in
    (y, mkWorld (generator w) d (generator_optimizer w)
                (discriminator_optimizer w)
                (calls w ++ [Forward TheDiscriminator training])).

(** [discriminator_optimizer.apply_gradients(...)] *)
Definition apply_discriminator_gradients (grads : DiscriminatorGrads)
  : Exec unit :=
  fun w =>
    let opt := discriminator_optimizer w in
    let (s, d) :=
      discriminator_adam (learning_rate opt) (slots opt) grads
                         (discriminator w) in
    (tt, mkWorld (generator w) d (generator_optimizer w)
                 (mkOptimizer (learning_rate opt) s)
                 (calls w ++ [ApplyGradients TheDiscriminator])).

(** [generator_optimizer.apply_gradients(...)] *)
Definition apply_generator_gradients (grads : GeneratorGrads) : Exec unit :=
  fun w =>
    let opt := generator_optimizer w in
    let (s, g) :=
      generator_adam (learning_rate opt) (slots opt) grads (generator w) in
    (tt, mkWorld g (discriminator w)
                 (mkOptimizer (learning_rate opt) s)
                 (discriminator_optimizer w)
                 (calls w ++ [ApplyGradients TheGenerator])).

Notation "x <- m ;; k" := (bind m (fun x => k))
  (at level 61, m at next level, right associativity).
Notation "m ;;; k" := (bind m (fun _ => k))
  (at level 61, right associativity).

(** What [disc_tape] records: the discriminator loss as a function of the
    discriminator, the generated centers being a constant. *)
Definition disc_tape (real_centers generated_centers : tensor)
  : Discriminator -> R :=
  fun d =>
    let (real_output, d1) := discriminator_call d real_centers true in
    let (fake_output, _) := discriminator_call d1 generated_centers true in
    Losses.discriminator_loss real_output fake_output.

(** What [gen_tape] records: the generator loss as a function of the
    generator, [fake_output] being a constant. *)
Definition gen_tape (fake_output images real_centers : tensor)
    (overlap : Z) (use_gpu : bool) : Generator -> R :=
  fun g =>
    let (generated_centers, _) := generator_call g images true in
    Losses.generator_loss fake_output real_centers generated_centers
                          overlap use_gpu.

Definition take_step (images real_centers : tensor) (overlap : Z)
    (use_gpu : bool) : Exec (R * R) :=
  d0 <- gets discriminator ;;
  real_output <- call_discriminator real_centers true ;;
  generated_centers <- call_generator images false ;;
  fake_output <- call_discriminator generated_centers true ;;
  let disc_loss := Losses.discriminator_loss real_output fake_output in
  let discriminator_grads :=
    discriminator_gradient (disc_tape real_centers generated_centers) d0 in
  apply_discriminator_gradients discriminator_grads ;;;
  g0 <- gets generator ;;
  generated_centers <- call_generator images true ;;
  let gen_loss :=
    Losses.generator_loss fake_output real_centers generated_centers
                          overlap use_gpu in
  let generator_grads :=
    generator_gradient
      (gen_tape fake_output images real_centers overlap use_gpu) g0 in
  apply_generator_gradients generator_grads ;;;
  ret (gen_loss, disc_loss).

Definition calc_losses (images real_centers : tensor) (overlap : Z)
    (use_gpu : bool) : Exec (R * R) :=
  generated_centers <- call_generator images false ;;
  real_output <- call_discriminator real_centers false ;;
  fake_output <- call_discriminator generated_centers false ;;
  let disc_loss := Losses.discriminator_loss real_output fake_output in
  let gen_loss :=
    Losses.generator_loss fake_output real_centers generated_centers
                          overlap use_gpu in
  ret (gen_loss, disc_loss).

(** The generator loss a step would report if it asked the updated
    discriminator for a fresh verdict on the new generated centers. *)
Definition fresh_verdict_loss (images real_centers : tensor) (overlap : Z)
    (use_gpu : bool) (w : World) : R :=
  let w' := snd (take_step images real_centers overlap use_gpu w) in
  let (stale_centers, g1) := generator_call (generator w) images false in
  let generated_centers := fst (generator_call g1 images true) in
  let fresh_output :=
    fst (discriminator_call (discriminator w') generated_centers true) in
  Losses.generator_loss fresh_output real_centers generated_centers
                        overlap use_gpu.

(** The learning rates of the two optimizers. *)
Definition rates (w : World) : R * R :=
  (learning_rate (generator_optimizer w),
   learning_rate (discriminator_optimizer w)).

End WithProvider.
End Step.

(* ================================================================== *)
(** ** Epoch loop *)

Module Trainer.

Inductive exn := ZeroDivisionError | UnboundLocalError | OSError.

Inductive result (A : Type) :=
| Ok (a : A)
| Raise (e : exn).
Arguments Ok {A} _.
Arguments Raise {A} _.

(** The values the loss variables of [train] hold: the Python integer
    they are reset to, a Python float, a scalar tensor, or a scalar
    tensor that is infinite or not a number. *)
Inductive pyval :=
| PyInt (z : Z)
| PyFloat (r : R)
| TfScalar (r : R)
| TfNonFinite.

(** [acc += loss] with [loss] a scalar tensor. *)
Definition py_add (acc : pyval) (loss : R) : pyval :=
  match acc with
  | PyInt z => TfScalar (IZR z + loss)
  | PyFloat r => TfScalar (r + loss)
  | TfScalar r => TfScalar (r + loss)
  | TfNonFinite => TfNonFinite
  end.

(** [acc / count] with [count] a Python integer: Python numbers raise on
    a zero divisor, tensors do not. *)
Definition py_truediv (acc : pyval) (count : nat) : result pyval :=
  match acc with
  | PyInt z =>
      if (count =? 0)%nat then Raise ZeroDivisionError
      else Ok (PyFloat (IZR z / INR count))
  | PyFloat r =>
      if (count =? 0)%nat then Raise ZeroDivisionError
      else Ok (PyFloat (r / INR count))
  | TfScalar r =>
      if (count =? 0)%nat then Ok TfNonFinite
      else Ok (TfScalar (r / INR count))
  | TfNonFinite => Ok TfNonFinite
  end.

Inductive split := TrainSplit | ValSplit.

Record Histories := mkHistories {
  list_train_gen_loss : list pyval;
  list_train_disc_loss : list pyval;
  list_val_gen_loss : list pyval;
  list_val_disc_loss : list pyval
}.

(** What the trainer does that can be seen from outside, in order; the
    executor calls and the writes carry the index of the running epoch. *)
Inductive Event :=
| TookStep (epoch : nat) (gen_loss disc_loss : R)
| CalcedLosses (epoch : nat) (gen_loss disc_loss : R)
| SavedPictures (type : split) (epoch : nat) (image_batch center_batch : tensor)
| SavedCheckpoint (epoch : nat)
| Printed (epoch_number : nat)
          (train_gen_loss val_gen_loss train_disc_loss val_disc_loss : pyval)
| PlottedLoss (h : Histories).

Definition Batch : Type := tensor * tensor.

(** [(epoch + 1) % 5 == 0 or epoch == 0] *)
Definition cadence (epoch : nat) : bool :=
  ((epoch + 1) mod 5 =? 0)%nat || (epoch =? 0)%nat.

Section WithProvider.
Context {P : ModelProvider}.

Record TState := mkTState {
  world : Step.World;
  events : list Event
}.

Definition Py (A : Type) : Type := TState -> result A * TState.

Definition ret {A : Type} (a : A) : Py A := fun s => (Ok a, s).

Definition raise {A : Type} (e : exn) : Py A := fun s => (Raise e, s).

Definition bind {A B : Type} (m : Py A) (k : A -> Py B) : Py B :=
  fun s =>
    match m s with
    | (Ok a, s') => k a s'
    | (Raise e, s') => (Raise e, s')
    end.

Definition lift {A : Type} (m : Step.Exec A) : Py A :=
  fun s => let (a, w) := m (world s) in (Ok a, mkTState w (events s)).

Definition of_result {A : Type} (r : result A) : Py A := fun s => (r, s).

Definition emit (e : Event) : Py unit :=
  fun s => (Ok tt, mkTState (world s) (events s ++ [e])).

Notation "x <- m ;; k" := (bind m (fun x => k))
  (at level 61, m at next level, right associativity).
Notation "m ;;; k" := (bind m (fun _ => k))
  (at level 61, right associativity).

(** The executors [train] calls, the disk, and the arguments of [train]
    that stay fixed during the run. *)
Variable take_step : tensor -> tensor -> Z -> bool -> Step.Exec (R * R).
Variable calc_losses : tensor -> tensor -> Z -> bool -> Step.Exec (R * R).
Variable write_fails : Event -> bool.
Variable train_dataset val_dataset : list Batch.
Variable overlap : Z.
Variable use_gpu : bool.

(** A write to disk: it raises when the disk refuses it. *)
Definition write (e : Event) : Py unit :=
  fun s =>
    if write_fails e then (Raise OSError, s)
    else (Ok tt, mkTState (world s) (events s ++ [e])).

(** Reading [image_batch, center_batch], which no loop may have bound yet. *)
Definition read_batch (b : option Batch) : Py Batch :=
  match b with
  | Some x => ret x
  | None => raise UnboundLocalError
  end.

Definition save_pictures (image_batch center_batch : tensor) (epoch : nat)
    (type : split) : Py unit :=
  lift (Step.call_generator image_batch false) ;;;
  write (SavedPictures type epoch image_batch center_batch).

(** The variables a batch loop updates. *)
Record Acc := mkAcc {
  gen_loss_sum : pyval;
  disc_loss_sum : pyval;
  count : nat;
  batch_vars : option Batch
}.

(** [for image_batch, center_batch in dataset: ...], for either loop. *)
Fixpoint for_batches
    (executor : tensor -> tensor -> Z -> bool -> Step.Exec (R * R))
    (seen : R -> R -> Event) (dataset : list Batch) (acc : Acc) : Py Acc :=
  match dataset with
  | [] => ret acc
  | (image_batch, center_batch) :: rest =>
      let image_batch :=
        if use_gpu then transpose_0312 image_batch else image_batch in
      let center_batch :=
        if use_gpu then transpose_0312 center_batch else center_batch in
      losses <- lift (executor image_batch center_batch overlap use_gpu) ;;
      emit (seen (fst losses) (snd losses)) ;;;
      for_batches executor seen rest
        (mkAcc (py_add (gen_loss_sum acc) (fst losses))
               (py_add (disc_loss_sum acc) (snd losses))
               (count acc + 1)
               (Some (image_batch, center_batch)))
  end.

(** The variables that outlive one epoch. *)
Record Locals := mkLocals {
  histories : Histories;
  last_batch : option Batch
}.

Definition append_metrics (h : Histories) (tg td vg vd : pyval) : Histories :=
  mkHistories (list_train_gen_loss h ++ [tg]) (list_train_disc_loss h ++ [td])
              (list_val_gen_loss h ++ [vg]) (list_val_disc_loss h ++ [vd]).

(** The body of [for epoch in range(epochs)]. *)
Definition run_epoch (epoch : nat) (loc : Locals) : Py Locals :=
  tr <- for_batches take_step (TookStep epoch) train_dataset
          (mkAcc (PyInt 0) (PyInt 0) 0 (last_batch loc)) ;;
  (if cadence epoch then
     b <- read_batch (batch_vars tr) ;;
     save_pictures (fst b) (snd b) epoch TrainSplit
   else ret tt) ;;;
  va <- for_batches calc_losses (CalcedLosses epoch) val_dataset
          (mkAcc (PyInt 0) (PyInt 0) 0 (batch_vars tr)) ;;
  (if cadence epoch then
     write (SavedCheckpoint epoch) ;;;
     b <- read_batch (batch_vars va) ;;
     save_pictures (fst b) (snd b) epoch ValSplit
   else ret tt) ;;;
  train_gen_loss <- of_result (py_truediv (gen_loss_sum tr) (count tr)) ;;
  train_disc_loss <- of_result (py_truediv (disc_loss_sum tr) (count tr)) ;;
  val_gen_loss <- of_result (py_truediv (gen_loss_sum va) (count va)) ;;
  val_disc_loss <- of_result (py_truediv (disc_loss_sum va) (count va)) ;;
  emit (Printed (epoch + 1) train_gen_loss val_gen_loss
                train_disc_loss val_disc_loss) ;;;
  ret (mkLocals (append_metrics (histories loc) train_gen_loss train_disc_loss
                                val_gen_loss val_disc_loss)
                (batch_vars va)).

Fixpoint for_epochs (epochs : list nat) (loc : Locals) : Py Locals :=
  match epochs with
  | [] => ret loc
  | epoch :: rest => loc' <- run_epoch epoch loc ;; for_epochs rest loc'
  end.

(** The models and optimizers [train] builds before the loop. *)
Definition initial_state (lr : R) : TState :=
  mkTState
    (Step.mkWorld (build_autoencoder use_gpu) (build_discriminator use_gpu)
                  (Adam generator_slots_init (lr * 10))
                  (Adam discriminator_slots_init lr)
                  [])
    [].

Definition train_with (epochs : nat) (lr : R) : result unit * TState :=
  (loc <- for_epochs (seq 0 epochs) (mkLocals (mkHistories [] [] [] []) None) ;;
   write (PlottedLoss (histories loc)))
    (initial_state lr).

End WithProvider.

(** [train], with the executors of the module. *)
Definition train {P : ModelProvider} (write_fails : Event -> bool)
    (train_dataset val_dataset : list Batch) (epochs : nat) (overlap : Z)
    (use_gpu : bool) (lr : R) : result unit * TState :=
  train_with Step.take_step Step.calc_losses write_fails
             train_dataset val_dataset overlap use_gpu epochs lr.

(** *** Reading the event list *)

Fixpoint Rsum (xs : list R) : R :=
  match xs with
  | [] => 0
  | x :: rest => x + Rsum rest
  end.

(** Losses returned by the [take_step] calls of one epoch. *)
Fixpoint step_losses (epoch : nat) (log : list Event) : list (R * R) :=
  match log with
  | [] => []
  | TookStep e g d :: rest =>
      if (e =? epoch)%nat then (g, d) :: step_losses epoch rest
      else step_losses epoch rest
  | _ :: rest => step_losses epoch rest
  end.

(** Losses returned by the [calc_losses] calls of one epoch. *)
Fixpoint eval_losses (epoch : nat) (log : list Event) : list (R * R) :=
  match log with
  | [] => []
  | CalcedLosses e g d :: rest =>
      if (e =? epoch)%nat then (g, d) :: eval_losses epoch rest
      else eval_losses epoch rest
  | _ :: rest => eval_losses epoch rest
  end.

(** Epochs at which a checkpoint was written. *)
Fixpoint checkpoint_epochs (log : list Event) : list nat :=
  match log with
  | [] => []
  | SavedCheckpoint e :: rest => e :: checkpoint_epochs rest
  | _ :: rest => checkpoint_epochs rest
  end.

Definition split_eqb (a b : split) : bool :=
  match a, b with
  | TrainSplit, TrainSplit | ValSplit, ValSplit => true
  | _, _ => false
  end.

(** Epochs at which pictures of the given split were written. *)
Fixpoint picture_epochs (type : split) (log : list Event) : list nat :=
  match log with
  | [] => []
  | SavedPictures t e _ _ :: rest =>
      if split_eqb t type then e :: picture_epochs type rest
      else picture_epochs type rest
  | _ :: rest => picture_epochs type rest
  end.

(** The histories handed to [plot_loss], if the run got that far. *)
Fixpoint plotted (log : list Event) : option Histories :=
  match log with
  | [] => None
  | PlottedLoss h :: _ => Some h
  | _ :: rest => plotted rest
  end.

(** The mean the specification asks for: sum over count. *)
Definition mean_loss (xs : list R) : pyval :=
  TfScalar (Rsum xs / INR (length xs)).

(** The four histories the specification asks for after [epochs] epochs
    numbered from [first]: per epoch, the means of the losses the
    executors returned during that epoch. *)
Definition histories_of (log : list Event) (first epochs : nat) : Histories :=
  mkHistories
    (map (fun e => mean_loss (map fst (step_losses e log))) (seq first epochs))
    (map (fun e => mean_loss (map snd (step_losses e log))) (seq first epochs))
    (map (fun e => mean_loss (map fst (eval_losses e log))) (seq first epochs))
    (map (fun e => mean_loss (map snd (eval_losses e log))) (seq first epochs)).

(** The line an epoch prints when its four scalars are those means. *)
Definition printed_means (log : list Event) (e : nat) : Event :=
  Printed (e + 1)
          (mean_loss (map fst (step_losses e log)))
          (mean_loss (map fst (eval_losses e log)))
          (mean_loss (map snd (step_losses e log)))
          (mean_loss (map snd (eval_losses e log))).

Definition join_histories (h1 h2 : Histories) : Histories :=
  mkHistories
    (list_train_gen_loss h1 ++ list_train_gen_loss h2)
    (list_train_disc_loss h1 ++ list_train_disc_loss h2)
    (list_val_gen_loss h1 ++ list_val_gen_loss h2)
    (list_val_disc_loss h1 ++ list_val_disc_loss h2).

(** The events of an epoch that ran to its end. *)
Definition epoch_log (epoch : nat) (steps evals : list (R * R))
    (train_last val_last : Batch) : list Event :=
  map (fun l => TookStep epoch (fst l) (snd l)) steps
  ++ (if cadence epoch
      then [SavedPictures TrainSplit epoch (fst train_last) (snd train_last)]
      else [])
  ++ map (fun l => CalcedLosses epoch (fst l) (snd l)) evals
  ++ (if cadence epoch
      then [SavedCheckpoint epoch;
            SavedPictures ValSplit epoch (fst val_last) (snd val_last)]
      else [])
  ++ [Printed (epoch + 1)
              (mean_loss (map fst steps)) (mean_loss (map fst evals))
              (mean_loss (map snd steps)) (mean_loss (map snd evals))].

(** The event belongs to an epoch between [lo] and [hi]. *)
Definition in_epochs (lo hi : nat) (ev : Event) : Prop :=
  match ev with
  | TookStep e _ _ | CalcedLosses e _ _
  | SavedPictures _ e _ _ | SavedCheckpoint e => (lo <= e <= hi)%nat
  | Printed n _ _ _ _ => (lo + 1 <= n <= hi + 1)%nat
  | PlottedLoss _ => False
  end.

(** From one state to the other the event list grew by events of epochs
    between [lo] and [hi]. *)
Definition logs_within {P : ModelProvider} (lo hi : nat) (s s' : TState)
  : Prop :=
  exists new, events s' = events s ++ new /\ Forall (in_epochs lo hi) new.

(** A property of the models and optimizers that is kept. *)
Definition keeps {P : ModelProvider} (Q : Step.World -> Prop)
    (s s' : TState) : Prop :=
  Q (world s) -> Q (world s').

(** The disk refuses one of the writes of the given epoch. *)
Definition dump_fails (write_fails : Event -> bool) (epoch : nat) : Prop :=
  write_fails (SavedCheckpoint epoch) = true
  \/ exists type, forall image_batch center_batch,
       write_fails (SavedPictures type epoch image_batch center_batch) = true.

(** Every run of the computation relates the state before to the state
    after by [I]. *)
Definition respects {P : ModelProvider} {A : Type}
    (I : TState -> TState -> Prop) (m : Py A) : Prop :=
  forall s, I s (snd (m s)).

(** The statement that a run is not aborted: it ends normally and every
    epoch has processed every training batch. *)
Definition run_completes {P : ModelProvider}
    (run : result unit * TState) (train_dataset : list Batch) (epochs : nat)
  : Prop :=
  fst run = Ok tt
  /\ forall e, (e < epochs)%nat ->
       length (step_losses e (events (snd run))) = length train_dataset.

End Trainer.

(* ================================================================== *)
(** ** Auxiliary definitions used by the statements and proofs *)

Module LossAux.
Import LossSpec.

(** Mean squared error over the pixels two slices select on the spatial
    axes, written with the layout-independent pixel accessor. *)
Definition sliced_MSE (channel_first : bool) (s1 s2 : pyslice)
    (y_true y_pred : tensor) : R :=
  safe_div
    (sum4 (dim0 y_pred)
          (extent (height channel_first y_pred) s1)
          (extent (width channel_first y_pred) s2)
          (channels channel_first y_pred)
          (fun n i j c =>
             Rsqr (pixel channel_first y_pred n
                         (offset (height channel_first y_pred) s1 + i)
                         (offset (width channel_first y_pred) s2 + j) c
                   - pixel channel_first y_true n
                           (offset (height channel_first y_true) s1 + i)
                           (offset (width channel_first y_true) s2 + j) c)))
    (dim0 y_pred * extent (height channel_first y_pred) s1
     * extent (width channel_first y_pred) s2
     * channels channel_first y_pred).

End LossAux.

(** Fixed-point lower bounds of the exponential, by repeated squaring. *)
Module ExpBound.

Definition scale : Z := 1000000000000.

(** A lower bound of the square, on the fixed-point grid. *)
Definition sq_down (a : Z) : Z := (a * a / scale)%Z.

Fixpoint square_times (k : nat) (a : Z) : Z :=
  match k with
  | O => a
  | S k' => square_times k' (sq_down a)
  end.

(** A lower bound of [exp (2^k * (p / q))], scaled by [scale]. *)
Definition exp_lower (p q : Z) (k : nat) : Z :=
  square_times k (scale + scale * p / q)%Z.

End ExpBound.

(** A small concrete provider and stub executors, for examples. *)
Module Toy.

(** Both models are a single number.  The generator paints its number
    over the input and counts its training-mode calls; the discriminator
    answers its number as the logit of every sample; an optimizer update
    moves the number by one (discriminator) or by the learning rate
    (generator). *)
Definition provider : ModelProvider := {|
  Generator := R;
  Discriminator := R;
  GeneratorGrads := unit;
  DiscriminatorGrads := unit;
  GeneratorSlots := unit;
  DiscriminatorSlots := unit;
  build_autoencoder := fun _ => 0;
  build_discriminator := fun _ => 0;
  generator_call := fun g x training =>
    (full_like g x, if training then g + 1 else g);
  discriminator_call := fun d x _ => (fill (dim0 x) 1 1 1 d, d);
  generator_gradient := fun _ _ => tt;
  discriminator_gradient := fun _ _ => tt;
  generator_slots_init := tt;
  discriminator_slots_init := tt;
  generator_adam := fun lr s _ g => (s, g + lr);
  discriminator_adam := fun _ s _ d => (s, d + 1)
|}.

(** A stub executor: both losses are the first entry of the image batch. *)
Definition stub_executor {P : ModelProvider}
    (images real_centers : tensor) (overlap : Z) (use_gpu : bool)
  : Step.Exec (R * R) :=
  fun w => ((elt images 0 0 0 0, elt images 0 0 0 0), w).

(** A one-pixel batch holding [v]. *)
Definition batch_of (v : R) : Trainer.Batch :=
  (fill 1 1 1 1 v, fill 1 1 1 1 v).

(** Three training batches with losses 1, 2, 3 and two validation
    batches with losses 4, 5 under the stub executor. *)
Definition train_batches : list Trainer.Batch :=
  [batch_of 1; batch_of 2; batch_of 3].
Definition val_batches : list Trainer.Batch := [batch_of 4; batch_of 5].

Definition never_fails (e : Trainer.Event) : bool := false.

(** A disk that refuses the checkpoint of epoch [0] and nothing else. *)
Definition first_checkpoint_fails (e : Trainer.Event) : bool :=
  match e with
  | Trainer.SavedCheckpoint 0 => true
  | _ => false
  end.

End Toy.

(* ================================================================== *)
(** ** Data loading (load_data.py) *)

Module LoadData.

Inductive error :=
  ValueError | AssertionError | InvalidArgumentError | KeyError.

Inductive outcome (A : Type) :=
| Done (a : A)
| Failed (e : error).
Arguments Done {A} _.
Arguments Failed {A} _.

(** A numpy array of rank 3: rows, columns, channels. *)
Record image := mkImage {
  rows : nat; cols : nat; chans : nat;
  px : nat -> nat -> nat -> R
}.

(** [a[s0, s1, s2]] *)
Definition getitem3 (a : image) (s0 s1 s2 : pyslice) : image :=
  mkImage (extent (rows a) s0) (extent (cols a) s1) (extent (chans a) s2)
          (fun i j c =>
             px a (offset (rows a) s0 + i) (offset (cols a) s1 + j)
                  (offset (chans a) s2 + c))%nat.

(** The same function applied to every entry. *)
Definition map_px (f : R -> R) (a : image) : image :=
  mkImage (rows a) (cols a) (chans a) (fun i j c => f (px a i j c)).

(** [int(height - mask_size * 1.5)]: the product and the difference are
    exact in double precision for integers below 2^52, and [int] drops
    the fraction towards zero. *)
Definition start_index (height : nat) (mask_size : Z) : Z :=
  Z.quot (2 * Z.of_nat height - 3 * mask_size) 2.

(** An axis of length [from] can be assigned to one of length [to]. *)
Definition broadcasts (from to : nat) : bool :=
  (from =? to)%nat || (from =? 1)%nat.

(** The rows (columns) a slice selects. *)
Definition selected (len : nat) (s : pyslice) (i : nat) : bool :=
  (offset len s <=? i)%nat && (i <? offset len s + extent len s)%nat.

Definition mask_image (image0 : image) (mask_size overlap : Z)
  : outcome (image * image) :=
  let height := rows image0 in
  let start := start_index height mask_size in
  let end_index := (start + mask_size)%Z in
  let center :=
    getitem3 image0 (between start end_index) (between start end_index) all in
  let side := (mask_size - overlap * 2)%Z in
  (* np.zeros refuses a negative dimension *)
  if (side <? 0)%Z then Failed ValueError
  else
    let hole := between (start + overlap) (end_index - overlap) in
    (* the assignment needs [fill] to fit the slice *)
    if broadcasts (Z.to_nat side) (extent (rows image0) hole)
       && broadcasts (Z.to_nat side) (extent (cols image0) hole)
    then
      let masked_image :=
        mkImage (rows image0) (cols image0) (chans image0)
                (fun i j c =>
                   if selected (rows image0) hole i
                      && selected (cols image0) hole j
                   then 0 else px image0 i j c) in
      Done (center, masked_image)
    else Failed ValueError.

(** [(x - 127.5) / 127.5] on every entry. *)
Definition normalize (a : image) : image :=
  map_px (fun x => (x - 1275 / 10) / (1275 / 10)) a.

(** [int(len(images) * 0.8)]: the double nearest to 0.8 lies above 0.8 by
    less than 1e-16, so for every length below 2^50 the product rounds to
    a double whose integer part is that of [4 * n / 5]. *)
Definition partition_index (n : nat) : nat := (4 * n / 5)%nat.

(** [load_simulated_data], given the two arrays the file holds, as lists
    of samples.  The result is the pair (training dataset, validation
    dataset), each a list of (context, image) pairs. *)
Definition load_simulated_data (images image_contexts : list image)
  : outcome (list (image * image) * list (image * image)) :=
  if (length images =? length image_contexts)%nat then
    let images := map normalize images in
    let image_contexts := map normalize image_contexts in
    let partition := partition_index (length images) in
    let val_images := skipn partition images in
    let val_image_contexts := skipn partition image_contexts in
    let train_images := firstn partition images in
    let train_image_contexts := firstn partition image_contexts in
    Done (combine train_image_contexts train_images,
          combine val_image_contexts val_images)
  else Failed AssertionError.

End LoadData.

(* ================================================================== *)
(** ** What save_pictures shows *)

Module Pictures.

Definition tmap (f : R -> R) (t : tensor) : tensor :=
  mkTensor (dim0 t) (dim1 t) (dim2 t) (dim3 t)
           (fun n i j c => f (elt t n i j c)).

(** The two tensors [save_pictures] draws from: the generator's output
    and the real centers, both brought to [0, 1] and to channel-last. *)
Definition shown (use_gpu : bool) (generated center_batch : tensor)
  : tensor * tensor :=
  let gen_centers := tmap (fun x => (x + 1) / 2) generated in
  let center_batch := tmap (fun x => (x + 1) / 2) center_batch in
  if use_gpu
  then (transpose_0231 gen_centers, transpose_0231 center_batch)
  else (gen_centers, center_batch).

(** What [train] does to a batch before it uses it. *)
Definition to_layout (use_gpu : bool) (b : Trainer.Batch) : Trainer.Batch :=
  (if use_gpu then transpose_0312 (fst b) else fst b,
   if use_gpu then transpose_0312 (snd b) else snd b).

(** The pictures of a split are those of the given batch. *)
Definition picture_of (train_shown val_shown : Trainer.Batch)
    (ev : Trainer.Event) : Prop :=
  match ev with
  | Trainer.SavedPictures Trainer.TrainSplit _ ib cb => (ib, cb) = train_shown
  | Trainer.SavedPictures Trainer.ValSplit _ ib cb => (ib, cb) = val_shown
  | _ => True
  end.

(** From one state to the other the event list grew by events whose
    pictures are those of the given batches. *)
Definition logs_pictures {P : ModelProvider}
    (train_shown val_shown : Trainer.Batch) (s s' : Trainer.TState) : Prop :=
  exists new,
    Trainer.events s' = Trainer.events s ++ new
    /\ Forall (picture_of train_shown val_shown) new.

(** The batch whose pictures a split gets: the last training batch, and
    the last batch of the training batches followed by the validation
    batches. *)
Definition shown_batch (use_gpu : bool)
    (train_dataset val_dataset : list Trainer.Batch) (default : Trainer.Batch)
    (type : Trainer.split) : Trainer.Batch :=
  match type with
  | Trainer.TrainSplit => to_layout use_gpu (last train_dataset default)
  | Trainer.ValSplit =>
      to_layout use_gpu (last (train_dataset ++ val_dataset) default)
  end.

End Pictures.

(* ================================================================== *)
(** ** From the loaded samples to the call of train (end of main) *)

Module Pipeline.
Import LoadData.

(** Samples of one shape put side by side along a new first axis. *)
Definition stack (samples : list image) : tensor :=
  let first := hd (mkImage 0 0 0 (fun _ _ _ => 0)) samples in
  mkTensor (length samples) (rows first) (cols first) (chans first)
           (fun n i j c => px (nth n samples first) i j c).

(** Consecutive groups of [k] elements; the last one may be shorter. *)
Fixpoint chunks_upto {A : Type} (fuel k : nat) (l : list A) : list (list A) :=
  match fuel with
  | O => []
  | S fuel' =>
      match l with
      | [] => []
      | _ => firstn k l :: chunks_upto fuel' k (skipn k l)
      end
  end.

Definition chunks {A : Type} (k : nat) (l : list A) : list (list A) :=
  chunks_upto (length l) k l.

(** Modelled from the spec: [Dataset.batch] is library code.  The
    specification's batches are equal-length sequences of paired tensors;
    consecutive samples are grouped [batch_size] at a time, the last group
    taking what is left, and a batch size below one is refused. *)
Definition dataset_batch (batch_size : Z) (ds : list (image * image))
  : outcome (list Trainer.Batch) :=
  if (batch_size <=? 0)%Z then Failed InvalidArgumentError
  else Done (map (fun chunk => (stack (map fst chunk), stack (map snd chunk)))
                 (chunks (Z.to_nat batch_size) ds)).

(** The last lines of [main]: load, batch both datasets, train. *)
Definition load_batch_train {P : ModelProvider}
    (write_fails : Trainer.Event -> bool)
    (images image_contexts : list image) (batch_size : Z) (epochs : nat)
    (overlap : Z) (use_gpu : bool) (lr : R)
  : outcome (Trainer.result unit * Trainer.TState) :=
  match load_simulated_data images image_contexts with
  | Failed e => Failed e
  | Done (train_dataset, val_dataset) =>
      match dataset_batch batch_size train_dataset with
      | Failed e => Failed e
      | Done train_dataset =>
          match dataset_batch batch_size val_dataset with
          | Failed e => Failed e
          | Done val_dataset =>
              Done (Trainer.train write_fails train_dataset val_dataset
                                  epochs overlap use_gpu lr)
          end
      end
  end.

End Pipeline.

(* ================================================================== *)
(** ** load_h5_to_dataset (load_data.py) *)

Module LoadH5.
Import LoadData.

(** What a key of the file holds: an array of rank 2 (one layer) or of
    rank 3.  Arrays of other ranks are outside the model. *)
Inductive stored :=
| Gray (height width : nat) (layer : nat -> nat -> R)
| Color (a : image).

(** An .h5 file: its keys, with what they hold.  The keys of a file are
    distinct, so [len(f.keys())] is the length of the list. *)
Definition h5file : Type := list (String.string * stored).

(** [f[name]]; [None] stands for the KeyError of a missing key. *)
Fixpoint lookup (name : String.string) (f : h5file) : option stored :=
  match f with
  | [] => None
  | (key, g) :: rest =>
      if String.eqb key name then Some g else lookup name rest
  end.

(** ['img_{}'.format(i)] *)
Definition img_name (i : nat) : String.string :=
  String.append "img_"%string
                (DecimalString.NilEmpty.string_of_uint (Nat.to_uint i)).

(** The first loop: the indices below the number of keys whose name is a
    key of the file, in increasing order. *)
Definition present_indices (f : h5file) : list nat :=
  filter (fun i => match lookup (img_name i) f with
                   | Some _ => true
                   | None => false
                   end)
         (seq 0 (length f)).

(** [if len(g.shape) < 3]: the layer is copied into three channels. *)
Definition to_three_axes (g : stored) : image :=
  match g with
  | Gray height width layer => mkImage height width 3 (fun i j _ => layer i j)
  | Color a => a
  end.

(** [dst[count, :, :, :] = src] needs every axis of [src] to broadcast. *)
Definition assignable (src : image) (r c ch : nat) : bool :=
  broadcasts (rows src) r && broadcasts (cols src) c
  && broadcasts (chans src) ch.

(** What the assignment stores: an axis of length one is repeated. *)
Definition broadcast_to (src : image) (r c ch : nat) : image :=
  mkImage r c ch
          (fun i j k =>
             px src (if (rows src =? r)%nat then i else 0%nat)
                    (if (cols src =? c)%nat then j else 0%nat)
                    (if (chans src =? ch)%nat then k else 0%nat)).

Section WithResize.

(** [skimage.transform.resize], and the order in which a shuffled dataset
    yields its elements, are external. *)
Variable resize : image -> nat -> nat -> image.
Variable reorder : list image -> list image.
Variable overlap : Z.
Variable height width num_channels : nat.

(** The body of the second loop for one stored array: the pair
    [(data_images[count], data_centers[count])]. *)
Definition load_one (g : stored) : outcome (image * image) :=
  let g := to_three_axes g in
  let g := resize g height width in
  let g := if (3 <? chans g)%nat
           then getitem3 g all all (between 0 2) else g in
  match mask_image g (Z.of_nat (height / 2)) overlap with
  | Failed e => Failed e
  | Done (centers, images) =>
      if assignable images height width num_channels then
        if assignable centers (height / 2) (width / 2) num_channels then
          Done (broadcast_to (map_px (fun x => x * 2 - 1) images)
                             height width num_channels,
                broadcast_to (map_px (fun x => x * 2 - 1) centers)
                             (height / 2) (width / 2) num_channels)
        else Failed ValueError
      else Failed ValueError
  end.

(** The second loop; the first exception ends it. *)
Fixpoint load_each (f : h5file) (indices : list nat)
  : outcome (list (image * image)) :=
  match indices with
  | [] => Done []
  | i :: rest =>
      match lookup (img_name i) f with
      | None => Failed KeyError
      | Some g =>
          match load_one g with
          | Failed e => Failed e
          | Done sample =>
              match load_each f rest with
              | Failed e => Failed e
              | Done samples => Done (sample :: samples)
              end
          end
      end
  end.

(** The dataset is the list of (image, center) pairs it yields; what the
    function prints is left out. *)
Definition load_h5_to_dataset (f : h5file) (shuffle : bool)
  : outcome (list (image * image)) :=
  match load_each f (present_indices f) with
  | Failed e => Failed e
  | Done samples =>
      let image_dataset := map fst samples in
      let center_dataset := map snd samples in
      let center_dataset :=
        if shuffle then reorder center_dataset else center_dataset in
      Done (combine image_dataset center_dataset)
  end.

End WithResize.

End LoadH5.

(** More toy data for examples. *)
Module ToyData.

(** The all-ones 10 x 10 prediction with its top-right pixel changed. *)
Definition corner_changed : tensor :=
  mkTensor 1 10 10 3
           (fun n i j c => if (i =? 0)%nat && (j =? 9)%nat then 5 else 1).

(** A 4 x 4 one-channel sample whose entries are all [v]. *)
Definition sample (v : R) : LoadData.image :=
  LoadData.mkImage 4 4 1 (fun _ _ _ => v).

(** An 8 x 8 image whose entry at row [i], column [j] is [8 * i + j]. *)
Definition ramp : LoadData.image :=
  LoadData.mkImage 8 8 1 (fun i j _ => INR (8 * i + j)).

(** Resizing by taking the nearest pixel above and to the left. *)
Definition nearest (g : LoadData.image) (h w : nat) : LoadData.image :=
  LoadData.mkImage h w (LoadData.chans g)
    (fun i j c =>
       LoadData.px g (i * LoadData.rows g / h) (j * LoadData.cols g / w) c).

(** A single layer of 8 x 8 values between 0 and 1. *)
Definition layer : LoadH5.stored :=
  LoadH5.Gray 8 8 (fun i j => INR (8 * i + j) / 64).

(** An 8 x 8 array with four channels. *)
Definition four_channels : LoadData.image :=
  LoadData.mkImage 8 8 4 (fun _ _ _ => 1 / 2).

(** A file in which [img_1] is missing. *)
Definition file_with_gap : LoadH5.h5file :=
  [("img_0"%string, layer); ("img_2"%string, layer)].

(** A file whose second array has four channels. *)
Definition file_with_alpha : LoadH5.h5file :=
  [("img_0"%string, layer); ("img_1"%string, LoadH5.Color four_channels)].

End ToyData.

(* ================================================================== *)
(** * Proofs *)

(** ** Sums over index ranges *)

Lemma sum_n_ext (n : nat) (f g : nat -> R) :
  (forall i, (i < n)%nat -> f i = g i) -> sum_n n f = sum_n n g.
Proof.
  induction n as [|n IH]; intros H; simpl; [reflexivity|].
  rewrite IH by (intros; apply H; lia).
  rewrite (H n) by lia. reflexivity.
Qed.

Lemma sum_n_zero (n : nat) : sum_n n (fun _ => 0) = 0.
Proof. induction n as [|n IH]; simpl; [|rewrite IH]; lra. Qed.

Lemma sum_n_vanish (n : nat) (f : nat -> R) :
  (forall i, (i < n)%nat -> f i = 0) -> sum_n n f = 0.
Proof.
  intros H. rewrite <- (sum_n_zero n). apply sum_n_ext. exact H.
Qed.

Lemma sum_n_plus (n : nat) (f g : nat -> R) :
  sum_n n (fun i => f i + g i) = sum_n n f + sum_n n g.
Proof. induction n as [|n IH]; simpl; [|rewrite IH]; lra. Qed.

Lemma sum_n_scale (n : nat) (c : R) (f : nat -> R) :
  sum_n n (fun i => f i * c) = sum_n n f * c.
Proof. induction n as [|n IH]; simpl; [|rewrite IH]; lra. Qed.

Lemma sum_n_nonneg (n : nat) (f : nat -> R) :
  (forall i, (i < n)%nat -> 0 <= f i) -> 0 <= sum_n n f.
Proof.
  induction n as [|n IH]; intros H; simpl; [lra|].
  assert (0 <= sum_n n f) by (apply IH; intros; apply H; lia).
  assert (0 <= f n) by (apply H; lia). lra.
Qed.

Lemma sum_n_swap (n m : nat) (f : nat -> nat -> R) :
  sum_n n (fun i => sum_n m (fun j => f i j))
  = sum_n m (fun j => sum_n n (fun i => f i j)).
Proof.
  induction n as [|n IH]; simpl.
  - symmetry. apply sum_n_zero.
  - rewrite IH, sum_n_plus. reflexivity.
Qed.

(** Moving the second axis of a fourfold sum to the last place. *)
Lemma sum4_rotate (a b c d : nat) (f : nat -> nat -> nat -> nat -> R) :
  sum4 a b c d f = sum4 a c d b (fun n y z x => f n x y z).
Proof.
  unfold sum4, sum3. apply sum_n_ext; intros n _.
  rewrite sum_n_swap. apply sum_n_ext; intros y _.
  apply sum_n_swap.
Qed.

Lemma sum4_ext (a b c d : nat) (f g : nat -> nat -> nat -> nat -> R) :
  (forall i j k l, f i j k l = g i j k l) -> sum4 a b c d f = sum4 a b c d g.
Proof.
  intros H. unfold sum4, sum3.
  repeat (apply sum_n_ext; intros ? _). apply H.
Qed.

Lemma sum4_nonneg (a b c d : nat) (f : nat -> nat -> nat -> nat -> R) :
  (forall i j k l, 0 <= f i j k l) -> 0 <= sum4 a b c d f.
Proof.
  intros H. unfold sum4, sum3.
  repeat (apply sum_n_nonneg; intros ? _). apply H.
Qed.

Lemma safe_div_nonneg (x : R) (n : nat) : 0 <= x -> 0 <= safe_div x n.
Proof.
  intros Hx. destruct n as [|n]; unfold safe_div; [lra|].
  apply Rmult_le_pos; [exact Hx|].
  apply Rlt_le, Rinv_0_lt_compat, lt_0_INR. lia.
Qed.

Lemma safe_div_eq (x y : R) (n m : nat) :
  x = y -> n = m -> safe_div x n = safe_div y m.
Proof. intros -> ->. reflexivity. Qed.

Lemma safe_div_mul (x : R) (n m : nat) :
  safe_div (x / INR (S m)) n = safe_div x (n * S m).
Proof.
  destruct n as [|n]; [reflexivity|].
  change (safe_div (x / INR (S m)) (S n)) with (x / INR (S m) / INR (S n)).
  replace (S n * S m)%nat with (S (m + n * S m)) by lia.
  change (safe_div x (S (m + n * S m))) with (x / INR (S (m + n * S m))).
  replace (S (m + n * S m)) with (S n * S m)%nat by lia.
  rewrite mult_INR.
  assert (INR (S n) <> 0) by (apply not_0_INR; lia).
  assert (INR (S m) <> 0) by (apply not_0_INR; lia).
  field. split; assumption.
Qed.

(* ================================================================== *)
(** ** Loss objects as plain means *)

Section LossFacts.
Import Losses LossSpec LossAux.

(** A loss object computes the mean of its element-wise function over
    all elements. *)
Lemma keras_loss_flat (f : R -> R -> R) (y_true y_pred : tensor) :
  keras_loss f y_true y_pred
  = safe_div
      (sum4 (dim0 y_pred) (dim1 y_pred) (dim2 y_pred) (dim3 y_pred)
            (fun i j k l => f (elt y_true i j k l) (elt y_pred i j k l)))
      (dim0 y_pred * dim1 y_pred * dim2 y_pred * dim3 y_pred).
Proof.
  unfold keras_loss.
  destruct (dim3 y_pred) as [|m] eqn:E.
  - rewrite Nat.mul_0_r. unfold mean_n, sum3.
    replace (sum_n (dim0 y_pred) _) with 0.
    + destruct (dim0 y_pred * dim1 y_pred * dim2 y_pred)%nat;
        unfold safe_div; [reflexivity | lra].
    + symmetry. repeat (apply sum_n_vanish; intros ? _). reflexivity.
  - rewrite <- safe_div_mul. apply safe_div_eq; [|reflexivity].
    unfold sum4, sum3, mean_n, Rdiv.
    rewrite <- sum_n_scale. apply sum_n_ext; intros i _.
    rewrite <- sum_n_scale. apply sum_n_ext; intros j _.
    rewrite <- sum_n_scale. reflexivity.
Qed.

Lemma extent_all (len : nat) : extent len all = len.
Proof. unfold extent, upper, lower; simpl. rewrite Z.sub_0_r. apply Nat2Z.id. Qed.

Lemma offset_all (len : nat) : offset len all = 0%nat.
Proof. reflexivity. Qed.

(** The error over a slice of the two spatial axes, in either layout. *)
Lemma MSE_sliced (channel_first : bool) (s1 s2 : pyslice)
    (y_true y_pred : tensor) :
  MSE (if channel_first then getitem y_true all all s1 s2
       else getitem y_true all s1 s2 all)
      (if channel_first then getitem y_pred all all s1 s2
       else getitem y_pred all s1 s2 all)
  = sliced_MSE channel_first s1 s2 y_true y_pred.
Proof.
  unfold MSE. rewrite keras_loss_flat. unfold sliced_MSE.
  destruct channel_first; cbn [getitem dim0 dim1 dim2 dim3 elt height width
                               channels pixel];
    rewrite !extent_all, !offset_all.
  - rewrite sum4_rotate. apply safe_div_eq; [|lia].
    apply sum4_ext; intros. unfold squared_difference, Rsqr. reflexivity.
  - apply safe_div_eq; [|reflexivity]. apply sum4_ext; intros.
    unfold squared_difference, Rsqr. reflexivity.
Qed.

(** The error over the whole tensor, in either layout. *)
Lemma MSE_whole (channel_first : bool) (y_true y_pred : tensor) :
  MSE y_true y_pred
  = region_MSE channel_first
      (whole (height channel_first y_pred) (width channel_first y_pred))
      y_true y_pred.
Proof.
  unfold MSE. rewrite keras_loss_flat. unfold region_MSE, whole.
  cbn [row_lo row_hi col_lo col_hi]. rewrite !Nat.sub_0_r.
  destruct channel_first; cbn [height width channels pixel].
  - rewrite sum4_rotate. apply safe_div_eq; [|lia].
    apply sum4_ext; intros. unfold squared_difference, Rsqr. reflexivity.
  - apply safe_div_eq; [|reflexivity]. apply sum4_ext; intros.
    unfold squared_difference, Rsqr. reflexivity.
Qed.

(** [generator_loss] with its slices spelled out, for every overlap. *)
Lemma generator_loss_sliced (fake_output y_true y_pred : tensor)
    (overlap : Z) (use_gpu : bool) :
  overlap <> 0%Z ->
  generator_loss fake_output y_true y_pred overlap use_gpu
  = 9 / 10 * (sliced_MSE use_gpu (between overlap (- overlap))
                         (between overlap (- overlap)) y_true y_pred
              + 10 * (sliced_MSE use_gpu (upto overlap) (upto overlap)
                                 y_true y_pred
                      + sliced_MSE use_gpu (from (- overlap)) (from (- overlap))
                                   y_true y_pred))
    + 1 / 10 * cross_entropy (ones_like fake_output) fake_output.
Proof.
  intros Ho. unfold generator_loss, generator_loss_weighted,
    weight_l2_default, weight_adv_default.
  destruct (Z.eqb_spec overlap 0) as [E|_]; [contradiction|].
  cbn [negb]. rewrite <- !MSE_sliced.
  destruct use_gpu; reflexivity.
Qed.

Lemma generator_loss_no_overlap (fake_output y_true y_pred : tensor)
    (use_gpu : bool) :
  generator_loss fake_output y_true y_pred 0 use_gpu
  = 9 / 10 * MSE y_true y_pred
    + 1 / 10 * cross_entropy (ones_like fake_output) fake_output.
Proof. reflexivity. Qed.

End LossFacts.

(* ================================================================== *)
(** ** Cross-entropy from logits *)

Section CrossEntropyFacts.
Import Losses LossSpec.

Lemma one_plus_exp_pos (x : R) : 0 < 1 + exp x.
Proof. pose proof (exp_pos x). lra. Qed.

Lemma ln_one_plus_exp (x : R) : ln (1 + exp x) = x + ln (1 + exp (- x)).
Proof.
  assert (E : 1 + exp x = exp x * (1 + exp (- x))).
  { rewrite Rmult_plus_distr_l, <- exp_plus, Rplus_opp_r, exp_0. lra. }
  rewrite E, ln_mult, ln_exp; auto using exp_pos, one_plus_exp_pos.
Qed.

Lemma ln_one_plus_exp_nonneg (x : R) : 0 <= ln (1 + exp x).
Proof.
  rewrite <- ln_1. apply Rlt_le, ln_increasing; [lra|].
  pose proof (exp_pos x). lra.
Qed.

(** The stable form against label one and against label zero. *)
Lemma stable_form_ones (x : R) :
  sigmoid_cross_entropy_with_logits 1 x = ln (1 + exp (- x)).
Proof.
  unfold sigmoid_cross_entropy_with_logits.
  destruct (Rle_lt_dec 0 x) as [H|H].
  - rewrite Rmax_left, Rabs_pos_eq by assumption. lra.
  - rewrite Rmax_right, Rabs_left by lra.
    rewrite Ropp_involutive, (ln_one_plus_exp x). lra.
Qed.

Lemma stable_form_zeros (x : R) :
  sigmoid_cross_entropy_with_logits 0 x = ln (1 + exp x).
Proof.
  unfold sigmoid_cross_entropy_with_logits.
  destruct (Rle_lt_dec 0 x) as [H|H].
  - rewrite Rmax_left, Rabs_pos_eq by assumption.
    rewrite (ln_one_plus_exp x). lra.
  - rewrite Rmax_right, Rabs_left by lra.
    rewrite Ropp_involutive. lra.
Qed.

(** The textbook cross-entropy against label one and label zero. *)
Lemma textbook_ones (x : R) :
  binary_cross_entropy 1 x = ln (1 + exp (- x)).
Proof.
  unfold binary_cross_entropy, sigmoid.
  pose proof (one_plus_exp_pos (- x)) as Hp.
  replace (1 / (1 + exp (- x))) with (/ (1 + exp (- x))) by (field; lra).
  rewrite ln_Rinv by assumption. lra.
Qed.

Lemma textbook_zeros (x : R) :
  binary_cross_entropy 0 x = ln (1 + exp x).
Proof.
  unfold binary_cross_entropy, sigmoid.
  pose proof (one_plus_exp_pos (- x)) as Hp.
  replace (1 - 1 / (1 + exp (- x))) with (exp (- x) * / (1 + exp (- x)))
    by (field; lra).
  rewrite ln_mult, ln_exp, ln_Rinv;
    auto using exp_pos, Rinv_0_lt_compat.
  rewrite (ln_one_plus_exp x). lra.
Qed.

Lemma stable_form_is_textbook (z x : R) :
  z = 1 \/ z = 0 ->
  sigmoid_cross_entropy_with_logits z x = binary_cross_entropy z x.
Proof.
  intros [-> | ->].
  - rewrite stable_form_ones, textbook_ones. reflexivity.
  - rewrite stable_form_zeros, textbook_zeros. reflexivity.
Qed.

(** The loss object against a constant target is the mean of the
    textbook cross-entropy over the logits. *)
Lemma cross_entropy_constant_target (z : R) (logits : tensor) :
  z = 1 \/ z = 0 ->
  cross_entropy (full_like z logits) logits
  = batch_mean (binary_cross_entropy z) logits.
Proof.
  intros Hz. unfold cross_entropy. rewrite keras_loss_flat.
  unfold batch_mean. apply safe_div_eq; [|reflexivity].
  apply sum4_ext; intros. cbn [full_like elt].
  apply stable_form_is_textbook, Hz.
Qed.

Lemma batch_mean_nonneg (g : R -> R) (t : tensor) :
  (forall x, 0 <= g x) -> 0 <= batch_mean g t.
Proof.
  intros H. unfold batch_mean.
  apply safe_div_nonneg, sum4_nonneg. intros. apply H.
Qed.

Lemma textbook_nonneg (z x : R) :
  z = 1 \/ z = 0 -> 0 <= binary_cross_entropy z x.
Proof.
  intros [-> | ->].
  - rewrite textbook_ones. apply ln_one_plus_exp_nonneg.
  - rewrite textbook_zeros. apply ln_one_plus_exp_nonneg.
Qed.

Lemma batch_mean_single (g : R -> R) (v : R) :
  batch_mean g (fill 1 1 1 1 v) = g v.
Proof.
  unfold batch_mean, fill, sum4, sum3. cbn [dim0 dim1 dim2 dim3 elt sum_n].
  unfold safe_div. cbn [Nat.mul Nat.add INR]. field.
Qed.

End CrossEntropyFacts.

(* ================================================================== *)
(** ** Lower bounds of the exponential *)

Section ExpBoundFacts.
Import ExpBound.

Lemma scale_pos : 0 < IZR scale.
Proof. apply IZR_lt. reflexivity. Qed.

Lemma floor_div_le (a b : Z) : (0 < b)%Z -> IZR (a / b) <= IZR a / IZR b.
Proof.
  intros Hb. assert (0 < IZR b) by (apply IZR_lt; assumption).
  apply Rmult_le_reg_r with (IZR b); [assumption|].
  replace (IZR a / IZR b * IZR b) with (IZR a) by (field; lra).
  rewrite <- mult_IZR. apply IZR_le.
  rewrite Z.mul_comm. apply Z.mul_div_le. assumption.
Qed.

Lemma sq_down_sound (a : Z) (x : R) :
  (0 <= a)%Z -> IZR a / IZR scale <= x ->
  (0 <= sq_down a)%Z /\ IZR (sq_down a) / IZR scale <= x * x.
Proof.
  intros Ha Hx. pose proof scale_pos as Hs. split.
  - unfold sq_down. apply Z.div_pos; [nia | reflexivity].
  - assert (H0 : 0 <= IZR a / IZR scale).
    { apply Rmult_le_pos; [apply IZR_le; assumption|].
      apply Rlt_le, Rinv_0_lt_compat; assumption. }
    apply Rle_trans with (IZR a / IZR scale * (IZR a / IZR scale)).
    + unfold sq_down.
      apply Rmult_le_reg_r with (IZR scale); [assumption|].
      replace (IZR (a * a / scale) / IZR scale * IZR scale)
        with (IZR (a * a / scale)) by (field; lra).
      replace (IZR a / IZR scale * (IZR a / IZR scale) * IZR scale)
        with (IZR (a * a) / IZR scale) by (rewrite mult_IZR; field; lra).
      apply floor_div_le. reflexivity.
    + apply Rmult_le_compat; assumption.
Qed.

Lemma square_times_sound (k : nat) : forall (a : Z) (y : R),
  (0 <= a)%Z -> IZR a / IZR scale <= exp y ->
  IZR (square_times k a) / IZR scale <= exp (y * 2 ^ k).
Proof.
  induction k as [|k IH]; intros a y Ha Hy.
  - simpl. rewrite Rmult_1_r. exact Hy.
  - destruct (sq_down_sound a (exp y) Ha Hy) as [Hq Hle].
    rewrite <- exp_plus in Hle.
    specialize (IH (sq_down a) (y + y) Hq Hle).
    replace (y * 2 ^ S k) with ((y + y) * 2 ^ k) by (simpl; ring).
    exact IH.
Qed.

Lemma exp_lower_sound (p q : Z) (k : nat) :
  (0 < q)%Z -> (0 <= scale + scale * p / q)%Z ->
  IZR (exp_lower p q k) / IZR scale <= exp (IZR p / IZR q * 2 ^ k).
Proof.
  intros Hq Ha. unfold exp_lower. pose proof scale_pos as Hs.
  assert (0 < IZR q) by (apply IZR_lt; assumption).
  apply square_times_sound; [assumption|].
  apply Rle_trans with (1 + IZR p / IZR q); [|apply exp_ineq1_le].
  rewrite plus_IZR.
  pose proof (floor_div_le (scale * p) q Hq) as Hf.
  rewrite mult_IZR in Hf.
  apply Rmult_le_reg_r with (IZR scale); [assumption|].
  replace ((IZR scale + IZR (scale * p / q)) / IZR scale * IZR scale)
    with (IZR scale + IZR (scale * p / q)) by (field; lra).
  replace ((1 + IZR p / IZR q) * IZR scale)
    with (IZR scale + IZR scale * IZR p / IZR q) by (field; lra).
  lra.
Qed.

(** [exp (-2)] and [exp 2], from below and from above. *)
Lemma exp_minus_2_lower : 135331141831 / 1000000000000 <= exp (- 2).
Proof.
  pose proof (exp_lower_sound (-2) 65536 16 eq_refl) as H.
  replace (exp_lower (-2) 65536 16) with 135331141831%Z in H
    by (vm_compute; reflexivity).
  replace (IZR (-2) / IZR 65536 * 2 ^ 16) with (- 2) in H
    by (simpl; field).
  apply H. vm_compute. discriminate.
Qed.

Lemma exp_2_lower : 7388830357776 / 1000000000000 <= exp 2.
Proof.
  pose proof (exp_lower_sound 2 65536 16 eq_refl) as H.
  replace (exp_lower 2 65536 16) with 7388830357776%Z in H
    by (vm_compute; reflexivity).
  replace (IZR 2 / IZR 65536 * 2 ^ 16) with 2 in H by (simpl; field).
  apply H. vm_compute. discriminate.
Qed.

Lemma exp_minus_2_upper : exp (- 2) <= 1000000000000 / 7388830357776.
Proof.
  pose proof exp_2_lower as H. pose proof (exp_pos 2) as Hp.
  replace (-2) with (Ropp 2) by lra. rewrite exp_Ropp.
  replace (1000000000000 / 7388830357776)
    with (/ (7388830357776 / 1000000000000)) by (field; lra).
  apply Rinv_le_contravar; [lra | exact H].
Qed.

Lemma exp_012675_upper : exp (12675 / 100000) <= 1000000000000 / 880946971846.
Proof.
  pose proof (exp_lower_sound (-12675) 102400000 10 eq_refl) as H.
  replace (exp_lower (-12675) 102400000 10) with 880946971846%Z in H
    by (vm_compute; reflexivity).
  replace (IZR (-12675) / IZR 102400000 * 2 ^ 10)
    with (- (12675 / 100000)) in H by (simpl; field).
  assert (H' : 880946971846 / 1000000000000 <= exp (- (12675 / 100000))).
  { apply H. vm_compute. discriminate. }
  rewrite exp_Ropp in H'.
  pose proof (exp_pos (12675 / 100000)) as Hp.
  replace (1000000000000 / 880946971846)
    with (/ (880946971846 / 1000000000000)) by (field; lra).
  rewrite <- (Rinv_inv (exp (12675 / 100000))).
  apply Rinv_le_contravar; [lra | exact H'].
Qed.

Lemma exp_012725_lower : 1135691928241 / 1000000000000 <= exp (12725 / 100000).
Proof.
  pose proof (exp_lower_sound 12725 102400000 10 eq_refl) as H.
  replace (exp_lower 12725 102400000 10) with 1135691928241%Z in H
    by (vm_compute; reflexivity).
  replace (IZR 12725 / IZR 102400000 * 2 ^ 10) with (12725 / 100000) in H
    by (simpl; field).
  apply H. vm_compute. discriminate.
Qed.

(** [ln (1 + exp (-2))] to three decimals. *)
Lemma ln_one_plus_exp_minus_2 :
  12675 / 100000 < ln (1 + exp (- 2)) < 12725 / 100000.
Proof.
  pose proof exp_minus_2_lower as HL. pose proof exp_minus_2_upper as HU.
  pose proof exp_012675_upper as H1. pose proof exp_012725_lower as H2.
  split.
  - rewrite <- (ln_exp (12675 / 100000)).
    apply ln_increasing; [apply exp_pos | lra].
  - rewrite <- (ln_exp (12725 / 100000)).
    apply ln_increasing; [pose proof (exp_pos (-2)); lra | lra].
Qed.

End ExpBoundFacts.

(* ================================================================== *)
(** ** Claims about the loss functions *)

Section LossClaims.
Import Losses LossSpec LossAux.

Lemma discriminator_loss_formula (real_output fake_output : tensor) :
  discriminator_loss real_output fake_output
  = batch_mean (binary_cross_entropy 1) real_output
    + batch_mean (binary_cross_entropy 0) fake_output.
Proof.
  unfold discriminator_loss, ones_like, zeros_like.
  rewrite !cross_entropy_constant_target by auto. reflexivity.
Qed.

(** A discriminator that is right about both samples, with logits 2 and -2. *)
Lemma discriminator_loss_confident :
  discriminator_loss (fill 1 1 1 1 2) (fill 1 1 1 1 (-2))
  = 2 * ln (1 + exp (-2)).
Proof.
  rewrite discriminator_loss_formula, !batch_mean_single.
  rewrite textbook_ones, textbook_zeros.
  replace (Ropp 2) with (-2) by lra. lra.
Qed.

(** C3, as amended.  For every pair of logit tensors, [discriminator_loss]
    is the mean binary cross-entropy of [real_output] against all ones plus
    the mean binary cross-entropy of [fake_output] against all zeros,
    computed from the raw logits, and it is never negative.  On the
    one-sample batches with logits [2] and [-2] (shape [(1,1,1,1)], the
    single entries of [[[2.0]]] and [[[-2.0]]]) it is [2 * ln (1 + e^-2)],
    between 0.2535 and 0.2545; the value [ln (1 + e^-2) + ln (1 + e^2)],
    between 2.2535 and 2.2545, is the loss when both logits are [2]. *)
Theorem discriminator_loss_is_cross_entropy :
  (forall real_output fake_output : tensor,
      discriminator_loss real_output fake_output
      = batch_mean (binary_cross_entropy 1) real_output
        + batch_mean (binary_cross_entropy 0) fake_output
      /\ 0 <= discriminator_loss real_output fake_output)
  /\ discriminator_loss (fill 1 1 1 1 2) (fill 1 1 1 1 (-2))
     = 2 * ln (1 + exp (-2))
  /\ 2535 / 10000 < 2 * ln (1 + exp (-2)) < 2545 / 10000
  /\ discriminator_loss (fill 1 1 1 1 2) (fill 1 1 1 1 2)
     = ln (1 + exp (-2)) + ln (1 + exp 2)
  /\ 22535 / 10000 < ln (1 + exp (-2)) + ln (1 + exp 2) < 22545 / 10000.
Proof.
  pose proof discriminator_loss_formula as G.
  pose proof ln_one_plus_exp_minus_2 as B.
  repeat split.
  - apply G.
  - rewrite G.
    apply Rplus_le_le_0_compat; apply batch_mean_nonneg; intros x;
      apply textbook_nonneg; auto.
  - apply discriminator_loss_confident.
  - lra.
  - lra.
  - rewrite G, !batch_mean_single, textbook_ones, textbook_zeros.
    replace (Ropp 2) with (-2) by lra. reflexivity.
  - rewrite (ln_one_plus_exp 2). replace (Ropp 2) with (-2) by lra. lra.
  - rewrite (ln_one_plus_exp 2). replace (Ropp 2) with (-2) by lra. lra.
Qed.

(** C3 as stated fails: with logits [2] and [-2] the loss is not
    [ln (1 + e^-2) + ln (1 + e^2)]. *)
Lemma discriminator_loss_example_differs :
  discriminator_loss (fill 1 1 1 1 2) (fill 1 1 1 1 (-2))
  <> ln (1 + exp (-2)) + ln (1 + exp 2).
Proof.
  rewrite discriminator_loss_confident.
  pose proof ln_one_plus_exp_minus_2 as B.
  rewrite (ln_one_plus_exp 2). replace (Ropp 2) with (-2) by lra. lra.
Qed.

(** *** Slices of a sufficiently large axis *)

Lemma inner_slice (len : nat) (o : Z) :
  (0 < o)%Z -> (2 * o <= Z.of_nat len)%Z ->
  offset len (between o (- o)) = Z.to_nat o
  /\ extent len (between o (- o)) = (len - Z.to_nat o - Z.to_nat o)%nat.
Proof.
  intros H1 H2. unfold offset, extent, lower, upper, between, adjust.
  cbn [start stop].
  destruct (Z.ltb_spec o 0), (Z.ltb_spec (- o) 0); lia.
Qed.

Lemma head_slice (len : nat) (o : Z) :
  (0 < o)%Z -> (o <= Z.of_nat len)%Z ->
  offset len (upto o) = 0%nat /\ extent len (upto o) = Z.to_nat o.
Proof.
  intros H1 H2. unfold offset, extent, lower, upper, upto, adjust.
  cbn [start stop]. destruct (Z.ltb_spec o 0); lia.
Qed.

Lemma tail_slice (len : nat) (o : Z) :
  (0 < o)%Z -> (o <= Z.of_nat len)%Z ->
  offset len (from (- o)) = (len - Z.to_nat o)%nat
  /\ extent len (from (- o)) = Z.to_nat o.
Proof.
  intros H1 H2. unfold offset, extent, lower, upper, from, adjust.
  cbn [start stop]. destruct (Z.ltb_spec (- o) 0); lia.
Qed.

Lemma sliced_is_region (channel_first : bool) (s1 s2 : pyslice) (r : region)
    (y_true y_pred : tensor) :
  same_shape y_true y_pred ->
  offset (height channel_first y_pred) s1 = row_lo r ->
  offset (width channel_first y_pred) s2 = col_lo r ->
  extent (height channel_first y_pred) s1 = (row_hi r - row_lo r)%nat ->
  extent (width channel_first y_pred) s2 = (col_hi r - col_lo r)%nat ->
  sliced_MSE channel_first s1 s2 y_true y_pred
  = region_MSE channel_first r y_true y_pred.
Proof.
  intros (E0 & E1 & E2 & E3) H1 H2 H3 H4. unfold sliced_MSE, region_MSE.
  replace (height channel_first y_true) with (height channel_first y_pred)
    by (destruct channel_first; cbn [height]; congruence).
  replace (width channel_first y_true) with (width channel_first y_pred)
    by (destruct channel_first; cbn [width]; congruence).
  rewrite H1, H2, H3, H4. reflexivity.
Qed.

Lemma regions_fit (h w : nat) (o : Z) :
  (0 < o)%Z -> (2 * o <= Z.of_nat h)%Z -> (2 * o <= Z.of_nat w)%Z ->
  regions_as_described h w (Z.to_nat o).
Proof.
  intros Ho Hh Hw. unfold regions_as_described, disjoint, inside, in_region.
  cbn [center_region top_left_square bottom_right_square
       row_lo row_hi col_lo col_hi].
  repeat split; try lia.
  all: destruct H as [-> | [-> | ->]];
    cbn [center_region top_left_square bottom_right_square
         row_lo row_hi col_lo col_hi]; lia.
Qed.

(** C1, as amended.  For equally shaped [y_true] and [y_pred], every
    [fake_output] and either layout, and for an overlap that is zero or
    whose border fits the image (2 * overlap at most the height and at most
    the width), [generator_loss] is 0.9 * reconstruction + 0.1 *
    adversarial; the reconstruction term is the plain MSE when the overlap
    is zero, and otherwise center-MSE + 10 * (left-MSE + right-MSE) over
    three pairwise disjoint regions: the interior without a border of width
    overlap, the top-left overlap x overlap square and the bottom-right
    overlap x overlap square, the other two corners being in none. *)
Theorem generator_loss_regions :
  forall (fake_output y_true y_pred : tensor) (overlap : Z) (use_gpu : bool),
    same_shape y_true y_pred ->
    (0 <= overlap)%Z ->
    (2 * overlap <= Z.of_nat (height use_gpu y_pred))%Z ->
    (2 * overlap <= Z.of_nat (width use_gpu y_pred))%Z ->
    generator_loss_claim fake_output y_true y_pred overlap use_gpu.
Proof.
  intros fo yt yp o cf Hs Ho Hh Hw. unfold generator_loss_claim.
  split; [intros _ | intros Hpos; apply regions_fit; assumption].
  unfold generator_loss_described, adversarial.
  rewrite <- (cross_entropy_constant_target 1 fo) by auto.
  fold (ones_like fo).
  destruct (Z.eqb_spec o 0) as [-> | Hne].
  - rewrite generator_loss_no_overlap, (MSE_whole cf). reflexivity.
  - assert (Hpos : (0 < o)%Z) by lia.
    rewrite generator_loss_sliced by assumption.
    destruct (inner_slice (height cf yp) o) as [A1 A2]; try assumption.
    destruct (inner_slice (width cf yp) o) as [A3 A4]; try assumption.
    destruct (head_slice (height cf yp) o) as [B1 B2]; try lia.
    destruct (head_slice (width cf yp) o) as [B3 B4]; try lia.
    destruct (tail_slice (height cf yp) o) as [C1 C2]; try lia.
    destruct (tail_slice (width cf yp) o) as [C3 C4]; try lia.
    rewrite (sliced_is_region cf _ _
               (center_region (height cf yp) (width cf yp) (Z.to_nat o)));
      try assumption.
    rewrite (sliced_is_region cf _ _ (top_left_square (Z.to_nat o)));
      try assumption.
    rewrite (sliced_is_region cf _ _
               (bottom_right_square (height cf yp) (width cf yp) (Z.to_nat o)));
      try assumption.
    + reflexivity.
    + cbn [bottom_right_square row_lo row_hi]. lia.
    + cbn [bottom_right_square col_lo col_hi]. lia.
    + cbn [top_left_square row_lo row_hi]. lia.
    + cbn [top_left_square col_lo col_hi]. lia.
Qed.

(** A 10 x 10 image with three channels and overlap 2. *)
Lemma generator_loss_regions_witness :
  let y_true := fill 1 10 10 3 0 in
  let y_pred := fill 1 10 10 3 1 in
  same_shape y_true y_pred
  /\ (0 <= 2)%Z
  /\ (2 * 2 <= Z.of_nat (height false y_pred))%Z
  /\ (2 * 2 <= Z.of_nat (width false y_pred))%Z
  /\ generator_loss_claim (fill 1 1 1 1 0) y_true y_pred 2 false.
Proof.
  cbv zeta.
  assert (Hs : same_shape (fill 1 10 10 3 0) (fill 1 10 10 3 1))
    by (repeat split).
  assert (Hh : (2 * 2 <= Z.of_nat (height false (fill 1 10 10 3 1)))%Z)
    by (cbn; lia).
  assert (Hw : (2 * 2 <= Z.of_nat (width false (fill 1 10 10 3 1)))%Z)
    by (cbn; lia).
  split; [exact Hs|]. split; [lia|]. split; [exact Hh|]. split; [exact Hw|].
  apply generator_loss_regions; [exact Hs | lia | exact Hh | exact Hw].
Defined.

(** On a 3 x 3 image with overlap 2 both corner slices select row 1 and
    column 1. *)
Lemma corner_slices_meet :
  selects 3 (upto 2) 1 /\ selects 3 (from (-2)) 1.
Proof. unfold selects. cbn. lia. Qed.

(** C1 as stated fails: on a 3 x 3 image with overlap 2 the top-left and
    the bottom-right squares share the pixel (1, 1). *)
Lemma generator_loss_regions_not_disjoint :
  ~ generator_loss_claim (fill 1 1 1 1 0) (fill 1 3 3 1 0) (fill 1 3 3 1 1)
                         2 false.
Proof.
  intros [_ H]. destruct (H ltac:(lia)) as (_ & _ & Hd & _).
  apply (Hd 1%nat 1%nat). unfold in_region.
  change (Z.to_nat 2) with 2%nat. cbn. lia.
Qed.

(** C10.  For every overlap, every [fake_output] and all channel-last
    tensors [y_true] and [y_pred], [generator_loss] with [use_gpu = False]
    returns the same value as [generator_loss] with [use_gpu = True] on the
    channel-first transposes. *)
Theorem generator_loss_layouts_agree :
  forall (fake_output y_true y_pred : tensor) (overlap : Z),
    generator_loss fake_output y_true y_pred overlap false
    = generator_loss fake_output (transpose_0312 y_true)
                     (transpose_0312 y_pred) overlap true.
Proof.
  intros fo yt yp o. destruct (Z.eq_dec o 0) as [-> | Ho].
  - rewrite !generator_loss_no_overlap.
    rewrite (MSE_whole false yt yp).
    rewrite (MSE_whole true (transpose_0312 yt) (transpose_0312 yp)).
    reflexivity.
  - rewrite !generator_loss_sliced by assumption. reflexivity.
Qed.

End LossClaims.

(* ================================================================== *)
(** ** Claims about the two executors *)

Section StepClaims.
Import Losses Step.

(** C2.  For every batch, [take_step] makes, in this order, a training-mode
    discriminator pass on the real centers, an inference-mode generator
    pass, a training-mode discriminator pass on the generated centers, one
    discriminator update, a training-mode generator pass and one generator
    update, and nothing else.  The generator loss it returns is computed
    from the [fake_output] of the third call, made by the discriminator
    before its update, and from the centers generated by the training-mode
    pass made after that update; each model ends as the result of exactly
    one Adam update. *)
Theorem take_step_order_and_staleness :
  forall (P : ModelProvider) (images real_centers : tensor) (overlap : Z)
         (use_gpu : bool) (w : World),
    let d0 := discriminator w in
    let real_output := fst (discriminator_call d0 real_centers true) in
    let d1 := snd (discriminator_call d0 real_centers true) in
    let stale_centers := fst (generator_call (generator w) images false) in
    let g1 := snd (generator_call (generator w) images false) in
    let fake_output := fst (discriminator_call d1 stale_centers true) in
    let d2 := snd (discriminator_call d1 stale_centers true) in
    let generated_centers := fst (generator_call g1 images true) in
    let g2 := snd (generator_call g1 images true) in
    let d_opt := discriminator_optimizer w in
    let g_opt := generator_optimizer w in
    let d_grads :=
      discriminator_gradient (disc_tape real_centers stale_centers) d0 in
    let g_grads :=
      generator_gradient
        (gen_tape fake_output images real_centers overlap use_gpu) g1 in
    let result := take_step images real_centers overlap use_gpu w in
    calls (snd result)
    = calls w ++ [Forward TheDiscriminator true; Forward TheGenerator false;
                  Forward TheDiscriminator true;
                  ApplyGradients TheDiscriminator;
                  Forward TheGenerator true; ApplyGradients TheGenerator]
    /\ fst result
       = (generator_loss fake_output real_centers generated_centers
                         overlap use_gpu,
          discriminator_loss real_output fake_output)
    /\ discriminator (snd result)
       = snd (discriminator_adam (learning_rate d_opt) (slots d_opt)
                                 d_grads d2)
    /\ generator (snd result)
       = snd (generator_adam (learning_rate g_opt) (slots g_opt) g_grads g2).
Proof.
  intros P images real_centers overlap use_gpu w.
  cbv zeta.
  unfold take_step, bind, gets, ret, call_discriminator, call_generator,
    apply_discriminator_gradients, apply_generator_gradients.
  destruct (discriminator_call (discriminator w) real_centers true)
    as [ro d1] eqn:E1.
  cbn [generator discriminator generator_optimizer discriminator_optimizer
       calls fst snd].
  destruct (generator_call (generator w) images false) as [sc g1] eqn:E2.
  cbn [generator discriminator generator_optimizer discriminator_optimizer
       calls fst snd].
  destruct (discriminator_call d1 sc true) as [fo d2] eqn:E3.
  cbn [generator discriminator generator_optimizer discriminator_optimizer
       calls fst snd learning_rate slots].
  destruct (discriminator_adam _ _ _ d2) as [ds d3] eqn:E4.
  cbn [generator discriminator generator_optimizer discriminator_optimizer
       calls fst snd learning_rate slots].
  destruct (generator_call g1 images true) as [gc g2] eqn:E5.
  cbn [generator discriminator generator_optimizer discriminator_optimizer
       calls fst snd learning_rate slots].
  destruct (generator_adam _ _ _ g2) as [gs g3] eqn:E6.
  cbn [generator discriminator generator_optimizer discriminator_optimizer
       calls fst snd learning_rate slots].
  rewrite <- !app_assoc. cbn [app].
  repeat split.
Qed.

(** On the toy provider the verdict the step uses and a fresh verdict of
    the updated discriminator give different generator losses. *)
Lemma stale_verdict_differs_from_fresh :
  let w := mkWorld (P := Toy.provider) 0 0 (Adam tt 1) (Adam tt 1) [] in
  let images := fill 1 2 2 1 0 in
  let real_centers := fill 1 2 2 1 0 in
  fst (fst (take_step images real_centers 0 false w))
  <> fresh_verdict_loss images real_centers 0 false w.
Proof.
  cbv zeta. unfold fresh_verdict_loss.
  cbn [take_step bind gets ret call_discriminator call_generator
       apply_discriminator_gradients apply_generator_gradients
       generator discriminator generator_optimizer discriminator_optimizer
       calls fst snd learning_rate slots Toy.provider generator_call
       discriminator_call discriminator_adam generator_adam Adam].
  rewrite !generator_loss_no_overlap.
  unfold ones_like.
  rewrite !cross_entropy_constant_target by auto.
  cbn [full_like fill dim0]. fold (fill 1 1 1 1 0). fold (fill 1 1 1 1 (0 + 1)).
  rewrite !batch_mean_single, !textbook_ones.
  intros H.
  assert (Hlt : ln (1 + exp (- (0 + 1))) < ln (1 + exp (- 0))).
  { apply ln_increasing; [apply one_plus_exp_pos|].
    apply Rplus_lt_compat_l, exp_increasing. lra. }
  lra.
Qed.

(** C7.  [calc_losses] calls the generator once and the discriminator
    twice, always in inference mode, and never touches an optimizer.  When
    inference-mode calls leave the models as they are (the contract of the
    model provider), it leaves both models unchanged, and a second call on
    the same batch returns the same two losses. *)
Theorem calc_losses_idempotent :
  forall (P : ModelProvider) (images real_centers : tensor) (overlap : Z)
         (use_gpu : bool) (w : World),
    (forall g x, snd (generator_call g x false) = g) ->
    (forall d x, snd (discriminator_call d x false) = d) ->
    let first := calc_losses images real_centers overlap use_gpu w in
    let second := calc_losses images real_centers overlap use_gpu (snd first) in
    calls (snd first)
    = calls w ++ [Forward TheGenerator false; Forward TheDiscriminator false;
                  Forward TheDiscriminator false]
    /\ generator (snd first) = generator w
    /\ discriminator (snd first) = discriminator w
    /\ generator_optimizer (snd first) = generator_optimizer w
    /\ discriminator_optimizer (snd first) = discriminator_optimizer w
    /\ fst second = fst first.
Proof.
  intros P images real_centers overlap use_gpu w Hg Hd. cbv zeta.
  assert (Shape : forall w0 : World,
    let r := calc_losses images real_centers overlap use_gpu w0 in
    calls (snd r)
    = calls w0 ++ [Forward TheGenerator false; Forward TheDiscriminator false;
                   Forward TheDiscriminator false]
    /\ generator (snd r) = generator w0
    /\ discriminator (snd r) = discriminator w0
    /\ generator_optimizer (snd r) = generator_optimizer w0
    /\ discriminator_optimizer (snd r) = discriminator_optimizer w0
    /\ fst r
       = (let gc := fst (generator_call (generator w0) images false) in
          let ro := fst (discriminator_call (discriminator w0) real_centers
                                            false) in
          let fo := fst (discriminator_call (discriminator w0) gc false) in
          (generator_loss fo real_centers gc overlap use_gpu,
           discriminator_loss ro fo))).
  { intros w0. cbv zeta.
    unfold calc_losses, bind, ret, call_discriminator, call_generator.
    pose proof (Hg (generator w0) images) as G1.
    destruct (generator_call (generator w0) images false) as [gc g1].
    cbn [generator discriminator generator_optimizer
         discriminator_optimizer calls fst snd] in *.
    pose proof (Hd (discriminator w0) real_centers) as D1.
    destruct (discriminator_call (discriminator w0) real_centers false)
      as [ro d1].
    cbn [generator discriminator generator_optimizer
         discriminator_optimizer calls fst snd] in *.
    subst d1.
    pose proof (Hd (discriminator w0) gc) as D2.
    destruct (discriminator_call (discriminator w0) gc false) as [fo d2].
    cbn [generator discriminator generator_optimizer
         discriminator_optimizer calls fst snd] in *.
    rewrite <- !app_assoc. cbn [app]. subst. repeat split. }
  destruct (Shape w) as (S1 & S2 & S3 & S4 & S5 & S6).
  destruct (Shape (snd (calc_losses images real_centers overlap use_gpu w)))
    as (_ & _ & _ & _ & _ & T6).
  repeat split; try assumption.
  rewrite T6, S6, S2, S3. reflexivity.
Qed.

(** The toy models keep their state in inference mode. *)
Lemma calc_losses_idempotent_witness :
  let P := Toy.provider in
  let w := mkWorld (P := P) 0 0 (Adam tt 1) (Adam tt 1) [] in
  let images := fill 1 2 2 1 0 in
  let real_centers := fill 1 2 2 1 1 in
  (forall g x, snd (generator_call g x false) = g)
  /\ (forall d x, snd (discriminator_call d x false) = d)
  /\ fst (calc_losses images real_centers 0 false
                      (snd (calc_losses images real_centers 0 false w)))
     = fst (calc_losses images real_centers 0 false w).
Proof.
  cbv zeta. split; [|split].
  - intros; reflexivity.
  - intros; reflexivity.
  - apply (calc_losses_idempotent Toy.provider).
    + intros; reflexivity.
    + intros; reflexivity.
Defined.

End StepClaims.

(* ================================================================== *)
(** ** Reading event lists *)

Section EventFacts.
Import Trainer.

Lemma step_losses_app (e : nat) (l1 l2 : list Event) :
  step_losses e (l1 ++ l2) = step_losses e l1 ++ step_losses e l2.
Proof.
  induction l1 as [|ev l1 IH]; [reflexivity|].
  destruct ev; cbn [app step_losses]; try exact IH.
  destruct (epoch =? e)%nat; cbn [app]; rewrite IH; reflexivity.
Qed.

Lemma eval_losses_app (e : nat) (l1 l2 : list Event) :
  eval_losses e (l1 ++ l2) = eval_losses e l1 ++ eval_losses e l2.
Proof.
  induction l1 as [|ev l1 IH]; [reflexivity|].
  destruct ev; cbn [app eval_losses]; try exact IH.
  destruct (epoch =? e)%nat; cbn [app]; rewrite IH; reflexivity.
Qed.

Lemma checkpoint_epochs_app (l1 l2 : list Event) :
  checkpoint_epochs (l1 ++ l2) = checkpoint_epochs l1 ++ checkpoint_epochs l2.
Proof.
  induction l1 as [|ev l1 IH]; [reflexivity|].
  destruct ev; cbn [app checkpoint_epochs]; rewrite IH; reflexivity.
Qed.

Lemma picture_epochs_app (ty : split) (l1 l2 : list Event) :
  picture_epochs ty (l1 ++ l2) = picture_epochs ty l1 ++ picture_epochs ty l2.
Proof.
  induction l1 as [|ev l1 IH]; [reflexivity|].
  destruct ev; cbn [app picture_epochs]; try exact IH.
  destruct (split_eqb type ty); cbn [app]; rewrite IH; reflexivity.
Qed.

Lemma plotted_app_none (l1 l2 : list Event) :
  plotted l1 = None -> plotted (l1 ++ l2) = plotted l2.
Proof.
  induction l1 as [|ev l1 IH]; [reflexivity|].
  destruct ev; cbn [app plotted]; try exact IH. discriminate.
Qed.

Lemma pair_id {A B : Type} (l : list (A * B)) :
  map (fun p => (fst p, snd p)) l = l.
Proof.
  induction l as [|[a b] l IH]; [reflexivity|].
  cbn [map fst snd]. rewrite IH. reflexivity.
Qed.

(** What the readers find in the events of a completed epoch. *)
Lemma step_losses_epoch_log (e epoch : nat) (steps evals : list (R * R))
    (tb vb : Batch) :
  step_losses e (epoch_log epoch steps evals tb vb)
  = if (epoch =? e)%nat then steps else [].
Proof.
  unfold epoch_log. rewrite !step_losses_app.
  assert (A : step_losses e (map (fun l => TookStep epoch (fst l) (snd l)) steps)
              = if (epoch =? e)%nat then steps else []).
  { induction steps as [|[g d] steps IH]; [destruct (epoch =? e)%nat; reflexivity|].
    cbn [map step_losses fst snd]. rewrite IH.
    destruct (epoch =? e)%nat; reflexivity. }
  assert (B : step_losses e (map (fun l => CalcedLosses epoch (fst l) (snd l)) evals)
              = []).
  { induction evals as [|x evals IH]; [reflexivity|]. exact IH. }
  rewrite A, B. destruct (cadence epoch); cbn [step_losses app];
    rewrite app_nil_r; reflexivity.
Qed.

Lemma eval_losses_epoch_log (e epoch : nat) (steps evals : list (R * R))
    (tb vb : Batch) :
  eval_losses e (epoch_log epoch steps evals tb vb)
  = if (epoch =? e)%nat then evals else [].
Proof.
  unfold epoch_log. rewrite !eval_losses_app.
  assert (A : eval_losses e (map (fun l => CalcedLosses epoch (fst l) (snd l)) evals)
              = if (epoch =? e)%nat then evals else []).
  { induction evals as [|[g d] evals IH]; [destruct (epoch =? e)%nat; reflexivity|].
    cbn [map eval_losses fst snd]. rewrite IH.
    destruct (epoch =? e)%nat; reflexivity. }
  assert (B : eval_losses e (map (fun l => TookStep epoch (fst l) (snd l)) steps)
              = []).
  { induction steps as [|x steps IH]; [reflexivity|]. exact IH. }
  rewrite A, B. destruct (cadence epoch); cbn [eval_losses app];
    rewrite app_nil_r; reflexivity.
Qed.

Lemma checkpoint_epochs_epoch_log (epoch : nat) (steps evals : list (R * R))
    (tb vb : Batch) :
  checkpoint_epochs (epoch_log epoch steps evals tb vb)
  = if cadence epoch then [epoch] else [].
Proof.
  unfold epoch_log. rewrite !checkpoint_epochs_app.
  assert (A : forall (f : R * R -> Event),
             (forall l, checkpoint_epochs [f l] = []) ->
             forall ls, checkpoint_epochs (map f ls) = []).
  { intros f Hf ls. induction ls as [|x ls IH]; [reflexivity|].
    change (map f (x :: ls)) with ([f x] ++ map f ls).
    rewrite checkpoint_epochs_app, Hf, IH. reflexivity. }
  rewrite !A by reflexivity.
  destruct (cadence epoch); reflexivity.
Qed.

Lemma picture_epochs_epoch_log (ty : split) (epoch : nat)
    (steps evals : list (R * R)) (tb vb : Batch) :
  picture_epochs ty (epoch_log epoch steps evals tb vb)
  = if cadence epoch then [epoch] else [].
Proof.
  unfold epoch_log. rewrite !picture_epochs_app.
  assert (A : forall (f : R * R -> Event),
             (forall l, picture_epochs ty [f l] = []) ->
             forall ls, picture_epochs ty (map f ls) = []).
  { intros f Hf ls. induction ls as [|x ls IH]; [reflexivity|].
    change (map f (x :: ls)) with ([f x] ++ map f ls).
    rewrite picture_epochs_app, Hf, IH. reflexivity. }
  rewrite !A by reflexivity.
  destruct (cadence epoch), ty; reflexivity.
Qed.

(** Events of epochs up to [hi] say nothing about later epochs, and
    contain no plot. *)
Lemma in_epochs_weaken (lo hi lo' hi' : nat) (ev : Event) :
  (lo' <= lo)%nat -> (hi <= hi')%nat ->
  in_epochs lo hi ev -> in_epochs lo' hi' ev.
Proof. destruct ev; cbn [in_epochs]; intros; try lia. Qed.

Lemma step_losses_outside (lo hi e : nat) (log : list Event) :
  Forall (in_epochs lo hi) log -> (e < lo \/ hi < e)%nat ->
  step_losses e log = [].
Proof.
  intros H He. induction H as [|ev log Hev _ IH]; [reflexivity|].
  destruct ev; cbn [step_losses]; try exact IH.
  cbn [in_epochs] in Hev.
  destruct (Nat.eqb_spec epoch e); [lia | exact IH].
Qed.

Lemma eval_losses_outside (lo hi e : nat) (log : list Event) :
  Forall (in_epochs lo hi) log -> (e < lo \/ hi < e)%nat ->
  eval_losses e log = [].
Proof.
  intros H He. induction H as [|ev log Hev _ IH]; [reflexivity|].
  destruct ev; cbn [eval_losses]; try exact IH.
  cbn [in_epochs] in Hev.
  destruct (Nat.eqb_spec epoch e); [lia | exact IH].
Qed.

Lemma plotted_in_epochs (lo hi : nat) (log : list Event) :
  Forall (in_epochs lo hi) log -> plotted log = None.
Proof.
  intros H. induction H as [|ev log Hev _ IH]; [reflexivity|].
  destruct ev; cbn [plotted]; try exact IH. destruct Hev.
Qed.

(** The running sums. *)
Lemma fold_py_add_scalar (xs : list R) (r : R) :
  fold_left py_add xs (TfScalar r) = TfScalar (r + Rsum xs).
Proof.
  revert r. induction xs as [|x xs IH]; intros r; cbn [fold_left Rsum py_add].
  - f_equal. lra.
  - rewrite IH. f_equal. lra.
Qed.

Lemma fold_py_add_from_zero (xs : list R) :
  xs <> [] -> fold_left py_add xs (PyInt 0) = TfScalar (Rsum xs).
Proof.
  destruct xs as [|x xs]; [contradiction|]. intros _.
  cbn [fold_left py_add Rsum]. rewrite fold_py_add_scalar. f_equal. lra.
Qed.

Lemma truediv_mean (xs : list R) :
  xs <> [] ->
  py_truediv (fold_left py_add xs (PyInt 0)) (length xs) = Ok (mean_loss xs).
Proof.
  intros H. rewrite fold_py_add_from_zero by assumption.
  destruct xs as [|x xs]; [contradiction|]. reflexivity.
Qed.

Lemma truediv_mean_of {A : Type} (f : A -> R) (l : list A) :
  l <> [] ->
  py_truediv (fold_left py_add (map f l) (PyInt 0)) (length l)
  = Ok (mean_loss (map f l)).
Proof.
  intros H. rewrite <- (length_map f l). apply truediv_mean.
  destruct l; [contradiction | discriminate].
Qed.

Lemma cadence_spec (e : nat) :
  cadence e = true <-> ((e + 1) mod 5 = 0 \/ e = 0)%nat.
Proof.
  unfold cadence. rewrite orb_true_iff, !Nat.eqb_eq. reflexivity.
Qed.

End EventFacts.

(* ================================================================== *)
(** ** The epoch loop, step by step *)

Section TrainerFacts.
Import Trainer.
Context {P : ModelProvider}.
Variable take_step : tensor -> tensor -> Z -> bool -> Step.Exec (R * R).
Variable calc_losses : tensor -> tensor -> Z -> bool -> Step.Exec (R * R).
Variable write_fails : Event -> bool.
Variable train_dataset val_dataset : list Batch.
Variable overlap : Z.
Variable use_gpu : bool.

Lemma bind_ok {A B : Type} (m : Py A) (k : A -> Py B) (s s' : TState) (a : A) :
  m s = (Ok a, s') -> bind m k s = k a s'.
Proof. intros H. unfold bind. rewrite H. reflexivity. Qed.

Lemma bind_raise {A B : Type} (m : Py A) (k : A -> Py B) (s s' : TState)
    (e : exn) :
  m s = (Raise e, s') -> bind m k s = (Raise e, s').
Proof. intros H. unfold bind. rewrite H. reflexivity. Qed.

(** *** Relations every step of a computation respects *)

Section Respect.
Variable I : TState -> TState -> Prop.
Hypothesis I_refl : forall s, I s s.
Hypothesis I_trans : forall s1 s2 s3, I s1 s2 -> I s2 s3 -> I s1 s3.

Lemma respects_ret {A : Type} (a : A) : respects I (ret a).
Proof. intros s. apply I_refl. Qed.

Lemma respects_raise {A : Type} (e : exn) : respects I (@raise P A e).
Proof. intros s. apply I_refl. Qed.

Lemma respects_of_result {A : Type} (r : result A) : respects I (of_result r).
Proof. intros s. apply I_refl. Qed.

Lemma respects_read_batch (b : option Batch) : respects I (read_batch b).
Proof. destruct b; intros s; apply I_refl. Qed.

Lemma respects_bind {A B : Type} (m : Py A) (k : A -> Py B) :
  respects I m -> (forall a, respects I (k a)) -> respects I (bind m k).
Proof.
  intros Hm Hk s. unfold bind. specialize (Hm s).
  destruct (m s) as [[a | e] s1]; cbn [snd] in *.
  - apply I_trans with s1; [exact Hm | apply Hk].
  - exact Hm.
Qed.

Lemma respects_write (ev : Event) :
  respects I (emit ev) -> respects I (write write_fails ev).
Proof.
  intros H s. unfold write. destruct (write_fails ev).
  - apply I_refl.
  - exact (H s).
Qed.

Lemma respects_for_batches
    (executor : tensor -> tensor -> Z -> bool -> Step.Exec (R * R))
    (seen : R -> R -> Event) :
  (forall x y, respects I (lift (executor x y overlap use_gpu))) ->
  (forall g d, respects I (emit (seen g d))) ->
  forall ds acc, respects I (for_batches overlap use_gpu executor seen ds acc).
Proof.
  intros Hx He ds. induction ds as [|[ib cb] ds IH]; intros acc.
  - apply respects_ret.
  - cbn [for_batches]. apply respects_bind; [apply Hx|]. intros l.
    apply respects_bind; [apply He|]. intros _. apply IH.
Qed.

Lemma respects_save_pictures (ib cb : tensor) (epoch : nat) (ty : split) :
  respects I (lift (Step.call_generator ib false)) ->
  respects I (emit (SavedPictures ty epoch ib cb)) ->
  respects I (save_pictures write_fails ib cb epoch ty).
Proof.
  intros H1 H2. unfold save_pictures.
  apply respects_bind; [exact H1|]. intros _.
  apply respects_write. exact H2.
Qed.

Lemma respects_run_epoch (epoch : nat) :
  (forall x y, respects I (lift (take_step x y overlap use_gpu))) ->
  (forall x y, respects I (lift (calc_losses x y overlap use_gpu))) ->
  (forall x, respects I (lift (Step.call_generator x false))) ->
  (forall ev, in_epochs epoch epoch ev -> respects I (emit ev)) ->
  forall loc,
    respects I (run_epoch take_step calc_losses write_fails train_dataset
                          val_dataset overlap use_gpu epoch loc).
Proof.
  intros Hs Hc Hg Hev loc.
  unfold run_epoch.
  apply respects_bind.
  { apply respects_for_batches; [exact Hs|].
    intros; apply Hev; cbn; lia. }
  intros tr. apply respects_bind.
  { destruct (cadence epoch); [|apply respects_ret].
    apply respects_bind; [apply respects_read_batch|]. intros b.
    apply respects_save_pictures; [apply Hg | apply Hev; cbn; lia]. }
  intros _. apply respects_bind.
  { apply respects_for_batches; [exact Hc|].
    intros; apply Hev; cbn; lia. }
  intros va. apply respects_bind.
  { destruct (cadence epoch); [|apply respects_ret].
    apply respects_bind; [apply respects_write, Hev; cbn; lia|]. intros _.
    apply respects_bind; [apply respects_read_batch|]. intros b.
    apply respects_save_pictures; [apply Hg | apply Hev; cbn; lia]. }
  intros _.
  repeat (apply respects_bind; [apply respects_of_result|]; intros ?).
  apply respects_bind; [apply Hev; cbn; lia|]. intros _.
  apply respects_ret.
Qed.

End Respect.

(** *** The events of a run carry the epochs that produced them *)

Lemma logs_within_refl (lo hi : nat) (s : TState) : logs_within lo hi s s.
Proof. exists []. rewrite app_nil_r. split; [reflexivity | constructor]. Qed.

Lemma logs_within_trans (lo hi : nat) (s1 s2 s3 : TState) :
  logs_within lo hi s1 s2 -> logs_within lo hi s2 s3 -> logs_within lo hi s1 s3.
Proof.
  intros (n1 & E1 & F1) (n2 & E2 & F2). exists (n1 ++ n2). split.
  - rewrite E2, E1, app_assoc. reflexivity.
  - apply Forall_app. split; assumption.
Qed.

Lemma logs_within_lift (lo hi : nat) {A : Type} (m : Step.Exec A) :
  respects (logs_within lo hi) (lift m).
Proof.
  intros s. unfold lift. destruct (m (world s)) as [a w]. cbn [snd].
  exists []. cbn [events]. rewrite app_nil_r.
  split; [reflexivity | constructor].
Qed.

Lemma logs_within_emit (lo hi : nat) (ev : Event) :
  in_epochs lo hi ev -> respects (logs_within lo hi) (emit ev).
Proof.
  intros H s. exists [ev]. split; [reflexivity|].
  constructor; [exact H | constructor].
Qed.

Lemma run_epoch_logs (epoch : nat) (loc : Locals) :
  respects (logs_within epoch epoch)
           (run_epoch take_step calc_losses write_fails train_dataset
                      val_dataset overlap use_gpu epoch loc).
Proof.
  apply respects_run_epoch.
  - apply logs_within_refl.
  - apply logs_within_trans.
  - intros; apply logs_within_lift.
  - intros; apply logs_within_lift.
  - intros; apply logs_within_lift.
  - intros; apply logs_within_emit; assumption.
Qed.

Lemma logs_within_weaken (lo hi lo' hi' : nat) (s s' : TState) :
  (lo' <= lo)%nat -> (hi <= hi')%nat ->
  logs_within lo hi s s' -> logs_within lo' hi' s s'.
Proof.
  intros H1 H2 (new & E & F). exists new. split; [exact E|].
  eapply Forall_impl; [|exact F].
  intros ev. apply in_epochs_weaken; assumption.
Qed.

Lemma for_epochs_logs (n : nat) : forall (a : nat) (loc : Locals),
  respects (logs_within a (a + n))
           (for_epochs take_step calc_losses write_fails train_dataset
                       val_dataset overlap use_gpu (seq a n) loc).
Proof.
  induction n as [|n IH]; intros a loc.
  - intros s. apply logs_within_refl.
  - cbn [seq for_epochs]. apply respects_bind.
    + apply logs_within_trans.
    + intros s. apply logs_within_weaken with a a; [lia | lia |].
      apply run_epoch_logs.
    + intros loc' s. apply logs_within_weaken with (S a) (S a + n)%nat;
        [lia | lia |]. apply IH.
Qed.

(** *** The batch loops *)

Lemma for_batches_spec
    (executor : tensor -> tensor -> Z -> bool -> Step.Exec (R * R))
    (seen : R -> R -> Event) (ds : list Batch) :
  forall (acc : Acc) (s : TState),
  exists (losses : list (R * R)) (acc' : Acc) (s' : TState),
    for_batches overlap use_gpu executor seen ds acc s = (Ok acc', s')
    /\ length losses = length ds
    /\ events s' = events s ++ map (fun l => seen (fst l) (snd l)) losses
    /\ gen_loss_sum acc' = fold_left py_add (map fst losses) (gen_loss_sum acc)
    /\ disc_loss_sum acc'
       = fold_left py_add (map snd losses) (disc_loss_sum acc)
    /\ count acc' = (count acc + length losses)%nat
    /\ (ds = [] -> batch_vars acc' = batch_vars acc)
    /\ (ds <> [] -> exists b, batch_vars acc' = Some b).
Proof.
  induction ds as [|[ib cb] ds IH]; intros acc s.
  - exists [], acc, s. cbn [for_batches ret map fold_left length].
    rewrite app_nil_r, Nat.add_0_r.
    repeat split; try reflexivity. intros H; contradiction.
  - cbn [for_batches]. unfold bind at 1. unfold lift at 1.
    destruct (executor (if use_gpu then transpose_0312 ib else ib)
                       (if use_gpu then transpose_0312 cb else cb)
                       overlap use_gpu (world s)) as [l w'].
    unfold bind at 1. unfold emit at 1.
    match goal with
    | |- context [for_batches _ _ _ _ ds ?a ?t] =>
        destruct (IH a t) as (ls & acc' & s' & E & L & Ev & G & D & C & B0 & B1)
    end.
    exists (l :: ls), acc', s'.
    cbn [gen_loss_sum disc_loss_sum count batch_vars events] in *.
    rewrite E. cbn [map fold_left length].
    repeat split; try assumption.
    + f_equal. exact L.
    + rewrite Ev, <- app_assoc. reflexivity.
    + lia.
    + discriminate.
    + intros _. destruct ds as [|x ds'].
      * rewrite B0 by reflexivity. eexists; reflexivity.
      * apply B1. discriminate.
Qed.

(** *** Writes *)

Lemma save_pictures_result (ib cb : tensor) (epoch : nat) (ty : split)
    (s : TState) :
  exists w',
    save_pictures write_fails ib cb epoch ty s
    = if write_fails (SavedPictures ty epoch ib cb)
      then (Raise OSError, mkTState w' (events s))
      else (Ok tt, mkTState w' (events s ++ [SavedPictures ty epoch ib cb])).
Proof.
  unfold save_pictures, bind, lift.
  destruct (Step.call_generator ib false (world s)) as [y w'].
  exists w'. unfold write. cbn [world events].
  destruct (write_fails (SavedPictures ty epoch ib cb)); reflexivity.
Qed.

(** *** An epoch on non-empty datasets and a disk that accepts every write *)

Lemma run_epoch_ok (epoch : nat) (loc : Locals) (s : TState) :
  train_dataset <> [] -> val_dataset <> [] ->
  (forall ev, write_fails ev = false) ->
  exists (steps evals : list (R * R)) (tb vb : Batch) (s' : TState),
    run_epoch take_step calc_losses write_fails train_dataset val_dataset
              overlap use_gpu epoch loc s
    = (Ok (mkLocals
             (append_metrics (histories loc)
                (mean_loss (map fst steps)) (mean_loss (map snd steps))
                (mean_loss (map fst evals)) (mean_loss (map snd evals)))
             (Some vb)), s')
    /\ length steps = length train_dataset
    /\ length evals = length val_dataset
    /\ events s' = events s ++ epoch_log epoch steps evals tb vb.
Proof.
  intros Ht Hv Hw. unfold run_epoch.
  destruct (for_batches_spec take_step (TookStep epoch) train_dataset
              (mkAcc (PyInt 0) (PyInt 0) 0 (last_batch loc)) s)
    as (steps & tr & s1 & E1 & L1 & Ev1 & G1 & D1 & C1 & _ & B1).
  destruct (B1 Ht) as [tb Htb].
  rewrite (bind_ok _ _ _ _ _ E1).
  (* pictures of the training batch *)
  assert (Dump1 : exists s2,
    (if cadence epoch
     then bind (read_batch (batch_vars tr))
               (fun b => save_pictures write_fails (fst b) (snd b) epoch
                                       TrainSplit)
     else ret tt) s1 = (Ok tt, s2)
    /\ events s2
       = events s1 ++ (if cadence epoch
                       then [SavedPictures TrainSplit epoch (fst tb) (snd tb)]
                       else [])).
  { destruct (cadence epoch).
    - rewrite Htb. cbn [read_batch]. unfold bind at 1, ret at 1.
      destruct (save_pictures_result (fst tb) (snd tb) epoch TrainSplit s1)
        as [w' Hs]. rewrite Hw in Hs. rewrite Hs.
      eexists; split; reflexivity.
    - exists s1. rewrite app_nil_r. split; reflexivity. }
  destruct Dump1 as (s2 & E2 & Ev2).
  rewrite (bind_ok _ _ _ _ _ E2).
  destruct (for_batches_spec calc_losses (CalcedLosses epoch) val_dataset
              (mkAcc (PyInt 0) (PyInt 0) 0 (batch_vars tr)) s2)
    as (evals & va & s3 & E3 & L3 & Ev3 & G3 & D3 & C3 & _ & B3).
  destruct (B3 Hv) as [vb Hvb].
  rewrite (bind_ok _ _ _ _ _ E3).
  (* checkpoint and pictures of the validation batch *)
  assert (Dump2 : exists s4,
    (if cadence epoch
     then bind (write write_fails (SavedCheckpoint epoch))
            (fun _ =>
               bind (read_batch (batch_vars va))
                    (fun b => save_pictures write_fails (fst b) (snd b) epoch
                                            ValSplit))
     else ret tt) s3 = (Ok tt, s4)
    /\ events s4
       = events s3 ++ (if cadence epoch
                       then [SavedCheckpoint epoch;
                             SavedPictures ValSplit epoch (fst vb) (snd vb)]
                       else [])).
  { destruct (cadence epoch).
    - unfold bind at 1, write at 1. rewrite Hw.
      rewrite Hvb. cbn [read_batch]. unfold bind at 1, ret at 1.
      match goal with
      | |- context [save_pictures _ _ _ _ _ ?t] =>
          destruct (save_pictures_result (fst vb) (snd vb) epoch ValSplit t)
            as [w' Hs]
      end.
      rewrite Hw in Hs. rewrite Hs. cbn [events].
      eexists; split; [reflexivity|]. cbn [events].
      rewrite <- app_assoc. reflexivity.
    - exists s3. rewrite app_nil_r. split; reflexivity. }
  destruct Dump2 as (s4 & E4 & Ev4).
  rewrite (bind_ok _ _ _ _ _ E4).
  (* the four means *)
  assert (Ns : steps <> []).
  { destruct steps; [|discriminate].
    destruct train_dataset; [contradiction | discriminate]. }
  assert (Ne : evals <> []).
  { destruct evals; [|discriminate].
    destruct val_dataset; [contradiction | discriminate]. }
  cbn [gen_loss_sum disc_loss_sum count] in G1, D1, C1, G3, D3, C3.
  rewrite G1, D1, C1, G3, D3, C3. cbn [Nat.add].
  rewrite !truediv_mean_of by assumption.
  unfold bind at 1, of_result at 1.
  unfold bind at 1, of_result at 1.
  unfold bind at 1, of_result at 1.
  unfold bind at 1, of_result at 1.
  unfold bind, emit, ret.
  exists steps, evals, tb, vb. eexists. rewrite Hvb.
  split; [reflexivity|]. split; [exact L1|]. split; [exact L3|].
  cbn [events]. rewrite Ev4, Ev3, Ev2, Ev1. unfold epoch_log.
  rewrite <- !app_assoc. reflexivity.
Qed.

(** *** A whole run on non-empty datasets and a disk that accepts every
    write *)

Lemma epoch_log_in_epochs (e : nat) (steps evals : list (R * R))
    (tb vb : Batch) :
  Forall (in_epochs e e) (epoch_log e steps evals tb vb).
Proof.
  unfold epoch_log. repeat (apply Forall_app; split).
  - apply Forall_forall. intros ev Hin. apply in_map_iff in Hin.
    destruct Hin as (l & <- & _). cbn. lia.
  - destruct (cadence e); repeat constructor; cbn; lia.
  - apply Forall_forall. intros ev Hin. apply in_map_iff in Hin.
    destruct Hin as (l & <- & _). cbn. lia.
  - destruct (cadence e); repeat constructor; cbn; lia.
  - repeat constructor; cbn; lia.
Qed.

Lemma readers_after_epoch (a hi : nat) (steps evals : list (R * R))
    (tb vb : Batch) (rest : list Event) :
  Forall (in_epochs (S a) hi) rest ->
  step_losses a (epoch_log a steps evals tb vb ++ rest) = steps
  /\ eval_losses a (epoch_log a steps evals tb vb ++ rest) = evals
  /\ forall e, (S a <= e)%nat ->
       step_losses e (epoch_log a steps evals tb vb ++ rest)
       = step_losses e rest
       /\ eval_losses e (epoch_log a steps evals tb vb ++ rest)
          = eval_losses e rest.
Proof.
  intros F. rewrite step_losses_app, eval_losses_app.
  rewrite step_losses_epoch_log, eval_losses_epoch_log, Nat.eqb_refl.
  rewrite (step_losses_outside (S a) hi a rest F) by lia.
  rewrite (eval_losses_outside (S a) hi a rest F) by lia.
  rewrite !app_nil_r. repeat split.
  - rewrite step_losses_app, step_losses_epoch_log.
    destruct (Nat.eqb_spec a e); [lia | reflexivity].
  - rewrite eval_losses_app, eval_losses_epoch_log.
    destruct (Nat.eqb_spec a e); [lia | reflexivity].
Qed.

Lemma histories_of_ext (l1 l2 : list Event) (a n : nat) :
  (forall e, (a <= e)%nat ->
     step_losses e l1 = step_losses e l2 /\ eval_losses e l1 = eval_losses e l2) ->
  histories_of l1 a n = histories_of l2 a n.
Proof.
  intros H. unfold histories_of.
  f_equal; apply map_ext_in; intros e He; apply in_seq in He;
    destruct (H e) as [E1 E2]; try lia; rewrite ?E1, ?E2; reflexivity.
Qed.

Lemma for_epochs_ok (n : nat) : forall (a : nat) (loc : Locals) (s : TState),
  train_dataset <> [] -> val_dataset <> [] ->
  (forall ev, write_fails ev = false) ->
  exists (new : list Event) (loc' : Locals) (s' : TState),
    for_epochs take_step calc_losses write_fails train_dataset val_dataset
               overlap use_gpu (seq a n) loc s = (Ok loc', s')
    /\ events s' = events s ++ new
    /\ Forall (in_epochs a (a + n)) new
    /\ histories loc' = join_histories (histories loc) (histories_of new a n)
    /\ (forall e, (a <= e < a + n)%nat ->
          length (step_losses e new) = length train_dataset
          /\ length (eval_losses e new) = length val_dataset
          /\ In (printed_means new e) new)
    /\ checkpoint_epochs new = filter cadence (seq a n)
    /\ (forall ty, picture_epochs ty new = filter cadence (seq a n)).
Proof.
  induction n as [|n IH]; intros a loc s Ht Hv Hw.
  - exists [], loc, s. cbn [seq for_epochs ret]. rewrite app_nil_r.
    repeat split; try constructor; try lia.
    destruct loc as [[h1 h2 h3 h4] b].
    unfold join_histories, histories_of. cbn. rewrite !app_nil_r. reflexivity.
  - destruct (run_epoch_ok a loc s Ht Hv Hw)
      as (steps & evals & tb & vb & s1 & E1 & L1 & L3 & Ev1).
    match type of E1 with
    | _ = (Ok ?l, _) =>
        destruct (IH (S a) l s1 Ht Hv Hw)
          as (rest & loc' & s' & E2 & Ev2 & F2 & H2 & Len2 & Ck2 & Pic2)
    end.
    destruct (readers_after_epoch a (S a + n) steps evals tb vb rest F2)
      as (Rs & Re & Rlater).
    exists (epoch_log a steps evals tb vb ++ rest), loc', s'.
    cbn [seq for_epochs]. rewrite (bind_ok _ _ _ _ _ E1).
    split; [exact E2|]. split; [rewrite Ev2, Ev1, app_assoc; reflexivity|].
    split.
    { apply Forall_app. split.
      - eapply Forall_impl; [|apply epoch_log_in_epochs].
        intros ev. apply in_epochs_weaken; lia.
      - eapply Forall_impl; [|exact F2].
        intros ev. apply in_epochs_weaken; lia. }
    split.
    { rewrite H2. cbn [histories].
      rewrite (histories_of_ext rest (epoch_log a steps evals tb vb ++ rest)
                 (S a) n)
        by (intros e He; destruct (Rlater e He) as [X Y]; rewrite X, Y;
            split; reflexivity).
      unfold join_histories, histories_of, append_metrics.
      cbn [seq map list_train_gen_loss list_train_disc_loss
           list_val_gen_loss list_val_disc_loss].
      rewrite Rs, Re, <- !app_assoc. reflexivity. }
    split.
    { intros e He. destruct (Nat.eq_dec e a) as [-> | Hne].
      - unfold printed_means. rewrite Rs, Re.
        split; [exact L1|]. split; [exact L3|].
        apply in_or_app. left. unfold epoch_log.
        rewrite !app_assoc. apply in_or_app. right. left. reflexivity.
      - destruct (Rlater e ltac:(lia)) as [X Y].
        destruct (Len2 e ltac:(lia)) as (A1 & A2 & A3).
        unfold printed_means in *. rewrite X, Y.
        split; [exact A1|]. split; [exact A2|].
        apply in_or_app. right. exact A3. }
    split.
    { rewrite checkpoint_epochs_app, checkpoint_epochs_epoch_log, Ck2.
      cbn [filter]. destruct (cadence a); reflexivity. }
    intros ty.
    rewrite picture_epochs_app, picture_epochs_epoch_log, Pic2.
    cbn [filter]. destruct (cadence a); reflexivity.
Qed.

Lemma train_with_ok (epochs : nat) (lr : R) :
  train_dataset <> [] -> val_dataset <> [] ->
  (forall ev, write_fails ev = false) ->
  exists (new : list Event) (s : TState),
    train_with take_step calc_losses write_fails train_dataset val_dataset
               overlap use_gpu epochs lr = (Ok tt, s)
    /\ events s = new ++ [PlottedLoss (histories_of new 0 epochs)]
    /\ Forall (in_epochs 0 epochs) new
    /\ (forall e, (e < epochs)%nat ->
          length (step_losses e new) = length train_dataset
          /\ length (eval_losses e new) = length val_dataset
          /\ In (printed_means new e) new)
    /\ checkpoint_epochs new = filter cadence (seq 0 epochs)
    /\ (forall ty, picture_epochs ty new = filter cadence (seq 0 epochs)).
Proof.
  intros Ht Hv Hw. unfold train_with.
  destruct (for_epochs_ok epochs 0 (mkLocals (mkHistories [] [] [] []) None)
              (initial_state use_gpu lr) Ht Hv Hw)
    as (new & loc' & s' & E & Ev & F & H & Len & Ck & Pic).
  rewrite (bind_ok _ _ _ _ _ E). unfold write. rewrite Hw.
  exists new. eexists. split; [reflexivity|]. cbn [events].
  rewrite Ev, H. cbn [initial_state events app].
  repeat split; try assumption; try (apply Len; lia).
Qed.

(** ** Claims about the epoch loop *)

(** C6.  On non-empty datasets and a disk that accepts every write, the
    run ends normally and hands [plot_loss] four histories with one entry
    per epoch, in epoch order: the sum of the generator (discriminator)
    losses returned by [take_step] during that epoch divided by the number
    of training batches, and the same for [calc_losses] and the validation
    batches; the same four scalars are printed at the end of the epoch. *)
Theorem train_reports_batch_means :
  forall (epochs : nat) (lr : R),
    train_dataset <> [] -> val_dataset <> [] ->
    (forall ev, write_fails ev = false) ->
    let run := train_with take_step calc_losses write_fails train_dataset
                          val_dataset overlap use_gpu epochs lr in
    let log := events (snd run) in
    fst run = Ok tt
    /\ plotted log = Some (histories_of log 0 epochs)
    /\ forall e, (e < epochs)%nat ->
         length (step_losses e log) = length train_dataset
         /\ length (eval_losses e log) = length val_dataset
         /\ In (printed_means log e) log.
Proof.
  intros epochs lr Ht Hv Hw. cbv zeta.
  destruct (train_with_ok epochs lr Ht Hv Hw)
    as (new & s & E & Ev & F & Len & _ & _).
  rewrite E. cbn [fst snd]. rewrite Ev.
  assert (Same : forall e,
             step_losses e (new ++ [PlottedLoss (histories_of new 0 epochs)])
             = step_losses e new
             /\ eval_losses e (new ++ [PlottedLoss (histories_of new 0 epochs)])
                = eval_losses e new).
  { intros e. rewrite step_losses_app, eval_losses_app.
    cbn [step_losses eval_losses]. rewrite !app_nil_r. split; reflexivity. }
  split; [reflexivity|]. split.
  - rewrite plotted_app_none by (eapply plotted_in_epochs; exact F).
    cbn [plotted]. f_equal. symmetry. apply histories_of_ext.
    intros e _. apply Same.
  - intros e He. destruct (Len e He) as (A1 & A2 & A3).
    destruct (Same e) as [X Y]. unfold printed_means. rewrite X, Y.
    split; [exact A1|]. split; [exact A2|].
    apply in_or_app. left. exact A3.
Qed.

(** C5.  On non-empty datasets and a disk that accepts every write, a run
    of [epochs] epochs writes a checkpoint, pictures of a training batch
    and pictures of a validation batch exactly once at each epoch index
    [e < epochs] with [e = 0] or [(e + 1)] divisible by 5, in increasing
    order, and at no other epoch. *)
Theorem dumps_follow_cadence :
  forall (epochs : nat) (lr : R),
    train_dataset <> [] -> val_dataset <> [] ->
    (forall ev, write_fails ev = false) ->
    let run := train_with take_step calc_losses write_fails train_dataset
                          val_dataset overlap use_gpu epochs lr in
    let log := events (snd run) in
    fst run = Ok tt
    /\ checkpoint_epochs log = filter cadence (seq 0 epochs)
    /\ picture_epochs TrainSplit log = filter cadence (seq 0 epochs)
    /\ picture_epochs ValSplit log = filter cadence (seq 0 epochs)
    /\ forall e, In e (filter cadence (seq 0 epochs))
                 <-> (e < epochs /\ (e = 0 \/ (e + 1) mod 5 = 0))%nat.
Proof.
  intros epochs lr Ht Hv Hw. cbv zeta.
  destruct (train_with_ok epochs lr Ht Hv Hw)
    as (new & s & E & Ev & _ & _ & Ck & Pic).
  rewrite E. cbn [fst snd]. rewrite Ev.
  rewrite checkpoint_epochs_app, !picture_epochs_app, Ck, !Pic.
  cbn [checkpoint_epochs picture_epochs]. rewrite !app_nil_r.
  repeat split; try reflexivity.
  - apply filter_In in H. destruct H as [H _]. apply in_seq in H. lia.
  - apply filter_In in H. destruct H as [_ H].
    apply cadence_spec in H. lia.
  - intros [H1 H2]. apply filter_In. split.
    + apply in_seq. lia.
    + apply cadence_spec. lia.
Qed.

(** *** Every way an epoch on a non-empty training set can end *)

Lemma bind_fails {A B : Type} (m : Py A) (k : A -> Py B) (s : TState) :
  (forall a s', m s = (Ok a, s') -> exists e s'', k a s' = (Raise e, s'')) ->
  exists e s'', bind m k s = (Raise e, s'').
Proof.
  intros H. unfold bind. destruct (m s) as [[a | e] s'].
  - apply H. reflexivity.
  - exists e, s'. reflexivity.
Qed.

Lemma run_epoch_outcome (epoch : nat) (loc : Locals) (s : TState) :
  train_dataset <> [] ->
  let run := run_epoch take_step calc_losses write_fails train_dataset
                       val_dataset overlap use_gpu epoch loc s in
  (exists ev, fst run = Raise OSError /\ write_fails ev = true)
  \/ (val_dataset = [] /\ fst run = Raise ZeroDivisionError)
  \/ (val_dataset <> [] /\ (exists loc', fst run = Ok loc')
      /\ (cadence epoch = true -> ~ dump_fails write_fails epoch)).
Proof.
  intros Ht. cbv zeta. unfold run_epoch.
  destruct (for_batches_spec take_step (TookStep epoch) train_dataset
              (mkAcc (PyInt 0) (PyInt 0) 0 (last_batch loc)) s)
    as (steps & tr & s1 & E1 & L1 & _ & G1 & D1 & C1 & _ & B1).
  destruct (B1 Ht) as [tb Htb].
  rewrite (bind_ok _ _ _ _ _ E1).
  (* pictures of the training batch *)
  match goal with
  | |- context [bind ?m ?k s1] =>
      assert (Dump1 :
        (exists s2, m s1 = (Ok tt, s2)
           /\ (cadence epoch = true ->
               write_fails (SavedPictures TrainSplit epoch (fst tb) (snd tb))
               = false))
        \/ (exists s2 ev, m s1 = (Raise OSError, s2) /\ write_fails ev = true))
  end.
  { destruct (cadence epoch).
    - rewrite Htb. cbn [read_batch]. unfold bind, ret.
      destruct (save_pictures_result (fst tb) (snd tb) epoch TrainSplit s1)
        as [w' Hs]. rewrite Hs.
      destruct (write_fails (SavedPictures TrainSplit epoch (fst tb) (snd tb)))
        eqn:W.
      + right. eexists. eexists. split; [reflexivity | exact W].
      + left. eexists. split; [reflexivity | reflexivity].
    - left. exists s1. split; [reflexivity | discriminate]. }
  destruct Dump1 as [(s2 & E2 & W1) | (s2 & ev & E2 & W1)];
    [|left; exists ev; rewrite (bind_raise _ _ _ _ _ E2); split;
      [reflexivity | exact W1]].
  rewrite (bind_ok _ _ _ _ _ E2).
  destruct (for_batches_spec calc_losses (CalcedLosses epoch) val_dataset
              (mkAcc (PyInt 0) (PyInt 0) 0 (batch_vars tr)) s2)
    as (evals & va & s3 & E3 & L3 & _ & G3 & D3 & C3 & B3 & B3').
  assert (Hvb : exists vb, batch_vars va = Some vb).
  { destruct val_dataset as [|x ds].
    - rewrite B3 by reflexivity. cbn [batch_vars]. exists tb. exact Htb.
    - apply B3'. discriminate. }
  destruct Hvb as [vb Hvb].
  rewrite (bind_ok _ _ _ _ _ E3).
  (* checkpoint and pictures of the validation batch *)
  match goal with
  | |- context [bind ?m ?k s3] =>
      assert (Dump2 :
        (exists s4, m s3 = (Ok tt, s4)
           /\ (cadence epoch = true ->
               write_fails (SavedCheckpoint epoch) = false
               /\ write_fails (SavedPictures ValSplit epoch (fst vb) (snd vb))
                  = false))
        \/ (exists s4 ev, m s3 = (Raise OSError, s4) /\ write_fails ev = true))
  end.
  { destruct (cadence epoch).
    - unfold bind, write.
      destruct (write_fails (SavedCheckpoint epoch)) eqn:W.
      + right. eexists. eexists. split; [reflexivity | exact W].
      + rewrite Hvb. cbn [read_batch]. unfold ret.
        match goal with
        | |- context [save_pictures _ _ _ _ _ ?t] =>
            destruct (save_pictures_result (fst vb) (snd vb) epoch ValSplit t)
              as [w' Hs]
        end.
        rewrite Hs.
        destruct (write_fails (SavedPictures ValSplit epoch (fst vb) (snd vb)))
          eqn:W'.
        * right. eexists. eexists. split; [reflexivity | exact W'].
        * left. eexists. split; [reflexivity|]. intros _. split; reflexivity.
    - left. exists s3. split; [reflexivity | discriminate]. }
  destruct Dump2 as [(s4 & E4 & W2) | (s4 & ev & E4 & W2)];
    [|left; exists ev; rewrite (bind_raise _ _ _ _ _ E4); split;
      [reflexivity | exact W2]].
  rewrite (bind_ok _ _ _ _ _ E4).
  (* the training means exist *)
  assert (Ns : steps <> []).
  { destruct steps; [|discriminate].
    destruct train_dataset; [contradiction | discriminate]. }
  cbn [gen_loss_sum disc_loss_sum count] in G1, D1, C1, G3, D3, C3.
  rewrite G1, D1, C1, G3, D3, C3. cbn [Nat.add].
  rewrite !(truediv_mean_of _ steps) by assumption.
  unfold bind at 1, of_result at 1.
  unfold bind at 1, of_result at 1.
  right. destruct val_dataset as [|x ds] eqn:Ev.
  - (* nothing was validated: the third division is 0 / 0 *)
    left. split; [reflexivity|].
    destruct evals; [|discriminate]. reflexivity.
  - right. split; [discriminate|].
    assert (Ne : evals <> []) by (destruct evals; discriminate).
    rewrite !(truediv_mean_of _ evals) by assumption.
    unfold bind, of_result, emit, ret. cbn [fst].
    split; [eexists; reflexivity|].
    intros Hc [Hck | [ty Hpic]].
    + destruct (W2 Hc) as [W _]. congruence.
    + destruct ty.
      * specialize (Hpic (fst tb) (snd tb)). rewrite (W1 Hc) in Hpic.
        discriminate.
      * specialize (Hpic (fst vb) (snd vb)). destruct (W2 Hc) as [_ W].
        congruence.
Qed.

(** With no validation batch an epoch never ends normally. *)
Lemma run_epoch_empty_validation (epoch : nat) (loc : Locals) (s : TState) :
  val_dataset = [] ->
  exists e s',
    run_epoch take_step calc_losses write_fails train_dataset val_dataset
              overlap use_gpu epoch loc s = (Raise e, s').
Proof.
  intros Hv. unfold run_epoch.
  apply bind_fails. intros tr s1 _.
  apply bind_fails. intros _ s2 _.
  rewrite Hv. cbn [for_batches]. unfold bind at 1, ret at 1.
  apply bind_fails. intros _ s3 _.
  cbn [gen_loss_sum disc_loss_sum count].
  apply bind_fails. intros tg s4 _.
  apply bind_fails. intros td s5 _.
  exists ZeroDivisionError, s5. reflexivity.
Qed.

(** *** A refused write ends the run *)

Lemma for_epochs_abort (n : nat) :
  forall (a e0 : nat) (loc : Locals) (s : TState),
    train_dataset <> [] -> val_dataset <> [] ->
    (a <= e0 < a + n)%nat -> cadence e0 = true ->
    dump_fails write_fails e0 ->
    exists s',
      for_epochs take_step calc_losses write_fails train_dataset val_dataset
                 overlap use_gpu (seq a n) loc s = (Raise OSError, s')
      /\ logs_within a e0 s s'.
Proof.
  induction n as [|n IH]; intros a e0 loc s Ht Hv He Hc Hd; [lia|].
  cbn [seq for_epochs].
  pose proof (run_epoch_logs a loc s) as Hlog.
  pose proof (run_epoch_outcome a loc s Ht) as Hout. cbv zeta in Hout.
  destruct (run_epoch take_step calc_losses write_fails train_dataset
                      val_dataset overlap use_gpu a loc s) as [r s1] eqn:E.
  cbn [fst snd] in *.
  destruct Hout as [(ev & -> & _) | [(Hv' & _) | (_ & (loc' & ->) & Hok)]].
  - rewrite (bind_raise _ _ _ _ _ E). exists s1. split; [reflexivity|].
    apply logs_within_weaken with a a; [lia | lia | exact Hlog].
  - contradiction.
  - rewrite (bind_ok _ _ _ _ _ E).
    destruct (Nat.eq_dec a e0) as [-> | Hne]; [destruct (Hok Hc Hd)|].
    destruct (IH (S a) e0 loc' s1 Ht Hv ltac:(lia) Hc Hd) as (s' & E' & L').
    exists s'. split; [exact E'|].
    apply logs_within_trans with s1.
    + apply logs_within_weaken with a a; [lia | lia | exact Hlog].
    + apply logs_within_weaken with (S a) e0; [lia | lia | exact L'].
Qed.

(** *** Properties of the models and optimizers kept by a run *)

Lemma keeps_refl (Q : Step.World -> Prop) (s : TState) : keeps Q s s.
Proof. intros H; exact H. Qed.

Lemma keeps_trans (Q : Step.World -> Prop) (s1 s2 s3 : TState) :
  keeps Q s1 s2 -> keeps Q s2 s3 -> keeps Q s1 s3.
Proof. unfold keeps. auto. Qed.

Lemma keeps_emit (Q : Step.World -> Prop) (ev : Event) :
  respects (keeps Q) (emit ev).
Proof. intros s H. exact H. Qed.

Lemma keeps_lift (Q : Step.World -> Prop) {A : Type} (m : Step.Exec A) :
  (forall w, Q w -> Q (snd (m w))) -> respects (keeps Q) (lift m).
Proof.
  intros H s Hq. unfold lift. specialize (H (world s) Hq).
  destruct (m (world s)) as [a w]. exact H.
Qed.

Lemma train_with_keeps (Q : Step.World -> Prop) (epochs : nat) (lr : R) :
  (forall x y w, Q w -> Q (snd (take_step x y overlap use_gpu w))) ->
  (forall x y w, Q w -> Q (snd (calc_losses x y overlap use_gpu w))) ->
  (forall x w, Q w -> Q (snd (Step.call_generator x false w))) ->
  Q (world (initial_state use_gpu lr)) ->
  Q (world (snd (train_with take_step calc_losses write_fails train_dataset
                            val_dataset overlap use_gpu epochs lr))).
Proof.
  intros Hs Hc Hg H0. unfold train_with.
  assert (Loop : forall es loc,
             respects (keeps Q)
               (for_epochs take_step calc_losses write_fails train_dataset
                           val_dataset overlap use_gpu es loc)).
  { induction es as [|e es IH]; intros loc.
    - apply respects_ret, keeps_refl.
    - cbn [for_epochs]. apply respects_bind; [apply keeps_trans | | apply IH].
      apply respects_run_epoch;
        [apply keeps_refl | apply keeps_trans | | | |];
        intros; try apply keeps_lift; try apply keeps_emit; auto. }
  refine (respects_bind (keeps Q) (keeps_trans Q) _ _ (Loop _ _) _ _ H0).
  intros loc. apply respects_write; [apply keeps_refl | apply keeps_emit].
Qed.

End TrainerFacts.

(* ================================================================== *)
(** ** Failures inside the epoch loop *)

Section TrainerFailures.
Import Trainer.
Context {P : ModelProvider}.
Variable take_step : tensor -> tensor -> Z -> bool -> Step.Exec (R * R).
Variable calc_losses : tensor -> tensor -> Z -> bool -> Step.Exec (R * R).
Variable write_fails : Event -> bool.
Variable train_dataset val_dataset : list Batch.
Variable overlap : Z.
Variable use_gpu : bool.

Lemma train_with_aborts (epochs e0 : nat) (lr : R) :
  train_dataset <> [] -> val_dataset <> [] ->
  (e0 < epochs)%nat -> cadence e0 = true -> dump_fails write_fails e0 ->
  let run := train_with take_step calc_losses write_fails train_dataset
                        val_dataset overlap use_gpu epochs lr in
  fst run = Raise OSError
  /\ Forall (in_epochs 0 e0) (events (snd run)).
Proof.
  intros Ht Hv He Hc Hd. cbv zeta. unfold train_with.
  destruct (for_epochs_abort take_step calc_losses write_fails train_dataset
              val_dataset overlap use_gpu epochs 0 e0
              (mkLocals (mkHistories [] [] [] []) None)
              (initial_state use_gpu lr) Ht Hv ltac:(lia) Hc Hd)
    as (s' & E & new & Ev & F).
  rewrite (bind_raise _ _ _ _ _ E). cbn [fst snd].
  split; [reflexivity|]. rewrite Ev. exact F.
Qed.

(** C8, as amended.  On non-empty datasets, when the disk refuses the
    checkpoint or the pictures of an epoch [e0] at which they are due, the
    run ends with the error of a refused write: no batch of a later epoch
    is processed, nothing is plotted, and the run does not complete. *)
Theorem refused_write_aborts_run :
  forall (epochs e0 : nat) (lr : R),
    train_dataset <> [] -> val_dataset <> [] ->
    (e0 < epochs)%nat -> cadence e0 = true -> dump_fails write_fails e0 ->
    let run := train_with take_step calc_losses write_fails train_dataset
                          val_dataset overlap use_gpu epochs lr in
    let log := events (snd run) in
    fst run = Raise OSError
    /\ (forall e, (e0 < e)%nat ->
          step_losses e log = [] /\ eval_losses e log = [])
    /\ plotted log = None
    /\ ~ run_completes run train_dataset epochs.
Proof.
  intros epochs e0 lr Ht Hv He Hc Hd. cbv zeta.
  destruct (train_with_aborts epochs e0 lr Ht Hv He Hc Hd) as [E F].
  split; [exact E|]. split; [|split].
  - intros e Hlt. split.
    + apply (step_losses_outside 0 e0); [exact F | lia].
    + apply (eval_losses_outside 0 e0); [exact F | lia].
  - apply (plotted_in_epochs 0 e0). exact F.
  - intros [Hok _]. rewrite E in Hok. discriminate.
Qed.

(** C4.  With a validation dataset of zero batches and at least one epoch,
    the run ends with an exception during the first epoch and no loss
    history is handed to [plot_loss]; when moreover the training dataset
    is not empty and the disk accepts every write, the exception is the
    [ZeroDivisionError] of the normalization. *)
Theorem empty_validation_is_fatal :
  forall (epochs : nat) (lr : R),
    val_dataset = [] -> (0 < epochs)%nat ->
    let run := train_with take_step calc_losses write_fails train_dataset
                          val_dataset overlap use_gpu epochs lr in
    (exists ex, fst run = Raise ex)
    /\ plotted (events (snd run)) = None
    /\ (train_dataset <> [] -> (forall ev, write_fails ev = false) ->
        fst run = Raise ZeroDivisionError).
Proof.
  intros epochs lr Hv He. cbv zeta. unfold train_with.
  destruct epochs as [|n]; [lia|]. cbn [seq for_epochs].
  set (loc0 := mkLocals (mkHistories [] [] [] []) None).
  set (s0 := initial_state use_gpu lr).
  destruct (run_epoch_empty_validation take_step calc_losses write_fails
              train_dataset val_dataset overlap use_gpu 0 loc0 s0 Hv)
    as (ex & s1 & E).
  pose proof (run_epoch_logs take_step calc_losses write_fails train_dataset
                val_dataset overlap use_gpu 0 loc0 s0) as (new & Ev & F).
  pose proof (run_epoch_outcome take_step calc_losses write_fails
                train_dataset val_dataset overlap use_gpu 0 loc0 s0) as Out.
  cbv zeta in Out. rewrite E in Ev, Out. cbn [fst snd] in Ev, Out.
  rewrite (bind_raise _ _ _ _ _ (bind_raise _ _ _ _ _ E)). cbn [fst snd].
  split; [exists ex; reflexivity|]. split.
  - rewrite Ev. cbn [s0 initial_state events app].
    apply (plotted_in_epochs 0 0). exact F.
  - intros Ht Hw.
    destruct (Out Ht) as [(ev & _ & W) | [(_ & Hz) | (Hne & _)]].
    + rewrite Hw in W. discriminate.
    + injection Hz as ->. reflexivity.
    + contradiction.
Qed.

End TrainerFailures.

(* ================================================================== *)
(** ** The optimizers *)

Section OptimizerFacts.
Import Trainer Step.
Context {P : ModelProvider}.

Lemma call_generator_optimizers (x : tensor) (training : bool) (w : World) :
  generator_optimizer (snd (call_generator x training w))
  = generator_optimizer w
  /\ discriminator_optimizer (snd (call_generator x training w))
     = discriminator_optimizer w.
Proof.
  unfold call_generator. destruct (generator_call _ _ _). split; reflexivity.
Qed.

Lemma call_discriminator_optimizers (x : tensor) (training : bool)
    (w : World) :
  generator_optimizer (snd (call_discriminator x training w))
  = generator_optimizer w
  /\ discriminator_optimizer (snd (call_discriminator x training w))
     = discriminator_optimizer w.
Proof.
  unfold call_discriminator. destruct (discriminator_call _ _ _).
  split; reflexivity.
Qed.

Lemma apply_generator_gradients_rates (g : GeneratorGrads) (w : World) :
  learning_rate (generator_optimizer (snd (apply_generator_gradients g w)))
  = learning_rate (generator_optimizer w)
  /\ discriminator_optimizer (snd (apply_generator_gradients g w))
     = discriminator_optimizer w.
Proof.
  unfold apply_generator_gradients. destruct (generator_adam _ _ _ _).
  split; reflexivity.
Qed.

Lemma apply_discriminator_gradients_rates (g : DiscriminatorGrads)
    (w : World) :
  learning_rate
    (discriminator_optimizer (snd (apply_discriminator_gradients g w)))
  = learning_rate (discriminator_optimizer w)
  /\ generator_optimizer (snd (apply_discriminator_gradients g w))
     = generator_optimizer w.
Proof.
  unfold apply_discriminator_gradients.
  destruct (discriminator_adam _ _ _ _). split; reflexivity.
Qed.

Lemma rates_bind {A B : Type} (m : Exec A) (k : A -> Exec B) :
  (forall w, rates (snd (m w)) = rates w) ->
  (forall a w, rates (snd (k a w)) = rates w) ->
  forall w, rates (snd (bind m k w)) = rates w.
Proof.
  intros Hm Hk w. unfold bind. specialize (Hm w).
  destruct (m w) as [a w1]. cbn [snd] in Hm. rewrite Hk. exact Hm.
Qed.

Lemma rates_call_generator (x : tensor) (t : bool) (w : World) :
  rates (snd (call_generator x t w)) = rates w.
Proof.
  unfold rates. destruct (call_generator_optimizers x t w) as [-> ->].
  reflexivity.
Qed.

Lemma rates_call_discriminator (x : tensor) (t : bool) (w : World) :
  rates (snd (call_discriminator x t w)) = rates w.
Proof.
  unfold rates. destruct (call_discriminator_optimizers x t w) as [-> ->].
  reflexivity.
Qed.

Lemma rates_take_step (x y : tensor) (o : Z) (g : bool) (w : World) :
  rates (snd (take_step x y o g w)) = rates w.
Proof.
  revert w. unfold take_step.
  repeat (apply rates_bind; [|intros ?]); intros w;
    try reflexivity;
    auto using rates_call_generator, rates_call_discriminator.
  - unfold rates.
    match goal with
    | |- context [apply_discriminator_gradients ?gr w] =>
        destruct (apply_discriminator_gradients_rates gr w) as [-> ->]
    end.
    reflexivity.
  - unfold rates.
    match goal with
    | |- context [apply_generator_gradients ?gr w] =>
        destruct (apply_generator_gradients_rates gr w) as [-> ->]
    end.
    reflexivity.
Qed.

Lemma rates_calc_losses (x y : tensor) (o : Z) (g : bool) (w : World) :
  rates (snd (calc_losses x y o g w)) = rates w.
Proof.
  revert w. unfold calc_losses.
  repeat (apply rates_bind; [|intros ?]); intros w;
    try reflexivity;
    auto using rates_call_generator, rates_call_discriminator.
Qed.

(** C9.  [train] builds two Adam optimizers, one per model; the learning
    rate of the generator's is ten times that of the discriminator's, which
    is [lr], for every [lr], and this still holds when the run ends.  An
    update of either optimizer leaves the other as it is. *)
Theorem optimizer_learning_rates :
  forall (write_fails : Event -> bool) (train_dataset val_dataset : list Batch)
         (epochs : nat) (overlap : Z) (use_gpu : bool) (lr : R),
    let built := world (initial_state use_gpu lr) in
    let final :=
      world (snd (train write_fails train_dataset val_dataset epochs overlap
                        use_gpu lr)) in
    generator_optimizer built = Adam generator_slots_init (lr * 10)
    /\ discriminator_optimizer built = Adam discriminator_slots_init lr
    /\ learning_rate (generator_optimizer built)
       = 10 * learning_rate (discriminator_optimizer built)
    /\ learning_rate (generator_optimizer final)
       = 10 * learning_rate (discriminator_optimizer final)
    /\ (forall g w, discriminator_optimizer (snd (apply_generator_gradients g w))
                    = discriminator_optimizer w)
    /\ (forall g w, generator_optimizer (snd (apply_discriminator_gradients g w))
                    = generator_optimizer w).
Proof.
  intros write_fails train_dataset val_dataset epochs overlap use_gpu lr.
  cbv zeta. split; [reflexivity|]. split; [reflexivity|].
  split; [cbn; ring|]. split.
  - unfold train.
    apply (train_with_keeps take_step calc_losses write_fails train_dataset
             val_dataset overlap use_gpu
             (fun w => fst (rates w) = 10 * snd (rates w))).
    + intros x y w H. rewrite rates_take_step. exact H.
    + intros x y w H. rewrite rates_calc_losses. exact H.
    + intros x w H. rewrite rates_call_generator. exact H.
    + cbn. ring.
  - split; intros g w.
    + apply apply_generator_gradients_rates.
    + apply apply_discriminator_gradients_rates.
Qed.

End OptimizerFacts.

(* ================================================================== *)
(** ** Worked examples on the toy provider *)

Section Examples.
Import Trainer.

(** The stub run of the specification: three training batches with losses
    1, 2, 3 and two validation batches with losses 4, 5, one epoch; the
    plotted means are 2 and 4.5. *)
Lemma train_reports_batch_means_witness :
  let run := train_with (P := Toy.provider) Toy.stub_executor
               Toy.stub_executor Toy.never_fails Toy.train_batches
               Toy.val_batches 0 false 1 (1 / 5000) in
  Toy.train_batches <> []
  /\ Toy.val_batches <> []
  /\ (forall ev, Toy.never_fails ev = false)
  /\ plotted (events (snd run))
     = Some (mkHistories [TfScalar 2] [TfScalar 2]
                         [TfScalar (9 / 2)] [TfScalar (9 / 2)]).
Proof.
  cbv zeta.
  assert (Ht : Toy.train_batches <> []) by discriminate.
  assert (Hv : Toy.val_batches <> []) by discriminate.
  assert (Hw : forall ev, Toy.never_fails ev = false) by reflexivity.
  split; [exact Ht|]. split; [exact Hv|]. split; [exact Hw|].
  destruct (train_reports_batch_means (P := Toy.provider) Toy.stub_executor
              Toy.stub_executor Toy.never_fails Toy.train_batches
              Toy.val_batches 0 false 1 (1 / 5000) Ht Hv Hw)
    as (_ & Hp & _).
  rewrite Hp. unfold histories_of. cbn [seq map].
  assert (S0 : step_losses 0
                 (events (snd (train_with (P := Toy.provider)
                                 Toy.stub_executor Toy.stub_executor
                                 Toy.never_fails Toy.train_batches
                                 Toy.val_batches 0 false 1 (1 / 5000))))
               = [(1, 1); (2, 2); (3, 3)]) by reflexivity.
  assert (E0 : eval_losses 0
                 (events (snd (train_with (P := Toy.provider)
                                 Toy.stub_executor Toy.stub_executor
                                 Toy.never_fails Toy.train_batches
                                 Toy.val_batches 0 false 1 (1 / 5000))))
               = [(4, 4); (5, 5)]) by reflexivity.
  rewrite S0, E0. unfold mean_loss. cbn [map fst snd Rsum length INR].
  replace ((1 + (2 + (3 + 0))) / (1 + 1 + 1)) with 2 by field.
  replace ((4 + (5 + 0)) / (1 + 1)) with (9 / 2) by field.
  reflexivity.
Defined.

(** Ten epochs: the writes happen at epochs 0, 4 and 9. *)
Lemma dumps_follow_cadence_witness :
  let run := train_with (P := Toy.provider) Toy.stub_executor
               Toy.stub_executor Toy.never_fails Toy.train_batches
               Toy.val_batches 0 false 10 (1 / 5000) in
  Toy.train_batches <> []
  /\ Toy.val_batches <> []
  /\ (forall ev, Toy.never_fails ev = false)
  /\ checkpoint_epochs (events (snd run)) = [0; 4; 9]%nat
  /\ picture_epochs TrainSplit (events (snd run)) = [0; 4; 9]%nat
  /\ picture_epochs ValSplit (events (snd run)) = [0; 4; 9]%nat.
Proof.
  cbv zeta.
  assert (Ht : Toy.train_batches <> []) by discriminate.
  assert (Hv : Toy.val_batches <> []) by discriminate.
  assert (Hw : forall ev, Toy.never_fails ev = false) by reflexivity.
  destruct (dumps_follow_cadence (P := Toy.provider) Toy.stub_executor
              Toy.stub_executor Toy.never_fails Toy.train_batches
              Toy.val_batches 0 false 10 (1 / 5000) Ht Hv Hw)
    as (_ & Ck & Pt & Pv & _).
  split; [exact Ht|]. split; [exact Hv|]. split; [exact Hw|].
  split; [exact Ck|]. split; [exact Pt | exact Pv].
Defined.

(** No validation batch: the first epoch ends in a division by zero. *)
Lemma empty_validation_is_fatal_witness :
  let run := train_with (P := Toy.provider) Toy.stub_executor
               Toy.stub_executor Toy.never_fails Toy.train_batches
               [] 0 false 3 (1 / 5000) in
  @nil Batch = [] /\ (0 < 3)%nat
  /\ fst run = Raise ZeroDivisionError
  /\ plotted (events (snd run)) = None.
Proof.
  cbv zeta.
  destruct (empty_validation_is_fatal (P := Toy.provider) Toy.stub_executor
              Toy.stub_executor Toy.never_fails Toy.train_batches
              [] 0 false 3 (1 / 5000) eq_refl ltac:(lia))
    as (_ & Hp & Hz).
  split; [reflexivity|]. split; [lia|]. split; [|exact Hp].
  apply Hz; [discriminate | reflexivity].
Defined.

Lemma first_checkpoint_refused : dump_fails Toy.first_checkpoint_fails 0.
Proof. left. reflexivity. Qed.

(** [train] with the executors of the module ends on a refused write. *)
Lemma train_aborts {P : ModelProvider} (write_fails : Event -> bool)
    (train_dataset val_dataset : list Batch) (epochs e0 : nat)
    (overlap : Z) (use_gpu : bool) (lr : R) :
  train_dataset <> [] -> val_dataset <> [] ->
  (e0 < epochs)%nat -> cadence e0 = true -> dump_fails write_fails e0 ->
  fst (train write_fails train_dataset val_dataset epochs overlap use_gpu lr)
  = Raise OSError.
Proof.
  intros Ht Hv He Hc Hd. unfold train.
  apply (train_with_aborts Step.take_step Step.calc_losses write_fails
           train_dataset val_dataset overlap use_gpu epochs e0 lr
           Ht Hv He Hc Hd).
Qed.

(** Two epochs with the first checkpoint refused. *)
Lemma refused_write_aborts_run_witness :
  let run := train (P := Toy.provider) Toy.first_checkpoint_fails
               [Toy.batch_of 1] [Toy.batch_of 1] 2 0 false (1 / 5000) in
  [Toy.batch_of 1] <> [] /\ (0 < 2)%nat /\ cadence 0 = true
  /\ dump_fails Toy.first_checkpoint_fails 0
  /\ fst run = Raise OSError
  /\ step_losses 1 (events (snd run)) = [].
Proof.
  cbv zeta. unfold train.
  assert (Hd : [Toy.batch_of 1] <> []) by discriminate.
  destruct (refused_write_aborts_run (P := Toy.provider) Step.take_step
              Step.calc_losses Toy.first_checkpoint_fails [Toy.batch_of 1]
              [Toy.batch_of 1] 0 false 2 0 (1 / 5000) Hd Hd ltac:(lia)
              eq_refl first_checkpoint_refused)
    as (E & Later & _).
  split; [exact Hd|]. split; [lia|]. split; [reflexivity|].
  split; [exact first_checkpoint_refused|]. split; [exact E|].
  exact (proj1 (Later 1%nat ltac:(lia))).
Defined.

(** C8 as stated fails: with the first checkpoint refused, a run of two
    epochs ends with the error and never starts the second epoch. *)
Lemma refused_checkpoint_stops_training :
  ~ run_completes
      (train (P := Toy.provider) Toy.first_checkpoint_fails
             [Toy.batch_of 1] [Toy.batch_of 1] 2 0 false (1 / 5000))
      [Toy.batch_of 1] 2.
Proof.
  intros [Hok _].
  assert (Hd : [Toy.batch_of 1] <> []) by discriminate.
  pose proof (train_aborts (P := Toy.provider) Toy.first_checkpoint_fails
                [Toy.batch_of 1] [Toy.batch_of 1] 2 0 0 false (1 / 5000)
                Hd Hd ltac:(lia) eq_refl first_checkpoint_refused) as E.
  rewrite E in Hok. discriminate Hok.
Qed.

End Examples.

(* ================================================================== *)
(** ** Further properties of the loss functions *)

Section MoreLossFacts.
Import Losses LossSpec LossAux.

Lemma sum_n_ext_zero (n : nat) (f : nat -> R) :
  (forall i, (i < n)%nat -> 0 <= f i) -> sum_n n f = 0 ->
  forall i, (i < n)%nat -> f i = 0.
Proof.
  induction n as [|n IH]; intros Hpos Hsum i Hi; [lia|].
  cbn [sum_n] in Hsum.
  assert (0 <= sum_n n f) by (apply sum_n_nonneg; intros; apply Hpos; lia).
  assert (0 <= f n) by (apply Hpos; lia).
  destruct (Nat.eq_dec i n) as [-> | Hne]; [lra|].
  apply IH; try lia; [intros; apply Hpos; lia | lra].
Qed.

Lemma sum4_zero_inv (a b c d : nat) (f : nat -> nat -> nat -> nat -> R) :
  (forall i j k l, 0 <= f i j k l) -> sum4 a b c d f = 0 ->
  forall i j k l, (i < a)%nat -> (j < b)%nat -> (k < c)%nat -> (l < d)%nat ->
                  f i j k l = 0.
Proof.
  intros Hpos Hsum i j k l Hi Hj Hk Hl. unfold sum4, sum3 in Hsum.
  assert (H1 : sum_n b (fun j => sum_n c (fun k => sum_n d (fun l => f i j k l)))
               = 0).
  { apply (sum_n_ext_zero a
             (fun i => sum_n b (fun j => sum_n c (fun k =>
                         sum_n d (fun l => f i j k l)))));
      [|exact Hsum | exact Hi].
    intros. repeat (apply sum_n_nonneg; intros). apply Hpos. }
  assert (H2 : sum_n c (fun k => sum_n d (fun l => f i j k l)) = 0).
  { apply (sum_n_ext_zero b
             (fun j => sum_n c (fun k => sum_n d (fun l => f i j k l))));
      [|exact H1 | exact Hj].
    intros. repeat (apply sum_n_nonneg; intros). apply Hpos. }
  assert (H3 : sum_n d (fun l => f i j k l) = 0).
  { apply (sum_n_ext_zero c (fun k => sum_n d (fun l => f i j k l)));
      [|exact H2 | exact Hk].
    intros. apply sum_n_nonneg; intros. apply Hpos. }
  apply (sum_n_ext_zero d (fun l => f i j k l)); [|exact H3 | exact Hl].
  intros. apply Hpos.
Qed.

Lemma sum4_ext_in (a b c d : nat) (f g : nat -> nat -> nat -> nat -> R) :
  (forall i j k l, (i < a)%nat -> (j < b)%nat -> (k < c)%nat -> (l < d)%nat ->
                   f i j k l = g i j k l) ->
  sum4 a b c d f = sum4 a b c d g.
Proof.
  intros H. unfold sum4, sum3.
  apply sum_n_ext; intros i Hi. apply sum_n_ext; intros j Hj.
  apply sum_n_ext; intros k Hk. apply sum_n_ext; intros l Hl.
  apply H; assumption.
Qed.

Lemma safe_div_zero_inv (x : R) (n : nat) :
  (0 < n)%nat -> safe_div x n = 0 -> x = 0.
Proof.
  intros Hn H. destruct n as [|n]; [lia|]. unfold safe_div in H.
  assert (INR (S n) <> 0) by (apply not_0_INR; lia).
  apply (Rmult_eq_reg_r (/ INR (S n))); [|apply Rinv_neq_0_compat; assumption].
  unfold Rdiv in H. rewrite H. ring.
Qed.

Lemma MSE_nonneg (y_true y_pred : tensor) : 0 <= MSE y_true y_pred.
Proof.
  unfold MSE. rewrite keras_loss_flat.
  apply safe_div_nonneg, sum4_nonneg. intros. unfold squared_difference.
  apply Rle_0_sqr.
Qed.

Lemma adversarial_nonneg (fake_output : tensor) :
  0 <= cross_entropy (ones_like fake_output) fake_output.
Proof.
  unfold ones_like. rewrite cross_entropy_constant_target by auto.
  apply batch_mean_nonneg. intros x. apply textbook_nonneg. auto.
Qed.

(** X1.  The generator loss is never negative, whatever the tensors, the
    overlap (also a negative or an oversized one) and the layout. *)
Theorem generator_loss_nonneg :
  forall (fake_output y_true y_pred : tensor) (overlap : Z) (use_gpu : bool),
    0 <= generator_loss fake_output y_true y_pred overlap use_gpu.
Proof.
  intros fo yt yp o g.
  pose proof (adversarial_nonneg fo) as Ha.
  unfold generator_loss, generator_loss_weighted, weight_l2_default,
    weight_adv_default.
  destruct (negb (o =? 0)%Z).
  - destruct g;
      repeat match goal with
             | |- context [MSE ?a ?b] =>
                 let H := fresh "M" in
                 pose proof (MSE_nonneg a b) as H;
                 generalize dependent (MSE a b); intros
             end; lra.
  - pose proof (MSE_nonneg yt yp). lra.
Qed.

(** X2.  Without overlap, on tensors with at least one element, the
    reconstruction term vanishes exactly for a perfect reconstruction: the
    generator loss is the bare adversarial term 0.1 * cross-entropy if and
    only if [y_pred] equals [y_true] at every index. *)
Theorem generator_loss_perfect_reconstruction :
  forall (fake_output y_true y_pred : tensor) (use_gpu : bool),
    (0 < dim0 y_pred * dim1 y_pred * dim2 y_pred * dim3 y_pred)%nat ->
    (generator_loss fake_output y_true y_pred 0 use_gpu
     = 1 / 10 * adversarial fake_output
     <-> forall n i j c,
           (n < dim0 y_pred)%nat -> (i < dim1 y_pred)%nat ->
           (j < dim2 y_pred)%nat -> (c < dim3 y_pred)%nat ->
           elt y_pred n i j c = elt y_true n i j c).
Proof.
  intros fo yt yp g Hn. rewrite generator_loss_no_overlap.
  unfold adversarial. rewrite <- (cross_entropy_constant_target 1 fo) by auto.
  fold (ones_like fo).
  unfold MSE. rewrite keras_loss_flat. split.
  - intros H n i j c Hn0 Hi Hj Hc.
    assert (Z0 : safe_div
                   (sum4 (dim0 yp) (dim1 yp) (dim2 yp) (dim3 yp)
                         (fun i j k l =>
                            squared_difference (elt yt i j k l) (elt yp i j k l)))
                   (dim0 yp * dim1 yp * dim2 yp * dim3 yp) = 0) by lra.
    apply safe_div_zero_inv in Z0; [|exact Hn].
    pose proof (sum4_zero_inv _ _ _ _ _
                  ltac:(intros; unfold squared_difference; apply Rle_0_sqr)
                  Z0 n i j c Hn0 Hi Hj Hc) as Hz.
    cbv beta in Hz. unfold squared_difference in Hz.
    apply Rmult_integral in Hz. lra.
  - intros H.
    rewrite (sum4_ext_in _ _ _ _ _ (fun _ _ _ _ => 0)).
    + unfold sum4, sum3.
      rewrite (sum_n_vanish (dim0 yp))
        by (intros; repeat (apply sum_n_vanish; intros); reflexivity).
      destruct (dim0 yp * dim1 yp * dim2 yp * dim3 yp)%nat;
        unfold safe_div; lra.
    + intros n i j c Hn0 Hi Hj Hc. unfold squared_difference.
      rewrite (H n i j c Hn0 Hi Hj Hc). ring.
Qed.

End MoreLossFacts.

(* ================================================================== *)
(** ** What the overlap slices see *)

Section OverlapFacts.
Import Losses LossSpec LossAux.

Lemma region_MSE_ext (channel_first : bool) (r : region)
    (y_true y_pred y_pred' : tensor) :
  same_shape y_pred y_pred' ->
  (forall n i j c, in_region r i j ->
     pixel channel_first y_pred n i j c = pixel channel_first y_pred' n i j c) ->
  region_MSE channel_first r y_true y_pred
  = region_MSE channel_first r y_true y_pred'.
Proof.
  intros (E0 & E1 & E2 & E3) H. unfold region_MSE.
  replace (channels channel_first y_pred') with (channels channel_first y_pred)
    by (destruct channel_first; cbn [channels]; congruence).
  rewrite <- E0. apply safe_div_eq; [|reflexivity].
  apply sum4_ext_in. intros n i j c _ Hi Hj _.
  rewrite (H n (row_lo r + i)%nat (col_lo r + j)%nat c); [reflexivity|].
  unfold in_region. lia.
Qed.

(** The loss over the three regions, for an overlap whose border fits. *)
Lemma generator_loss_fitting (fake_output y_true y_pred : tensor)
    (overlap : Z) (use_gpu : bool) :
  same_shape y_true y_pred ->
  (0 < overlap)%Z ->
  (2 * overlap <= Z.of_nat (height use_gpu y_pred))%Z ->
  (2 * overlap <= Z.of_nat (width use_gpu y_pred))%Z ->
  generator_loss fake_output y_true y_pred overlap use_gpu
  = 9 / 10
    * (region_MSE use_gpu
         (center_region (height use_gpu y_pred) (width use_gpu y_pred)
                        (Z.to_nat overlap)) y_true y_pred
       + 10 * (region_MSE use_gpu (top_left_square (Z.to_nat overlap))
                          y_true y_pred
               + region_MSE use_gpu
                   (bottom_right_square (height use_gpu y_pred)
                      (width use_gpu y_pred) (Z.to_nat overlap))
                   y_true y_pred))
    + 1 / 10 * cross_entropy (ones_like fake_output) fake_output.
Proof.
  intros Hs Hpos Hh Hw.
  rewrite generator_loss_sliced by lia.
  destruct (inner_slice (height use_gpu y_pred) overlap) as [A1 A2];
    try assumption.
  destruct (inner_slice (width use_gpu y_pred) overlap) as [A3 A4];
    try assumption.
  destruct (head_slice (height use_gpu y_pred) overlap) as [B1 B2]; try lia.
  destruct (head_slice (width use_gpu y_pred) overlap) as [B3 B4]; try lia.
  destruct (tail_slice (height use_gpu y_pred) overlap) as [C1 C2]; try lia.
  destruct (tail_slice (width use_gpu y_pred) overlap) as [C3 C4]; try lia.
  rewrite (sliced_is_region use_gpu _ _
             (center_region (height use_gpu y_pred) (width use_gpu y_pred)
                            (Z.to_nat overlap)));
    try assumption.
  rewrite (sliced_is_region use_gpu _ _ (top_left_square (Z.to_nat overlap)));
    try assumption;
    try (cbn [top_left_square row_lo row_hi col_lo col_hi]; lia).
  rewrite (sliced_is_region use_gpu _ _
             (bottom_right_square (height use_gpu y_pred)
                (width use_gpu y_pred) (Z.to_nat overlap)));
    try assumption;
    try (cbn [bottom_right_square row_lo row_hi col_lo col_hi]; lia).
  reflexivity.
Qed.

(** X3.  With an overlap whose border fits, the generator loss reads the
    prediction only inside the interior and the two corner squares: two
    predictions that agree there get the same loss, however much they
    differ on the rest of the border. *)
Theorem generator_loss_ignores_rest_of_border :
  forall (fake_output y_true y_pred y_pred' : tensor) (overlap : Z)
         (use_gpu : bool),
    same_shape y_true y_pred -> same_shape y_pred y_pred' ->
    (0 < overlap)%Z ->
    (2 * overlap <= Z.of_nat (height use_gpu y_pred))%Z ->
    (2 * overlap <= Z.of_nat (width use_gpu y_pred))%Z ->
    (forall n i j c,
        in_region (center_region (height use_gpu y_pred)
                     (width use_gpu y_pred) (Z.to_nat overlap)) i j
        \/ in_region (top_left_square (Z.to_nat overlap)) i j
        \/ in_region (bottom_right_square (height use_gpu y_pred)
                        (width use_gpu y_pred) (Z.to_nat overlap)) i j ->
        pixel use_gpu y_pred n i j c = pixel use_gpu y_pred' n i j c) ->
    generator_loss fake_output y_true y_pred overlap use_gpu
    = generator_loss fake_output y_true y_pred' overlap use_gpu.
Proof.
  intros fo yt yp yp' o g Hs Hs' Hpos Hh Hw Hagree.
  assert (Hs2 : same_shape yt yp').
  { destruct Hs as (A & B & C & D), Hs' as (A' & B' & C' & D').
    repeat split; congruence. }
  assert (Eh : height g yp' = height g yp)
    by (destruct Hs' as (A & B & C & D); destruct g; cbn [height]; congruence).
  assert (Ew : width g yp' = width g yp)
    by (destruct Hs' as (A & B & C & D); destruct g; cbn [width]; congruence).
  rewrite (generator_loss_fitting fo yt yp o g Hs Hpos Hh Hw).
  rewrite (generator_loss_fitting fo yt yp' o g Hs2 Hpos)
    by (rewrite ?Eh, ?Ew; assumption).
  rewrite Eh, Ew.
  rewrite (region_MSE_ext g (center_region _ _ _) yt yp yp' Hs')
    by (intros; apply Hagree; auto).
  rewrite (region_MSE_ext g (top_left_square _) yt yp yp' Hs')
    by (intros; apply Hagree; auto).
  rewrite (region_MSE_ext g (bottom_right_square _ _ _) yt yp yp' Hs')
    by (intros; apply Hagree; auto).
  reflexivity.
Qed.

(** *** A negative overlap *)

Lemma inner_slice_negative (len : nat) (o : Z) :
  (o < 0)%Z -> (- (2 * o) <= Z.of_nat len)%Z ->
  extent len (between o (- o)) = 0%nat.
Proof.
  intros H1 H2. unfold extent, lower, upper, between, adjust.
  cbn [start stop].
  destruct (Z.ltb_spec o 0), (Z.ltb_spec (- o) 0); lia.
Qed.

Lemma head_slice_negative (len : nat) (o : Z) :
  (o < 0)%Z -> (- o <= Z.of_nat len)%Z ->
  offset len (upto o) = 0%nat
  /\ extent len (upto o) = (len - Z.to_nat (- o))%nat.
Proof.
  intros H1 H2. unfold offset, extent, lower, upper, upto, adjust.
  cbn [start stop]. destruct (Z.ltb_spec o 0); lia.
Qed.

Lemma tail_slice_negative (len : nat) (o : Z) :
  (o < 0)%Z -> (- o <= Z.of_nat len)%Z ->
  offset len (from (- o)) = Z.to_nat (- o)
  /\ extent len (from (- o)) = (len - Z.to_nat (- o))%nat.
Proof.
  intros H1 H2. unfold offset, extent, lower, upper, from, adjust.
  cbn [start stop]. destruct (Z.ltb_spec (- o) 0); lia.
Qed.

Lemma sliced_MSE_empty_rows (channel_first : bool) (s1 s2 : pyslice)
    (y_true y_pred : tensor) :
  extent (height channel_first y_pred) s1 = 0%nat ->
  sliced_MSE channel_first s1 s2 y_true y_pred = 0.
Proof.
  intros E. unfold sliced_MSE. rewrite E.
  rewrite Nat.mul_0_r. reflexivity.
Qed.

(** X4.  A negative overlap is not rejected.  With [overlap = -k],
    [0 < k] and [2 * k] at most the height and the width, the interior
    slice is empty and the two "corner" slices are the image without its
    last [k] rows and columns and the image without its first [k] rows and
    columns, so that the loss is
    0.9 * 10 * (MSE over the first + MSE over the second) + 0.1 *
    adversarial. *)
Theorem generator_loss_negative_overlap :
  forall (fake_output y_true y_pred : tensor) (overlap : Z) (use_gpu : bool),
    same_shape y_true y_pred ->
    (overlap < 0)%Z ->
    (- (2 * overlap) <= Z.of_nat (height use_gpu y_pred))%Z ->
    (- (2 * overlap) <= Z.of_nat (width use_gpu y_pred))%Z ->
    let k := Z.to_nat (- overlap) in
    let h := height use_gpu y_pred in
    let w := width use_gpu y_pred in
    generator_loss fake_output y_true y_pred overlap use_gpu
    = 9 / 10
      * (10 * (region_MSE use_gpu (mkRegion 0 (h - k) 0 (w - k)) y_true y_pred
               + region_MSE use_gpu (mkRegion k h k w) y_true y_pred))
      + 1 / 10 * adversarial fake_output.
Proof.
  intros fo yt yp o g Hs Hneg Hh Hw. cbv zeta.
  unfold adversarial. rewrite <- (cross_entropy_constant_target 1 fo) by auto.
  fold (ones_like fo).
  rewrite generator_loss_sliced by lia.
  rewrite sliced_MSE_empty_rows by (apply inner_slice_negative; lia).
  destruct (head_slice_negative (height g yp) o) as [B1 B2]; try lia.
  destruct (head_slice_negative (width g yp) o) as [B3 B4]; try lia.
  destruct (tail_slice_negative (height g yp) o) as [C1 C2]; try lia.
  destruct (tail_slice_negative (width g yp) o) as [C3 C4]; try lia.
  rewrite (sliced_is_region g _ _
             (mkRegion 0 (height g yp - Z.to_nat (- o)) 0
                       (width g yp - Z.to_nat (- o))));
    try assumption;
    try (cbn [row_lo row_hi col_lo col_hi]; lia).
  rewrite (sliced_is_region g _ _
             (mkRegion (Z.to_nat (- o)) (height g yp) (Z.to_nat (- o))
                       (width g yp)));
    try assumption;
    try (cbn [row_lo row_hi col_lo col_hi]; lia).
  lra.
Qed.

End OverlapFacts.

(* ================================================================== *)
(** ** Further properties of the executors *)

Section MoreStepFacts.
Import Losses LossSpec Step.

Lemma generator_loss_other_verdict (fo fo' y_true y_pred : tensor)
    (overlap : Z) (use_gpu : bool) :
  generator_loss fo y_true y_pred overlap use_gpu
  - generator_loss fo' y_true y_pred overlap use_gpu
  = 1 / 10 * (adversarial fo - adversarial fo').
Proof.
  unfold adversarial.
  rewrite <- !(cross_entropy_constant_target 1) by auto.
  fold (ones_like fo). fold (ones_like fo').
  unfold generator_loss, generator_loss_weighted, weight_l2_default,
    weight_adv_default.
  destruct (negb (overlap =? 0)%Z); [destruct use_gpu|]; lra.
Qed.

(** X5.  The loss recorded on the generator's tape depends on
    [fake_output] only through an additive term that does not involve the
    generator: replacing the verdict shifts the taped loss of every
    generator by the same amount, 0.1 * (adversarial term of the one minus
    adversarial term of the other). *)
Theorem generator_tape_ignores_verdict :
  forall (P : ModelProvider) (fo fo' images real_centers : tensor)
         (overlap : Z) (use_gpu : bool) (g : Generator),
    gen_tape fo images real_centers overlap use_gpu g
    - gen_tape fo' images real_centers overlap use_gpu g
    = 1 / 10 * (adversarial fo - adversarial fo').
Proof.
  intros P fo fo' images real_centers overlap use_gpu g. unfold gen_tape.
  destruct (generator_call g images true) as [gc g'].
  apply generator_loss_other_verdict.
Qed.

(** X6.  When the discriminator keeps its state across calls, the
    generator keeps its state in inference mode, and neither model's output
    depends on the training flag, the two losses [take_step] returns are
    those [calc_losses] returns from the same state: the step reports the
    losses of the models as they were before its updates. *)
Theorem take_step_reports_prior_losses :
  forall (P : ModelProvider) (images real_centers : tensor) (overlap : Z)
         (use_gpu : bool) (w : World),
    (forall d x t, snd (discriminator_call d x t) = d) ->
    (forall d x, fst (discriminator_call d x true)
                 = fst (discriminator_call d x false)) ->
    (forall g x, snd (generator_call g x false) = g) ->
    (forall g x, fst (generator_call g x true)
                 = fst (generator_call g x false)) ->
    fst (take_step images real_centers overlap use_gpu w)
    = fst (calc_losses images real_centers overlap use_gpu w).
Proof.
  intros P images real_centers overlap use_gpu w Hd Hdo Hg Hgo.
  unfold take_step, calc_losses, bind, gets, ret, call_discriminator,
    call_generator, apply_discriminator_gradients, apply_generator_gradients.
  pose proof (Hd (discriminator w) real_centers true) as D1.
  pose proof (Hdo (discriminator w) real_centers) as O1.
  destruct (discriminator_call (discriminator w) real_centers true)
    as [ro d1].
  cbn [generator discriminator generator_optimizer discriminator_optimizer
       calls fst snd] in *. subst d1.
  pose proof (Hg (generator w) images) as G1.
  pose proof (Hgo (generator w) images) as O2.
  destruct (generator_call (generator w) images false) as [gc0 g1].
  cbn [generator discriminator generator_optimizer discriminator_optimizer
       calls fst snd] in *. subst g1.
  pose proof (Hd (discriminator w) gc0 true) as D2.
  pose proof (Hdo (discriminator w) gc0) as O3.
  destruct (discriminator_call (discriminator w) gc0 true) as [fo d2].
  cbn [generator discriminator generator_optimizer discriminator_optimizer
       calls fst snd learning_rate slots] in *. subst d2.
  destruct (discriminator_adam _ _ _ (discriminator w)) as [ds d3].
  cbn [generator discriminator generator_optimizer discriminator_optimizer
       calls fst snd learning_rate slots] in *.
  destruct (generator_call (generator w) images true) as [gc g2].
  cbn [generator discriminator generator_optimizer discriminator_optimizer
       calls fst snd learning_rate slots] in *.
  destruct (generator_adam _ _ _ g2) as [gs g3].
  cbn [fst snd] in *.
  pose proof (Hd (discriminator w) real_centers false) as D4.
  destruct (discriminator_call (discriminator w) real_centers false)
    as [ro' d4].
  cbn [generator discriminator generator_optimizer discriminator_optimizer
       calls fst snd] in *. subst d4.
  destruct (discriminator_call (discriminator w) gc0 false) as [fo' d5].
  cbn [fst snd] in *. subst. reflexivity.
Qed.

(** The toy models answer alike in both modes. *)
Lemma take_step_reports_prior_losses_witness :
  let P := Toy.provider in
  let w := mkWorld (P := P) 0 0 (Adam tt 1) (Adam tt 1) [] in
  let images := fill 1 2 2 1 0 in
  let real_centers := fill 1 2 2 1 1 in
  (forall d x t, snd (discriminator_call d x t) = d)
  /\ (forall d x, fst (discriminator_call d x true)
                  = fst (discriminator_call d x false))
  /\ (forall g x, snd (generator_call g x false) = g)
  /\ (forall g x, fst (generator_call g x true)
                  = fst (generator_call g x false))
  /\ fst (take_step images real_centers 0 false w)
     = fst (calc_losses images real_centers 0 false w).
Proof.
  cbv zeta.
  split; [intros; reflexivity|]. split; [intros; reflexivity|].
  split; [intros; reflexivity|]. split; [intros; reflexivity|].
  apply (take_step_reports_prior_losses Toy.provider); intros; reflexivity.
Defined.

End MoreStepFacts.

(* ================================================================== *)
(** ** Cutting the center out of an image *)

Section MaskImageFacts.
Import LoadData.

Lemma between_fits (len : nat) (a b : Z) :
  (0 <= a)%Z -> (a <= b)%Z -> (b <= Z.of_nat len)%Z ->
  offset len (between a b) = Z.to_nat a
  /\ extent len (between a b) = Z.to_nat (b - a).
Proof.
  intros H1 H2 H3. unfold offset, extent, lower, upper, between, adjust.
  cbn [start stop].
  destruct (Z.ltb_spec a 0), (Z.ltb_spec b 0); lia.
Qed.

(** [start_index] is [height - 1.5 * mask_size] with the half dropped
    towards zero. *)
Lemma start_index_bounds (height : nat) (mask_size : Z) :
  let a := (2 * Z.of_nat height - 3 * mask_size)%Z in
  let st := start_index height mask_size in
  (a - 1 <= 2 * st <= a + 1)%Z
  /\ (0 <= a -> 2 * st <= a)%Z /\ (a <= 0 -> a <= 2 * st)%Z.
Proof.
  cbv zeta. unfold start_index.
  Z.to_euclidean_division_equations. lia.
Qed.

Lemma selected_spec (len : nat) (s : pyslice) (i : nat) :
  selected len s i = true
  <-> (offset len s <= i < offset len s + extent len s)%nat.
Proof.
  unfold selected. rewrite andb_true_iff, Nat.leb_le, Nat.ltb_lt. reflexivity.
Qed.

(** X7.  When the chunk fits ([start_index] is not negative and
    [start_index + mask_size] is at most the height and the width) and
    [0 <= 2 * overlap <= mask_size], [mask_image] returns the
    [mask_size] x [mask_size] chunk that starts at row and column
    [start_index], and a copy of the image that is zero on the chunk
    without its rim of width [overlap] and unchanged everywhere else, the
    rim included.  The column range is computed from the height. *)
Theorem mask_image_cuts_center :
  forall (im : image) (mask_size overlap : Z),
    let start := start_index (rows im) mask_size in
    let s := Z.to_nat start in
    let m := Z.to_nat mask_size in
    let o := Z.to_nat overlap in
    (0 <= overlap)%Z -> (2 * overlap <= mask_size)%Z ->
    (0 <= start)%Z ->
    (start + mask_size <= Z.of_nat (rows im))%Z ->
    (start + mask_size <= Z.of_nat (cols im))%Z ->
    exists center masked,
      mask_image im mask_size overlap = Done (center, masked)
      /\ (rows center = m /\ cols center = m /\ chans center = chans im)
      /\ (forall i j c, px center i j c = px im (s + i) (s + j) c)
      /\ (rows masked = rows im /\ cols masked = cols im
          /\ chans masked = chans im)
      /\ (forall i j c,
             (s + o <= i < s + m - o)%nat -> (s + o <= j < s + m - o)%nat ->
             px masked i j c = 0)
      /\ (forall i j c,
             ~ ((s + o <= i < s + m - o)%nat /\ (s + o <= j < s + m - o)%nat) ->
             px masked i j c = px im i j c).
Proof.
  intros im mask_size overlap start s m o Ho Hm Hs Hr Hc.
  unfold mask_image. fold start.
  destruct (Z.ltb_spec (mask_size - overlap * 2) 0) as [Hneg | _]; [lia|].
  destruct (between_fits (rows im) (start + overlap)
              (start + mask_size - overlap)) as [R1 R2]; try lia.
  destruct (between_fits (cols im) (start + overlap)
              (start + mask_size - overlap)) as [C1 C2]; try lia.
  destruct (between_fits (rows im) start (start + mask_size)) as [R3 R4];
    try lia.
  destruct (between_fits (cols im) start (start + mask_size)) as [C3 C4];
    try lia.
  assert (B1 : broadcasts (Z.to_nat (mask_size - overlap * 2))
                 (extent (rows im)
                    (between (start + overlap) (start + mask_size - overlap)))
               = true).
  { unfold broadcasts. rewrite R2.
    replace (start + mask_size - overlap - (start + overlap))%Z
      with (mask_size - overlap * 2)%Z by lia.
    rewrite Nat.eqb_refl. reflexivity. }
  assert (B2 : broadcasts (Z.to_nat (mask_size - overlap * 2))
                 (extent (cols im)
                    (between (start + overlap) (start + mask_size - overlap)))
               = true).
  { unfold broadcasts. rewrite C2.
    replace (start + mask_size - overlap - (start + overlap))%Z
      with (mask_size - overlap * 2)%Z by lia.
    rewrite Nat.eqb_refl. reflexivity. }
  rewrite B1, B2. cbn [andb].
  eexists. eexists. split; [reflexivity|].
  cbn [getitem3 rows cols chans px].
  rewrite R3, R4, C3, C4, extent_all.
  split; [repeat split; unfold m; try (f_equal; lia)|].
  split; [intros i j c; reflexivity|].
  split; [repeat split|].
  split.
  - intros i j c Hi Hj.
    assert (S1 : selected (rows im)
                   (between (start + overlap) (start + mask_size - overlap)) i
                 = true) by (apply selected_spec; rewrite R1, R2; unfold s, m, o in *; lia).
    assert (S2 : selected (cols im)
                   (between (start + overlap) (start + mask_size - overlap)) j
                 = true) by (apply selected_spec; rewrite C1, C2; unfold s, m, o in *; lia).
    rewrite S1, S2. reflexivity.
  - intros i j c Hout.
    destruct (selected (rows im) _ i) eqn:S1; [|reflexivity].
    destruct (selected (cols im) _ j) eqn:S2; [|reflexivity].
    exfalso. apply Hout.
    apply selected_spec in S1. apply selected_spec in S2.
    rewrite R1, R2 in S1. rewrite C1, C2 in S2. unfold s, m, o. lia.
Qed.

(** X8.  When [mask_size] is so large that [start_index] is negative
    (more than two thirds of the height, about) but not larger than the
    height, the row slice wraps around and is empty: whenever [mask_image]
    returns, the center it returns has no rows. *)
Theorem mask_image_oversized_center_is_empty :
  forall (im : image) (mask_size overlap : Z) (center masked : image),
    (start_index (rows im) mask_size < 0)%Z ->
    (mask_size <= Z.of_nat (rows im))%Z ->
    mask_image im mask_size overlap = Done (center, masked) ->
    rows center = 0%nat.
Proof.
  intros im mask_size overlap center masked Hs Hm H.
  unfold mask_image in H.
  destruct (mask_size - overlap * 2 <? 0)%Z; [discriminate|].
  destruct (_ && _); [|discriminate].
  injection H as <- _. cbn [getitem3 rows].
  unfold extent, lower, upper, between, adjust. cbn [start stop].
  pose proof (start_index_bounds (rows im) mask_size) as B. cbv zeta in B.
  set (st := start_index (rows im) mask_size) in *.
  destruct (Z.ltb_spec st 0), (Z.ltb_spec (st + mask_size) 0); lia.
Qed.

End MaskImageFacts.

(* ================================================================== *)
(** ** Splitting the simulated data *)

Section SplitFacts.
Import LoadData.

Lemma combine_firstn_skipn {A B : Type} (k : nat) :
  forall (a : list A) (b : list B),
    combine (firstn k a) (firstn k b) ++ combine (skipn k a) (skipn k b)
    = combine a b.
Proof.
  induction k as [|k IH]; intros a b; [reflexivity|].
  destruct a as [|x a]; [reflexivity|].
  destruct b as [|y b]; [cbn; rewrite combine_nil; reflexivity|].
  cbn [firstn skipn combine app]. rewrite IH. reflexivity.
Qed.

Lemma partition_index_lt (n : nat) : (0 < n)%nat -> (partition_index n < n)%nat.
Proof.
  intros H. unfold partition_index.
  apply Nat.Div0.div_lt_upper_bound. lia.
Qed.

Lemma partition_index_le (n : nat) : (partition_index n <= n)%nat.
Proof.
  unfold partition_index. apply Nat.lt_succ_r.
  apply Nat.Div0.div_lt_upper_bound. lia.
Qed.

Lemma partition_index_zero (n : nat) : partition_index n = 0%nat <-> (n <= 1)%nat.
Proof.
  unfold partition_index. split.
  - intros H. destruct (Nat.le_gt_cases n 1) as [L | G]; [exact L|].
    assert (1 <= 4 * n / 5)%nat
      by (apply Nat.div_le_lower_bound; lia).
    lia.
  - intros H. apply Nat.div_small. lia.
Qed.

Lemma load_simulated_data_split_lengths (images image_contexts : list image)
    (train_dataset val_dataset : list (image * image)) :
  load_simulated_data images image_contexts
  = Done (train_dataset, val_dataset) ->
  length images = length image_contexts
  /\ length train_dataset = partition_index (length images)
  /\ length val_dataset
     = (length images - partition_index (length images))%nat.
Proof.
  unfold load_simulated_data.
  destruct (Nat.eqb_spec (length images) (length image_contexts)) as [E | N];
    [|discriminate].
  intros H. injection H as <- <-. rewrite length_map.
  rewrite !length_combine, !length_firstn, !length_skipn, !length_map.
  rewrite <- E. pose proof (partition_index_le (length images)).
  repeat split; lia.
Qed.

Lemma load_simulated_data_done (images image_contexts : list image)
    (train_dataset val_dataset : list (image * image)) :
  load_simulated_data images image_contexts
  = Done (train_dataset, val_dataset) ->
  train_dataset ++ val_dataset
  = combine (map normalize image_contexts) (map normalize images).
Proof.
  unfold load_simulated_data.
  destruct (length images =? length image_contexts)%nat; [|discriminate].
  intros H. injection H as <- <-. apply combine_firstn_skipn.
Qed.

(** X9.  [load_simulated_data] fails, with the assertion, exactly when the
    two arrays differ in length.  Otherwise the training pairs followed by
    the validation pairs are all (context, image) pairs of the normalized
    arrays, in file order, none lost and none repeated; the training
    dataset holds the first [4 * n / 5] of the [n] pairs. *)
Theorem load_simulated_data_splits :
  forall (images image_contexts : list image),
    match load_simulated_data images image_contexts with
    | Done (train_dataset, val_dataset) =>
        length images = length image_contexts
        /\ train_dataset ++ val_dataset
           = combine (map normalize image_contexts) (map normalize images)
        /\ length train_dataset = partition_index (length images)
        /\ length val_dataset
           = (length images - partition_index (length images))%nat
    | Failed e => e = AssertionError /\ length images <> length image_contexts
    end.
Proof.
  intros images contexts. unfold load_simulated_data.
  destruct (Nat.eqb_spec (length images) (length contexts)) as [E | N];
    [|split; [reflexivity | exact N]].
  rewrite length_map. split; [exact E|].
  split; [apply combine_firstn_skipn|].
  rewrite !length_combine, !length_firstn, !length_skipn, !length_map.
  rewrite <- E. pose proof (partition_index_le (length images)).
  split; lia.
Qed.

(** X10.  For arrays of equal length [n], the validation dataset is empty
    only when the file is empty, and the training dataset is empty exactly
    when the file holds at most one sample. *)
Theorem load_simulated_data_empty_parts :
  forall (images image_contexts : list image)
         (train_dataset val_dataset : list (image * image)),
    load_simulated_data images image_contexts
    = Done (train_dataset, val_dataset) ->
    (val_dataset = [] <-> length images = 0%nat)
    /\ (train_dataset = [] <-> (length images <= 1)%nat).
Proof.
  intros images contexts tr va H.
  pose proof (load_simulated_data_split_lengths images contexts tr va H)
    as (E & Lt & Lv).
  split.
  - rewrite <- length_zero_iff_nil, Lv. split; intros Hn; [|lia].
    destruct (Nat.eq_dec (length images) 0) as [Z | NZ]; [exact Z|].
    pose proof (partition_index_lt (length images)). lia.
  - rewrite <- length_zero_iff_nil, Lt. apply partition_index_zero.
Qed.

End SplitFacts.

(* ================================================================== *)
(** ** Value ranges and what the pictures show *)

Section PictureFacts.
Import LoadData Pictures.

Lemma normalize_range (x : R) :
  0 <= x <= 255 ->
  -1 <= (x - 1275 / 10) / (1275 / 10) <= 1.
Proof.
  intros [H1 H2]. split.
  - apply Rmult_le_reg_r with (1275 / 10); [lra|].
    replace ((x - 1275 / 10) / (1275 / 10) * (1275 / 10)) with (x - 1275 / 10)
      by (field; lra). lra.
  - apply Rmult_le_reg_r with (1275 / 10); [lra|].
    replace ((x - 1275 / 10) / (1275 / 10) * (1275 / 10)) with (x - 1275 / 10)
      by (field; lra). lra.
Qed.

(** X11.  When every entry of the two arrays lies between 0 and 255, every
    entry of every context and image of both datasets returned by
    [load_simulated_data] lies between -1 and 1. *)
Theorem load_simulated_data_range :
  forall (images image_contexts : list image)
         (train_dataset val_dataset : list (image * image)),
    load_simulated_data images image_contexts
    = Done (train_dataset, val_dataset) ->
    (forall a, In a (images ++ image_contexts) ->
               forall i j c, 0 <= px a i j c <= 255) ->
    forall context image0,
      In (context, image0) (train_dataset ++ val_dataset) ->
      forall i j c,
        -1 <= px context i j c <= 1 /\ -1 <= px image0 i j c <= 1.
Proof.
  intros images contexts tr va H Hraw context image0 Hin i j c.
  rewrite (load_simulated_data_done images contexts tr va H) in Hin.
  pose proof (in_combine_l _ _ _ _ Hin) as Hc.
  pose proof (in_combine_r _ _ _ _ Hin) as Hi.
  apply in_map_iff in Hc. apply in_map_iff in Hi.
  destruct Hc as (c0 & <- & Hc0). destruct Hi as (i0 & <- & Hi0).
  cbn [normalize map_px px]. split; apply normalize_range; apply Hraw;
    apply in_or_app; auto.
Qed.

(** X12.  The real centers [save_pictures] draws are the loaded ones at
    the same sample, row, column and channel, in both layouts: a batch of
    centers normalized from values [x] in 0..255 (as
    [load_simulated_data] does) is shown as [x / 255], and one normalized
    from values [p] in 0..1 as [p * 2 - 1] (as [load_h5_to_dataset] does)
    is shown as [p], whether or not [train] transposed the batch to
    channel-first on the way. *)
Theorem save_pictures_shows_loaded_centers :
  forall (use_gpu : bool) (generated image_batch raw : tensor),
    let shown_real (centers : tensor) :=
      snd (shown use_gpu generated
                 (snd (to_layout use_gpu (image_batch, centers)))) in
    let from_bytes := tmap (fun x => (x - 1275 / 10) / (1275 / 10)) raw in
    let from_unit := tmap (fun p => p * 2 - 1) raw in
    same_shape (shown_real from_bytes) raw
    /\ same_shape (shown_real from_unit) raw
    /\ forall n i j c,
         elt (shown_real from_bytes) n i j c = elt raw n i j c / 255
         /\ elt (shown_real from_unit) n i j c = elt raw n i j c.
Proof.
  intros use_gpu generated image_batch raw. cbv zeta.
  destruct use_gpu; cbn; (split; [repeat split|]); (split; [repeat split|]);
    intros n i j c; split; field.
Qed.

End PictureFacts.

(* ================================================================== *)
(** ** Batching, and the empty training set *)

Section PipelineFacts.
Import LoadData Pipeline Trainer.

Lemma chunks_upto_nil {A : Type} (fuel k : nat) (l : list A) :
  (length l <= fuel)%nat -> (chunks_upto fuel k l = [] <-> l = []).
Proof.
  intros H. destruct fuel as [|fuel].
  - destruct l; [split; reflexivity | cbn in H; lia].
  - destruct l; cbn [chunks_upto]; split; try reflexivity; discriminate.
Qed.

Lemma chunks_upto_length {A : Type} (k : nat) :
  (0 < k)%nat ->
  forall (fuel : nat) (l : list A),
    (length l <= fuel)%nat ->
    length (chunks_upto fuel k l) = ((length l + k - 1) / k)%nat.
Proof.
  intros Hk fuel. induction fuel as [|fuel IH]; intros l Hl.
  - destruct l; [|cbn in Hl; lia]. cbn.
    symmetry. apply Nat.div_small. lia.
  - destruct l as [|x l].
    + cbn. symmetry. apply Nat.div_small. lia.
    + cbn [chunks_upto length]. rewrite IH.
      * rewrite length_skipn. cbn [length].
        destruct (Nat.le_gt_cases k (S (length l))) as [Hge | Hlt].
        -- replace (S (length l) + k - 1)%nat
             with ((S (length l) - k + k - 1) + 1 * k)%nat by lia.
           rewrite Nat.div_add by lia. lia.
        -- replace (S (length l) - k)%nat with 0%nat by lia.
           rewrite (Nat.div_small (0 + k - 1) k) by lia.
           apply (Nat.div_unique _ _ 1 (length l)); lia.
      * rewrite length_skipn. cbn [length] in *. lia.
Qed.

Lemma chunks_upto_concat {A : Type} (k : nat) :
  (0 < k)%nat ->
  forall (fuel : nat) (l : list A),
    (length l <= fuel)%nat -> concat (chunks_upto fuel k l) = l.
Proof.
  intros Hk fuel. induction fuel as [|fuel IH]; intros l Hl.
  - destruct l; [reflexivity | cbn in Hl; lia].
  - destruct l as [|x l]; [reflexivity|].
    cbn [chunks_upto concat]. rewrite IH.
    + apply firstn_skipn.
    + rewrite length_skipn. cbn [length] in *. lia.
Qed.

Lemma dataset_batch_done (batch_size : Z) (ds : list (image * image)) :
  (1 <= batch_size)%Z ->
  exists batches,
    dataset_batch batch_size ds = Done batches
    /\ length batches
       = ((length ds + Z.to_nat batch_size - 1) / Z.to_nat batch_size)%nat
    /\ (batches = [] <-> ds = []).
Proof.
  intros Hb. unfold dataset_batch.
  destruct (Z.leb_spec batch_size 0) as [H | _]; [lia|].
  eexists. split; [reflexivity|]. rewrite length_map. split.
  - apply chunks_upto_length; lia.
  - unfold chunks. split.
    + intros H. apply map_eq_nil in H.
      apply (chunks_upto_nil (length ds) (Z.to_nat batch_size) ds); auto.
    + intros ->. reflexivity.
Qed.

(** X13.  With an empty training dataset and at least one epoch, [train]
    stops in epoch 0 with the error of reading [image_batch] before any
    loop has bound it: no model is called, nothing is written, and the
    validation dataset is never looked at. *)
Theorem empty_training_set_is_unbound :
  forall (P : ModelProvider)
         (take_step calc_losses : tensor -> tensor -> Z -> bool
                                  -> Step.Exec (R * R))
         (write_fails : Event -> bool) (val_dataset : list Batch)
         (overlap : Z) (use_gpu : bool) (epochs : nat) (lr : R),
    (0 < epochs)%nat ->
    train_with take_step calc_losses write_fails [] val_dataset overlap
               use_gpu epochs lr
    = (Raise UnboundLocalError, initial_state use_gpu lr).
Proof.
  intros P take_step calc_losses write_fails val_dataset overlap use_gpu
         epochs lr He.
  destruct epochs as [|n]; [lia|]. reflexivity.
Qed.

End PipelineFacts.

(* ================================================================== *)
(** ** Which batch the pictures show *)

Section ShownBatchFacts.
Import Trainer Pictures.
Context {P : ModelProvider}.
Variable take_step : tensor -> tensor -> Z -> bool -> Step.Exec (R * R).
Variable calc_losses : tensor -> tensor -> Z -> bool -> Step.Exec (R * R).
Variable write_fails : Event -> bool.
Variable train_dataset val_dataset : list Batch.
Variable overlap : Z.
Variable use_gpu : bool.

Lemma train_with_no_training_batch (val : list Batch) (epochs : nat) (lr : R) :
  (0 < epochs)%nat ->
  train_with take_step calc_losses write_fails [] val overlap use_gpu epochs lr
  = (Raise UnboundLocalError, initial_state use_gpu lr).
Proof. intros He. destruct epochs as [|n]; [lia|]. reflexivity. Qed.

Lemma respects_bind_post {A B : Type} (I : TState -> TState -> Prop)
    (Q : A -> Prop) (m : Py A) (k : A -> Py B) :
  (forall s1 s2 s3, I s1 s2 -> I s2 s3 -> I s1 s3) ->
  (forall s a s', m s = (Ok a, s') -> Q a) ->
  respects I m -> (forall a, Q a -> respects I (k a)) ->
  respects I (bind m k).
Proof.
  intros Tr Hq Hm Hk s. unfold bind. specialize (Hm s). specialize (Hq s).
  destruct (m s) as [[a | e] s1]; cbn [snd] in *.
  - apply Tr with s1; [exact Hm|]. apply Hk. apply (Hq a s1). reflexivity.
  - exact Hm.
Qed.

Lemma for_batches_batch_vars
    (executor : tensor -> tensor -> Z -> bool -> Step.Exec (R * R))
    (seen : R -> R -> Event) (d : Batch) (ds : list Batch) :
  forall (acc acc' : Acc) (s s' : TState),
    for_batches overlap use_gpu executor seen ds acc s = (Ok acc', s') ->
    batch_vars acc'
    = match ds with
      | [] => batch_vars acc
      | _ => Some (to_layout use_gpu (last ds d))
      end.
Proof.
  induction ds as [|[ib cb] ds IH]; intros acc acc' s s' H.
  - cbn [for_batches ret] in H. injection H as <- _. reflexivity.
  - cbn [for_batches] in H. unfold bind at 1, lift at 1 in H.
    destruct (executor (if use_gpu then transpose_0312 ib else ib)
                       (if use_gpu then transpose_0312 cb else cb)
                       overlap use_gpu (world s)) as [l w'].
    unfold bind at 1, emit at 1 in H.
    apply IH in H. rewrite H. cbn [batch_vars].
    destruct ds as [|x ds']; reflexivity.
Qed.

Lemma logs_pictures_refl (tb vb : Batch) (s : TState) :
  logs_pictures tb vb s s.
Proof. exists []. rewrite app_nil_r. split; [reflexivity | constructor]. Qed.

Lemma logs_pictures_trans (tb vb : Batch) (s1 s2 s3 : TState) :
  logs_pictures tb vb s1 s2 -> logs_pictures tb vb s2 s3 ->
  logs_pictures tb vb s1 s3.
Proof.
  intros (n1 & E1 & F1) (n2 & E2 & F2). exists (n1 ++ n2). split.
  - rewrite E2, E1, app_assoc. reflexivity.
  - apply Forall_app. split; assumption.
Qed.

Lemma logs_pictures_lift (tb vb : Batch) {A : Type} (m : Step.Exec A) :
  respects (logs_pictures tb vb) (lift m).
Proof.
  intros s. unfold lift. destruct (m (world s)) as [a w]. cbn [snd].
  exists []. cbn [events]. rewrite app_nil_r.
  split; [reflexivity | constructor].
Qed.

Lemma logs_pictures_emit (tb vb : Batch) (ev : Event) :
  picture_of tb vb ev -> respects (logs_pictures tb vb) (emit ev).
Proof.
  intros H s. exists [ev]. split; [reflexivity|].
  constructor; [exact H | constructor].
Qed.

Lemma list_eq_dec_nil {A : Type} (l : list A) : {l = []} + {l <> []}.
Proof. destruct l; [left; reflexivity | right; discriminate]. Qed.

Lemma last_app_cases {A : Type} (l1 l2 : list A) (d : A) :
  last (l1 ++ l2) d = match l2 with [] => last l1 d | _ => last l2 d end.
Proof.
  destruct l2 as [|x l2]; [rewrite app_nil_r; reflexivity|].
  induction l1 as [|y l1 IH]; [reflexivity|].
  cbn [app]. change (last (y :: (l1 ++ x :: l2)) d)
    with (match l1 ++ x :: l2 with [] => y | _ => last (l1 ++ x :: l2) d end).
  destruct (l1 ++ x :: l2) eqn:E; [destruct l1; discriminate|].
  exact IH.
Qed.

Lemma read_batch_bound (b x : Batch) (s s' : TState) :
  read_batch (Some b) s = (Ok x, s') -> x = b.
Proof. cbn [read_batch]. unfold ret. intros H. injection H as <- _. reflexivity. Qed.

Lemma save_pictures_of_batch (tb vb b : Batch) (epoch : nat) (ty : split) :
  b = match ty with TrainSplit => tb | ValSplit => vb end ->
  respects (logs_pictures tb vb)
           (save_pictures write_fails (fst b) (snd b) epoch ty).
Proof.
  intros Hb. apply respects_save_pictures.
  - apply logs_pictures_refl.
  - apply logs_pictures_trans.
  - apply logs_pictures_lift.
  - apply logs_pictures_emit. rewrite Hb.
    destruct ty; cbn [picture_of]; symmetry; apply surjective_pairing.
Qed.

Lemma run_epoch_pictures (d : Batch) (epoch : nat) (loc : Locals) :
  train_dataset <> [] ->
  respects
    (logs_pictures (shown_batch use_gpu train_dataset val_dataset d TrainSplit)
                   (shown_batch use_gpu train_dataset val_dataset d ValSplit))
    (run_epoch take_step calc_losses write_fails train_dataset val_dataset
               overlap use_gpu epoch loc).
Proof.
  intros Ht.
  set (tb := shown_batch use_gpu train_dataset val_dataset d TrainSplit).
  set (vb := shown_batch use_gpu train_dataset val_dataset d ValSplit).
  assert (Rf := logs_pictures_refl tb vb).
  assert (Tr := logs_pictures_trans tb vb).
  unfold run_epoch.
  apply (respects_bind_post _ (fun tr => batch_vars tr = Some tb));
    [exact Tr | | |].
  { intros s a s' H.
    rewrite (for_batches_batch_vars _ _ d _ _ _ _ _ H).
    unfold tb, shown_batch.
    destruct train_dataset; [contradiction | reflexivity]. }
  { apply respects_for_batches; [exact Rf | exact Tr | |]; intros.
    - apply logs_pictures_lift.
    - apply logs_pictures_emit. exact I. }
  intros tr Htr. apply respects_bind; [exact Tr | |].
  { destruct (cadence epoch); [|apply respects_ret; exact Rf].
    rewrite Htr.
    apply (respects_bind_post _ (fun b => b = tb)); [exact Tr | | |].
    - intros s a s' H. exact (read_batch_bound _ _ _ _ H).
    - apply respects_read_batch. exact Rf.
    - intros b Hb. apply save_pictures_of_batch. exact Hb. }
  intros _.
  apply (respects_bind_post _ (fun va => batch_vars va = Some vb));
    [exact Tr | | |].
  { intros s a s' H.
    rewrite (for_batches_batch_vars _ _ d _ _ _ _ _ H). cbn [batch_vars].
    unfold vb, shown_batch. rewrite last_app_cases.
    destruct val_dataset; [exact Htr | reflexivity]. }
  { apply respects_for_batches; [exact Rf | exact Tr | |]; intros.
    - apply logs_pictures_lift.
    - apply logs_pictures_emit. exact I. }
  intros va Hva. apply respects_bind; [exact Tr | |].
  { destruct (cadence epoch); [|apply respects_ret; exact Rf].
    apply respects_bind; [exact Tr | |].
    - apply respects_write; [exact Rf|].
      apply logs_pictures_emit. exact I.
    - intros _. rewrite Hva.
      apply (respects_bind_post _ (fun b => b = vb)); [exact Tr | | |].
      + intros s a s' H. exact (read_batch_bound _ _ _ _ H).
      + apply respects_read_batch. exact Rf.
      + intros b Hb. apply save_pictures_of_batch. exact Hb. }
  intros _.
  repeat (apply respects_bind;
          [exact Tr | apply respects_of_result; exact Rf|];
          intros ?).
  apply respects_bind; [exact Tr | apply logs_pictures_emit; exact I|].
  intros _. apply respects_ret; exact Rf.
Qed.

Lemma for_epochs_pictures (d : Batch) (epochs : list nat) :
  train_dataset <> [] ->
  forall loc,
    respects
      (logs_pictures (shown_batch use_gpu train_dataset val_dataset d TrainSplit)
                     (shown_batch use_gpu train_dataset val_dataset d ValSplit))
      (for_epochs take_step calc_losses write_fails train_dataset val_dataset
                  overlap use_gpu epochs loc).
Proof.
  intros Ht. induction epochs as [|e rest IH]; intros loc.
  - apply respects_ret. apply logs_pictures_refl.
  - cbn [for_epochs]. apply respects_bind.
    + apply logs_pictures_trans.
    + apply run_epoch_pictures. exact Ht.
    + exact IH.
Qed.

(** X14.  Whatever the run does and however it ends, every picture file
    of the training split shows the last batch of the training dataset,
    and every picture file of the validation split shows the last batch
    of the training batches followed by the validation batches: the last
    validation batch, or, when the validation dataset is empty, the last
    training batch again. *)
Theorem pictures_show_last_batch :
  forall (d : Batch) (epochs : nat) (lr : R),
    Forall
      (picture_of (shown_batch use_gpu train_dataset val_dataset d TrainSplit)
                  (shown_batch use_gpu train_dataset val_dataset d ValSplit))
      (events (snd (train_with take_step calc_losses write_fails
                               train_dataset val_dataset overlap use_gpu
                               epochs lr))).
Proof.
  intros d epochs lr.
  destruct (list_eq_dec_nil train_dataset) as [Hnil | Ht].
  - rewrite Hnil. destruct epochs as [|n].
    + unfold train_with. cbn [seq for_epochs]. unfold bind, ret, write.
      destruct (write_fails _); cbn [snd events initial_state app];
        repeat constructor.
    + rewrite train_with_no_training_batch by lia.
      cbn [snd events initial_state]. constructor.
  - assert (R0 : respects
      (logs_pictures (shown_batch use_gpu train_dataset val_dataset d TrainSplit)
                     (shown_batch use_gpu train_dataset val_dataset d ValSplit))
      (bind (for_epochs take_step calc_losses write_fails train_dataset
                        val_dataset overlap use_gpu (seq 0 epochs)
                        (mkLocals (mkHistories [] [] [] []) None))
            (fun loc => write write_fails (PlottedLoss (histories loc))))).
    { apply respects_bind.
      - apply logs_pictures_trans.
      - apply for_epochs_pictures. exact Ht.
      - intros loc. apply respects_write; [apply logs_pictures_refl|].
        apply logs_pictures_emit. exact I. }
    specialize (R0 (initial_state use_gpu lr)).
    destruct R0 as (new & E & F).
    unfold train_with. rewrite E.
    cbn [initial_state events app]. exact F.
Qed.

End ShownBatchFacts.

(* ================================================================== *)
(** ** Loading, batching and training together *)

Section MainFacts.
Import LoadData Pipeline Trainer.
Context {P : ModelProvider}.

Lemma load_simulated_data_total (images image_contexts : list image) :
  length images = length image_contexts ->
  exists train_dataset val_dataset,
    load_simulated_data images image_contexts
    = Done (train_dataset, val_dataset).
Proof.
  intros E. unfold load_simulated_data.
  rewrite (proj2 (Nat.eqb_eq _ _) E). eexists. eexists. reflexivity.
Qed.

(** X15.  The last lines of [main] on a file with at least two samples (in
    arrays of equal length [n]), a batch size [b] of at least one and a
    disk that takes every write: nothing is refused on the way, the run
    ends normally, and every epoch takes [ceil (4 * n / 5 / b)] training
    steps and evaluates [ceil ((n - 4 * n / 5) / b)] validation batches,
    [4 * n / 5] rounded down. *)
Theorem main_trains_on_four_fifths :
  forall (write_fails : Event -> bool) (images image_contexts : list image)
         (batch_size : Z) (epochs : nat) (overlap : Z) (use_gpu : bool)
         (lr : R),
    length images = length image_contexts ->
    (2 <= length images)%nat ->
    (1 <= batch_size)%Z ->
    (forall ev, write_fails ev = false) ->
    exists s,
      load_batch_train write_fails images image_contexts batch_size epochs
                       overlap use_gpu lr
      = Done (Ok tt, s)
      /\ forall e, (e < epochs)%nat ->
           let n := length images in
           let b := Z.to_nat batch_size in
           length (step_losses e (events s))
           = ((partition_index n + b - 1) / b)%nat
           /\ length (eval_losses e (events s))
              = ((n - partition_index n + b - 1) / b)%nat.
Proof.
  intros write_fails images contexts batch_size epochs overlap use_gpu lr
         E Hn Hb Hw.
  destruct (load_simulated_data_total images contexts E) as (tr & va & L).
  pose proof (load_simulated_data_split_lengths _ _ _ _ L) as (_ & Lt & Lv).
  destruct (dataset_batch_done batch_size tr Hb) as (trb & Bt & Nt & Et).
  destruct (dataset_batch_done batch_size va Hb) as (vab & Bv & Nv & Ev).
  assert (Htr : trb <> []).
  { intros H. apply Et in H. apply (f_equal (@length _)) in H.
    rewrite Lt in H. cbn [length] in H.
    apply partition_index_zero in H. lia. }
  assert (Hva : vab <> []).
  { intros H. apply Ev in H. apply (f_equal (@length _)) in H.
    rewrite Lv in H. cbn [length] in H.
    pose proof (partition_index_lt (length images)). lia. }
  destruct (train_with_ok Step.take_step Step.calc_losses write_fails trb vab
              overlap use_gpu epochs lr Htr Hva Hw)
    as (new & s & Run & Log & _ & Counts & _).
  exists s. split.
  - unfold load_batch_train. rewrite L, Bt, Bv. unfold train.
    rewrite Run. reflexivity.
  - intros e He. cbv zeta. rewrite Log, step_losses_app, eval_losses_app.
    cbn [step_losses eval_losses]. rewrite !app_nil_r.
    destruct (Counts e He) as (Cs & Ce & _).
    rewrite Cs, Ce, Nt, Nv, Lt, Lv. split; reflexivity.
Qed.

(** X16.  The last lines of [main] on a file with at most one sample (in
    arrays of equal length) and a batch size of at least one: the
    training dataset is empty, and with at least one epoch the run stops
    in epoch 0 reading a batch no loop has bound, before any model is
    called and before anything is written. *)
Theorem main_needs_two_samples :
  forall (write_fails : Event -> bool) (images image_contexts : list image)
         (batch_size : Z) (epochs : nat) (overlap : Z) (use_gpu : bool)
         (lr : R),
    length images = length image_contexts ->
    (length images <= 1)%nat ->
    (1 <= batch_size)%Z ->
    (0 < epochs)%nat ->
    load_batch_train write_fails images image_contexts batch_size epochs
                     overlap use_gpu lr
    = Done (Raise UnboundLocalError, initial_state use_gpu lr).
Proof.
  intros write_fails images contexts batch_size epochs overlap use_gpu lr
         E Hn Hb He.
  destruct (load_simulated_data_total images contexts E) as (tr & va & L).
  pose proof (load_simulated_data_split_lengths _ _ _ _ L) as (_ & Lt & _).
  destruct (dataset_batch_done batch_size tr Hb) as (trb & Bt & _ & Et).
  destruct (dataset_batch_done batch_size va Hb) as (vab & Bv & _).
  assert (Htr : trb = []).
  { apply Et. apply length_zero_iff_nil. rewrite Lt.
    apply partition_index_zero. exact Hn. }
  unfold load_batch_train. rewrite L, Bt, Bv, Htr. unfold train.
  rewrite (train_with_no_training_batch Step.take_step Step.calc_losses
             write_fails overlap use_gpu vab epochs lr He).
  reflexivity.
Qed.

End MainFacts.

(* ================================================================== *)
(** ** Loading the image file (load_h5_to_dataset) *)

Section LoadH5Facts.
Import LoadData LoadH5.

Lemma lookup_in (name : String.string) (f : h5file) :
  lookup name f <> None <-> In name (map fst f).
Proof.
  induction f as [|[key g] f IH]; cbn [lookup map fst In].
  - split; [congruence | intros []].
  - destruct (String.eqb_spec key name) as [E | N].
    + split; [intros _; left; exact E | discriminate].
    + rewrite IH. split; [intros H; right; exact H | intros [H | H]; [contradiction | exact H]].
Qed.

Lemma present_indices_spec (f : h5file) (i : nat) :
  In i (present_indices f)
  <-> (i < length f)%nat /\ lookup (img_name i) f <> None.
Proof.
  unfold present_indices. rewrite filter_In, in_seq.
  destruct (lookup (img_name i) f); split; intros [H1 H2];
    (split; [lia|]); congruence.
Qed.

(** X17.  The first loop of [load_h5_to_dataset] tries only the names
    [img_0] ... [img_(n-1)], [n] the number of keys.  So in a file whose
    keys are all image names, as soon as one of these names is missing
    (the gap the comment in the source speaks of), an image stored under
    a name with index [n] or more is left out of the dataset without any
    error. *)
Theorem load_h5_loses_images_after_a_gap :
  forall (f : h5file),
    NoDup (map fst f) ->
    (forall key, In key (map fst f) -> exists i, key = img_name i) ->
    (exists i, (i < length f)%nat /\ lookup (img_name i) f = None) ->
    exists j,
      (length f <= j)%nat
      /\ lookup (img_name j) f <> None
      /\ ~ In j (present_indices f).
Proof.
  intros f ND Hall (i0 & Hi0 & Hgap).
  set (names := map img_name (seq 0 (length f))).
  destruct (Forall_Exists_dec (fun key => In key names)
              (fun key => in_dec String.string_dec key names) (map fst f))
    as [Hf | He].
  - exfalso.
    assert (Hincl : incl names (map fst f)).
    { apply NoDup_length_incl; [exact ND | |].
      - unfold names. rewrite !length_map, length_seq. lia.
      - intros key Hk. rewrite Forall_forall in Hf. apply Hf. exact Hk. }
    assert (Hin : In (img_name i0) names) by (apply in_map, in_seq; lia).
    apply Hincl, lookup_in in Hin. contradiction.
  - apply Exists_exists in He as (key & Hk & Hn).
    destruct (Hall key Hk) as (j & ->). exists j.
    assert (Hj : (length f <= j)%nat).
    { destruct (Nat.le_gt_cases (length f) j) as [L | G]; [exact L|].
      exfalso. apply Hn. apply in_map, in_seq. lia. }
    split; [exact Hj|]. split; [apply lookup_in; exact Hk|].
    rewrite present_indices_spec. lia.
Qed.

Section WithResize.
Variable resize : image -> nat -> nat -> image.
Variable reorder : list image -> list image.
Variable overlap : Z.
Variable height width num_channels : nat.

Lemma mask_image_error (im : image) (mask_size o : Z) (e : error) :
  mask_image im mask_size o = Failed e -> e = ValueError.
Proof.
  unfold mask_image.
  destruct (mask_size - o * 2 <? 0)%Z; [congruence|].
  destruct (_ && _); [discriminate | congruence].
Qed.

Lemma mask_image_chans (im center masked : image) (mask_size o : Z) :
  mask_image im mask_size o = Done (center, masked) ->
  chans masked = chans im.
Proof.
  unfold mask_image.
  destruct (mask_size - o * 2 <? 0)%Z; [discriminate|].
  destruct (_ && _); [|discriminate].
  intros H. injection H as _ <-. reflexivity.
Qed.

Lemma load_one_error (g : stored) (e : error) :
  load_one resize overlap height width num_channels g = Failed e ->
  e = ValueError.
Proof.
  unfold load_one.
  destruct (mask_image _ _ _) as [[c m] | e'] eqn:M.
  - destruct (assignable m _ _ _); [|congruence].
    destruct (assignable c _ _ _); [discriminate | congruence].
  - intros H. injection H as <-. exact (mask_image_error _ _ _ _ M).
Qed.

Lemma load_each_error (f : h5file) (indices : list nat) (e : error) :
  (forall i, In i indices -> lookup (img_name i) f <> None) ->
  load_each resize overlap height width num_channels f indices = Failed e ->
  e = ValueError.
Proof.
  induction indices as [|i rest IH]; intros Hpresent; cbn [load_each].
  - discriminate.
  - pose proof (Hpresent i (or_introl eq_refl)) as Hi.
    destruct (lookup (img_name i) f) as [g|]; [|contradiction].
    destruct (load_one _ _ _ _ _ g) as [sample | e'] eqn:L.
    + destruct (load_each _ _ _ _ _ f rest) as [samples | e''] eqn:R;
        [discriminate|].
      intros H. injection H as <-. apply IH; [|reflexivity].
      intros j Hj. apply Hpresent. right. exact Hj.
    + intros H. injection H as <-. exact (load_one_error g e' L).
Qed.

Lemma load_each_fails (f : h5file) (indices : list nat) (i : nat)
    (g : stored) (e : error) :
  In i indices -> lookup (img_name i) f = Some g ->
  load_one resize overlap height width num_channels g = Failed e ->
  exists e',
    load_each resize overlap height width num_channels f indices = Failed e'.
Proof.
  intros Hin Hl Hf. induction indices as [|j rest IH]; [destruct Hin|].
  cbn [load_each]. destruct Hin as [-> | Hin].
  - rewrite Hl, Hf. eexists; reflexivity.
  - destruct (lookup (img_name j) f) as [gj|]; [|eexists; reflexivity].
    destruct (load_one _ _ _ _ _ gj) as [sample | e'];
      [|eexists; reflexivity].
    destruct (IH Hin) as (e' & ->). eexists; reflexivity.
Qed.

Lemma load_one_four_channels (a : image) :
  (forall g h w, chans (resize g h w) = chans g) ->
  num_channels <> 2%nat ->
  (3 < chans a)%nat ->
  load_one resize overlap height width num_channels (Color a)
  = Failed ValueError.
Proof.
  intros Hres Hnc Ha. unfold load_one. cbn [to_three_axes].
  rewrite Hres. rewrite (proj2 (Nat.ltb_lt _ _) Ha).
  destruct (mask_image _ _ _) as [[c m] | e'] eqn:M.
  - apply mask_image_chans in M. cbn [getitem3 chans] in M.
    rewrite Hres in M.
    assert (E : extent (chans a) (between 0 2) = 2%nat).
    { apply (between_fits (chans a) 0 2); lia. }
    rewrite E in M.
    assert (B : assignable m height width num_channels = false).
    { unfold assignable. rewrite M. unfold broadcasts.
      rewrite (proj2 (Nat.eqb_neq 2 num_channels)) by lia.
      cbn [Nat.eqb orb]. apply andb_false_r. }
    rewrite B. reflexivity.
  - rewrite (mask_image_error _ _ _ _ M). reflexivity.
Qed.

End WithResize.

(** X18.  An array with more than three channels is cut down to two
    channels ([0:2]), not three, so it no longer fits its slot in
    [data_images]: if the first loop finds such an array, and resizing
    keeps the number of channels, [load_h5_to_dataset] builds no dataset
    and ends with a ValueError, for every overlap and every target size
    (unless [num_channels] is 2). *)
Theorem load_h5_fails_on_four_channels :
  forall (resize : image -> nat -> nat -> image)
         (reorder : list image -> list image) (overlap : Z)
         (height width num_channels : nat) (f : h5file) (shuffle : bool)
         (i : nat) (a : image),
    (forall g h w, chans (resize g h w) = chans g) ->
    num_channels <> 2%nat ->
    In i (present_indices f) ->
    lookup (img_name i) f = Some (Color a) ->
    (3 < chans a)%nat ->
    load_h5_to_dataset resize reorder overlap height width num_channels
                       f shuffle
    = Failed ValueError.
Proof.
  intros resize reorder overlap height width num_channels f shuffle i a
         Hres Hnc Hin Hl Ha.
  unfold load_h5_to_dataset.
  destruct (load_each_fails resize overlap height width num_channels f
              (present_indices f) i (Color a) ValueError Hin Hl
              (load_one_four_channels resize overlap height width
                 num_channels a Hres Hnc Ha)) as (e & He).
  rewrite He. f_equal.
  apply (load_each_error resize overlap height width num_channels f
           (present_indices f) e); [|exact He].
  intros j Hj. apply present_indices_spec in Hj. tauto.
Qed.

(** X19.  What one stored array becomes, for a square target of side
    [4 * k], three channels and [0 <= overlap <= k]: with [r] the resized
    array (three channels, after a single layer was copied three times),
    the image of the sample is [r * 2 - 1] with the square of rows and
    columns [k + overlap .. 3 * k - overlap - 1] set to [-1], and the
    center of the sample is [r * 2 - 1] on the rows and columns
    [k .. 3 * k - 1]: the hole lies inside the center, [overlap] pixels
    away from each of its edges. *)
Theorem load_one_masks_and_normalizes :
  forall (resize : image -> nat -> nat -> image) (overlap : Z) (k : nat)
         (g : stored),
    let side := (4 * k)%nat in
    let r := resize (to_three_axes g) side side in
    let o := Z.to_nat overlap in
    let in_hole (i : nat) := (k + o <=? i)%nat && (i <? 3 * k - o)%nat in
    rows r = side -> cols r = side -> chans r = 3%nat ->
    (0 <= overlap <= Z.of_nat k)%Z ->
    exists image0 center,
      load_one resize overlap side side 3 g = Done (image0, center)
      /\ (rows image0, cols image0, chans image0) = (side, side, 3%nat)
      /\ (rows center, cols center, chans center)
         = ((2 * k)%nat, (2 * k)%nat, 3%nat)
      /\ (forall i j c,
            px image0 i j c
            = if in_hole i && in_hole j then -1 else px r i j c * 2 - 1)
      /\ (forall i j c,
            px center i j c = px r (k + i) (k + j) c * 2 - 1).
Proof.
  intros resize overlap k g side r o in_hole Hrows Hcols Hchans Ho.
  assert (Hhalf : (side / 2 = 2 * k)%nat).
  { unfold side. replace (4 * k)%nat with (2 * k * 2)%nat by lia.
    apply Nat.div_mul. lia. }
  assert (Hstart : start_index (rows r) (Z.of_nat (side / 2)) = Z.of_nat k).
  { rewrite Hrows, Hhalf. unfold start_index, side.
    replace (2 * Z.of_nat (4 * k) - 3 * Z.of_nat (2 * k))%Z
      with (Z.of_nat k * 2)%Z by lia.
    apply Z.quot_mul. lia. }
  unfold load_one. fold r. rewrite Hchans. cbn [Nat.ltb Nat.leb].
  unfold mask_image. rewrite Hstart, Hhalf, Hrows, Hcols, Hchans.
  destruct (Z.ltb_spec (Z.of_nat (2 * k) - overlap * 2) 0) as [Hneg | _];
    [lia|].
  set (hole := between (Z.of_nat k + overlap)
                       (Z.of_nat k + Z.of_nat (2 * k) - overlap)).
  set (mid := between (Z.of_nat k) (Z.of_nat k + Z.of_nat (2 * k))).
  assert (Hside : Z.of_nat side = (4 * Z.of_nat k)%Z) by (unfold side; lia).
  destruct (between_fits side (Z.of_nat k + overlap)
              (Z.of_nat k + Z.of_nat (2 * k) - overlap)) as [H1 H2];
    [lia | lia | lia |].
  destruct (between_fits side (Z.of_nat k)
              (Z.of_nat k + Z.of_nat (2 * k))) as [H3 H4];
    [lia | lia | lia |].
  fold hole in H1, H2. fold mid in H3, H4.
  assert (E0 : Z.to_nat (Z.of_nat k + overlap) = (k + o)%nat)
    by (unfold o; lia).
  assert (E1 : Z.to_nat (Z.of_nat k + Z.of_nat (2 * k) - overlap
                         - (Z.of_nat k + overlap))
               = Z.to_nat (Z.of_nat (2 * k) - overlap * 2))
    by (f_equal; lia).
  assert (E2 : Z.to_nat (Z.of_nat k + Z.of_nat (2 * k) - Z.of_nat k)
               = (2 * k)%nat) by lia.
  assert (E3 : Z.to_nat (Z.of_nat (2 * k) - overlap * 2)
               = (2 * k - 2 * o)%nat) by (unfold o; lia).
  rewrite E0, E1 in *. rewrite E2 in H4. rewrite Nat2Z.id in H3.
  unfold broadcasts at 1 2. rewrite H2, Nat.eqb_refl. cbn [orb andb].
  unfold assignable, broadcasts. cbn [getitem3 rows cols chans].
  rewrite Hrows, Hcols, Hchans, H4, extent_all, !Nat.eqb_refl.
  cbn [orb andb].
  eexists. eexists. split; [reflexivity|].
  split; [reflexivity|]. split; [reflexivity|]. split.
  - intros i j c. cbn [broadcast_to map_px px rows cols chans].
    rewrite !Nat.eqb_refl.
    assert (S1 : forall x, selected side hole x = in_hole x).
    { intros x. unfold selected, in_hole. rewrite H1, H2, E3.
      f_equal.
      destruct (Nat.ltb_spec x (k + o + (2 * k - 2 * o))),
               (Nat.ltb_spec x (3 * k - o)); unfold o in *;
        try reflexivity; lia. }
    rewrite !S1. destruct (in_hole i && in_hole j); lra.
  - intros i j c.
    cbn [broadcast_to map_px getitem3 px rows cols chans].
    rewrite Hrows, Hcols, Hchans, H3, H4, extent_all, offset_all,
            !Nat.eqb_refl.
    reflexivity.
Qed.

End LoadH5Facts.

(* ================================================================== *)
(** ** Examples for the facts above *)

Section MoreExamples.
Import Losses LossSpec LoadData LoadH5 Pipeline Trainer.

(** A 2 x 2 prediction equal to the real center: only the adversarial
    term is left. *)
Lemma generator_loss_perfect_reconstruction_witness :
  let fake_output := fill 1 1 1 1 0 in
  let y := fill 1 2 2 1 1 in
  (0 < dim0 y * dim1 y * dim2 y * dim3 y)%nat
  /\ generator_loss fake_output y y 0 false
     = 1 / 10 * adversarial fake_output.
Proof.
  cbv zeta.
  assert (H : (0 < dim0 (fill 1 2 2 1 1) * dim1 (fill 1 2 2 1 1)
                   * dim2 (fill 1 2 2 1 1) * dim3 (fill 1 2 2 1 1))%nat)
    by (cbn; lia).
  split; [exact H|].
  apply (proj2 (generator_loss_perfect_reconstruction
                  (fill 1 1 1 1 0) (fill 1 2 2 1 1) (fill 1 2 2 1 1) false H)).
  intros; reflexivity.
Defined.

(** A 10 x 10 prediction and the same with its top-right pixel changed,
    overlap 2: the loss is the same. *)
Lemma generator_loss_ignores_rest_of_border_witness :
  let fake_output := fill 1 1 1 1 0 in
  let y_true := fill 1 10 10 3 0 in
  let y_pred := fill 1 10 10 3 1 in
  let y_pred' := ToyData.corner_changed in
  same_shape y_true y_pred /\ same_shape y_pred y_pred'
  /\ (0 < 2)%Z
  /\ (2 * 2 <= Z.of_nat (height false y_pred))%Z
  /\ (2 * 2 <= Z.of_nat (width false y_pred))%Z
  /\ generator_loss fake_output y_true y_pred 2 false
     = generator_loss fake_output y_true y_pred' 2 false.
Proof.
  cbv zeta.
  assert (S1 : same_shape (fill 1 10 10 3 0) (fill 1 10 10 3 1))
    by (repeat split).
  assert (S2 : same_shape (fill 1 10 10 3 1) ToyData.corner_changed)
    by (repeat split).
  assert (H1 : (2 * 2 <= Z.of_nat (height false (fill 1 10 10 3 1)))%Z)
    by (cbn; lia).
  assert (H2 : (2 * 2 <= Z.of_nat (width false (fill 1 10 10 3 1)))%Z)
    by (cbn; lia).
  split; [exact S1|]. split; [exact S2|]. split; [lia|].
  split; [exact H1|]. split; [exact H2|].
  apply (generator_loss_ignores_rest_of_border (fill 1 1 1 1 0)
           (fill 1 10 10 3 0) (fill 1 10 10 3 1) ToyData.corner_changed
           2 false S1 S2 ltac:(lia) H1 H2).
  intros n i j c Hr.
  unfold pixel, ToyData.corner_changed, fill. cbn [elt].
  destruct (Nat.eqb_spec i 0) as [Ei | Ni]; [|reflexivity].
  destruct (Nat.eqb_spec j 9) as [Ej | Nj]; [|reflexivity].
  exfalso. subst i j.
  unfold in_region, center_region, top_left_square, bottom_right_square in Hr.
  cbn [row_lo row_hi col_lo col_hi height width dim1 dim2 fill] in Hr.
  change (Z.to_nat 2) with 2%nat in Hr. lia.
Defined.

(** A 10 x 10 prediction with overlap -2. *)
Lemma generator_loss_negative_overlap_witness :
  let fake_output := fill 1 1 1 1 0 in
  let y_true := fill 1 10 10 3 0 in
  let y_pred := fill 1 10 10 3 1 in
  same_shape y_true y_pred
  /\ (-2 < 0)%Z
  /\ (- (2 * -2) <= Z.of_nat (height false y_pred))%Z
  /\ (- (2 * -2) <= Z.of_nat (width false y_pred))%Z
  /\ generator_loss fake_output y_true y_pred (-2) false
     = 9 / 10
       * (10 * (region_MSE false (mkRegion 0 8 0 8) y_true y_pred
                + region_MSE false (mkRegion 2 10 2 10) y_true y_pred))
       + 1 / 10 * adversarial fake_output.
Proof.
  cbv zeta.
  assert (S1 : same_shape (fill 1 10 10 3 0) (fill 1 10 10 3 1))
    by (repeat split).
  assert (H1 : (- (2 * -2) <= Z.of_nat (height false (fill 1 10 10 3 1)))%Z)
    by (cbn; lia).
  assert (H2 : (- (2 * -2) <= Z.of_nat (width false (fill 1 10 10 3 1)))%Z)
    by (cbn; lia).
  split; [exact S1|]. split; [lia|]. split; [exact H1|]. split; [exact H2|].
  exact (generator_loss_negative_overlap (fill 1 1 1 1 0) (fill 1 10 10 3 0)
           (fill 1 10 10 3 1) (-2) false S1 ltac:(lia) H1 H2).
Defined.

(** An 8 x 8 image, a chunk of 4 x 4 and overlap 1: the chunk starts at
    row and column 2, the hole is the 2 x 2 square at rows and columns 3
    and 4. *)
Lemma mask_image_cuts_center_witness :
  let im := ToyData.ramp in
  (0 <= 1)%Z /\ (2 * 1 <= 4)%Z
  /\ (0 <= start_index (rows im) 4)%Z
  /\ (start_index (rows im) 4 + 4 <= Z.of_nat (rows im))%Z
  /\ (start_index (rows im) 4 + 4 <= Z.of_nat (cols im))%Z
  /\ exists center masked,
       mask_image im 4 1 = Done (center, masked)
       /\ px center 0 0 0 = px im 2 2 0
       /\ px masked 3 4 0 = 0
       /\ px masked 2 4 0 = px im 2 4 0.
Proof.
  cbv zeta.
  assert (Hs : start_index (rows ToyData.ramp) 4 = 2%Z) by reflexivity.
  assert (H1 : (0 <= start_index (rows ToyData.ramp) 4)%Z)
    by (rewrite Hs; lia).
  assert (H2 : (start_index (rows ToyData.ramp) 4 + 4
                <= Z.of_nat (rows ToyData.ramp))%Z)
    by (rewrite Hs; cbn; lia).
  assert (H3 : (start_index (rows ToyData.ramp) 4 + 4
                <= Z.of_nat (cols ToyData.ramp))%Z)
    by (rewrite Hs; cbn; lia).
  split; [lia|]. split; [lia|]. split; [exact H1|]. split; [exact H2|].
  split; [exact H3|].
  destruct (mask_image_cuts_center ToyData.ramp 4 1 ltac:(lia) ltac:(lia)
              H1 H2 H3)
    as (center & masked & E & _ & Hc & _ & Hz & Hk).
  rewrite Hs in Hc, Hz, Hk.
  change (Z.to_nat 2) with 2%nat in Hc, Hz, Hk.
  change (Z.to_nat 4) with 4%nat in Hz, Hk.
  change (Z.to_nat 1) with 1%nat in Hz, Hk.
  exists center, masked. split; [exact E|]. split; [apply Hc|].
  split; [apply Hz; lia | apply Hk; lia].
Defined.

(** A 10 x 10 image and a chunk of 8 x 8: [start_index] is -2. *)
Lemma mask_image_oversized_center_is_empty_witness :
  let im := mkImage 10 10 1 (fun _ _ _ => 1%R) in
  (start_index (rows im) 8 < 0)%Z /\ (8 <= Z.of_nat (rows im))%Z
  /\ exists center masked,
       mask_image im 8 2 = Done (center, masked) /\ rows center = 0%nat.
Proof.
  cbv zeta.
  assert (H1 : (start_index (rows (mkImage 10 10 1 (fun _ _ _ => 1%R))) 8
                < 0)%Z) by reflexivity.
  assert (H2 : (8 <= Z.of_nat (rows (mkImage 10 10 1 (fun _ _ _ => 1%R))))%Z)
    by (cbn; lia).
  split; [exact H1|]. split; [exact H2|].
  assert (E : exists center masked,
             mask_image (mkImage 10 10 1 (fun _ _ _ => 1%R)) 8 2
             = Done (center, masked))
    by (eexists; eexists; reflexivity).
  destruct E as (center & masked & E). exists center, masked.
  split; [exact E|].
  exact (mask_image_oversized_center_is_empty _ 8 2 center masked H1 H2 E).
Defined.

(** Two samples: one for training, one for validation. *)
Lemma load_simulated_data_empty_parts_witness :
  let images := [ToyData.sample 0; ToyData.sample 255] in
  let image_contexts := [ToyData.sample 100; ToyData.sample 200] in
  exists train_dataset val_dataset,
    load_simulated_data images image_contexts
    = Done (train_dataset, val_dataset)
    /\ (val_dataset = [] <-> length images = 0%nat)
    /\ (train_dataset = [] <-> (length images <= 1)%nat).
Proof.
  cbv zeta.
  assert (E : exists train_dataset val_dataset,
             load_simulated_data [ToyData.sample 0; ToyData.sample 255]
               [ToyData.sample 100; ToyData.sample 200]
             = Done (train_dataset, val_dataset))
    by (eexists; eexists; reflexivity).
  destruct E as (tr & va & E). exists tr, va. split; [exact E|].
  exact (load_simulated_data_empty_parts _ _ tr va E).
Defined.

(** Samples with entries 0, 255, 100 and 200. *)
Lemma load_simulated_data_range_witness :
  let images := [ToyData.sample 0; ToyData.sample 255] in
  let image_contexts := [ToyData.sample 100; ToyData.sample 200] in
  (forall a, In a (images ++ image_contexts) ->
             forall i j c, 0 <= px a i j c <= 255)
  /\ exists train_dataset val_dataset,
       load_simulated_data images image_contexts
       = Done (train_dataset, val_dataset)
       /\ forall context image0,
            In (context, image0) (train_dataset ++ val_dataset) ->
            forall i j c,
              -1 <= px context i j c <= 1 /\ -1 <= px image0 i j c <= 1.
Proof.
  cbv zeta.
  assert (Hraw : forall a,
             In a ([ToyData.sample 0; ToyData.sample 255]
                   ++ [ToyData.sample 100; ToyData.sample 200]) ->
             forall i j c, 0 <= px a i j c <= 255).
  { intros a [<- | [<- | [<- | [<- | []]]]] i j c; cbn; lra. }
  split; [exact Hraw|].
  assert (E : exists train_dataset val_dataset,
             load_simulated_data [ToyData.sample 0; ToyData.sample 255]
               [ToyData.sample 100; ToyData.sample 200]
             = Done (train_dataset, val_dataset))
    by (eexists; eexists; reflexivity).
  destruct E as (tr & va & E). exists tr, va. split; [exact E|].
  exact (load_simulated_data_range _ _ tr va E Hraw).
Defined.

(** Three epochs asked for, no training batch. *)
Lemma empty_training_set_is_unbound_witness :
  (0 < 3)%nat
  /\ train_with (P := Toy.provider) Toy.stub_executor Toy.stub_executor
                Toy.never_fails [] Toy.val_batches 0 false 3 (1 / 5000)
     = (Raise UnboundLocalError, initial_state false (1 / 5000)).
Proof.
  split; [lia|].
  apply (empty_training_set_is_unbound Toy.provider). lia.
Defined.

(** Three samples in batches of two: two training samples in one batch,
    one validation sample in one batch. *)
Lemma main_trains_on_four_fifths_witness :
  let images := [ToyData.sample 0; ToyData.sample 255; ToyData.sample 10] in
  length images = length images
  /\ (2 <= length images)%nat /\ (1 <= 2)%Z
  /\ (forall ev, Toy.never_fails ev = false)
  /\ exists s,
       load_batch_train (P := Toy.provider) Toy.never_fails images images
                        2 1 0 false (1 / 5000)
       = Done (Ok tt, s)
       /\ length (step_losses 0 (events s)) = 1%nat
       /\ length (eval_losses 0 (events s)) = 1%nat.
Proof.
  cbv zeta.
  assert (Hn : (2 <= length [ToyData.sample 0; ToyData.sample 255;
                            ToyData.sample 10])%nat) by (cbn; lia).
  assert (Hw : forall ev, Toy.never_fails ev = false) by reflexivity.
  split; [reflexivity|]. split; [exact Hn|]. split; [lia|].
  split; [exact Hw|].
  destruct (main_trains_on_four_fifths (P := Toy.provider) Toy.never_fails
              [ToyData.sample 0; ToyData.sample 255; ToyData.sample 10]
              [ToyData.sample 0; ToyData.sample 255; ToyData.sample 10]
              2 1 0 false (1 / 5000) eq_refl Hn ltac:(lia) Hw)
    as (s & E & Counts).
  exists s. split; [exact E|].
  exact (Counts 0%nat ltac:(lia)).
Defined.

(** A file with a single sample. *)
Lemma main_needs_two_samples_witness :
  let images := [ToyData.sample 0] in
  length images = length images
  /\ (length images <= 1)%nat /\ (1 <= 1)%Z /\ (0 < 1)%nat
  /\ load_batch_train (P := Toy.provider) Toy.never_fails images images
                      1 1 0 false (1 / 5000)
     = Done (Raise UnboundLocalError, initial_state false (1 / 5000)).
Proof.
  cbv zeta.
  assert (Hn : (length [ToyData.sample 0] <= 1)%nat) by (cbn; lia).
  split; [reflexivity|]. split; [exact Hn|]. split; [lia|]. split; [lia|].
  apply (main_needs_two_samples (P := Toy.provider)); [reflexivity | exact Hn | lia | lia].
Defined.

(** Keys [img_0] and [img_2]: [img_2] is never tried. *)
Lemma load_h5_loses_images_after_a_gap_witness :
  let f := ToyData.file_with_gap in
  NoDup (map fst f)
  /\ (forall key, In key (map fst f) -> exists i, key = img_name i)
  /\ (exists i, (i < length f)%nat /\ lookup (img_name i) f = None)
  /\ exists j,
       (length f <= j)%nat
       /\ lookup (img_name j) f <> None
       /\ ~ In j (present_indices f).
Proof.
  cbv zeta.
  assert (ND : NoDup (map fst ToyData.file_with_gap)).
  { cbn. constructor; [intros [H | []]; discriminate H|].
    constructor; [intros [] | constructor]. }
  assert (Hall : forall key, In key (map fst ToyData.file_with_gap) ->
                             exists i, key = img_name i).
  { intros key [<- | [<- | []]];
      [exists 0%nat | exists 2%nat]; reflexivity. }
  assert (Hgap : exists i, (i < length ToyData.file_with_gap)%nat
                           /\ lookup (img_name i) ToyData.file_with_gap = None).
  { exists 1%nat. split; [cbn; lia | reflexivity]. }
  split; [exact ND|]. split; [exact Hall|]. split; [exact Hgap|].
  exact (load_h5_loses_images_after_a_gap ToyData.file_with_gap ND Hall Hgap).
Defined.

(** A file whose second array has four channels, target size 4 x 4. *)
Lemma load_h5_fails_on_four_channels_witness :
  let f := ToyData.file_with_alpha in
  (forall g h w, chans (ToyData.nearest g h w) = chans g)
  /\ 3%nat <> 2%nat
  /\ In 1%nat (present_indices f)
  /\ lookup (img_name 1) f = Some (Color ToyData.four_channels)
  /\ (3 < chans ToyData.four_channels)%nat
  /\ load_h5_to_dataset ToyData.nearest (fun l => l) 1 4 4 3 f false
     = Failed ValueError.
Proof.
  cbv zeta.
  assert (Hres : forall g h w, chans (ToyData.nearest g h w) = chans g)
    by reflexivity.
  assert (Hnc : 3%nat <> 2%nat) by discriminate.
  assert (Hin : In 1%nat (present_indices ToyData.file_with_alpha))
    by (right; left; reflexivity).
  assert (Hl : lookup (img_name 1) ToyData.file_with_alpha
               = Some (Color ToyData.four_channels)) by reflexivity.
  assert (Ha : (3 < chans ToyData.four_channels)%nat) by (cbn; lia).
  split; [exact Hres|]. split; [exact Hnc|]. split; [exact Hin|].
  split; [exact Hl|]. split; [exact Ha|].
  exact (load_h5_fails_on_four_channels ToyData.nearest (fun l => l) 1 4 4 3
           ToyData.file_with_alpha false 1 ToyData.four_channels
           Hres Hnc Hin Hl Ha).
Defined.

(** One layer of 8 x 8 values, target size 8 x 8, overlap 1: the hole is
    the square of rows and columns 3 and 4. *)
Lemma load_one_masks_and_normalizes_witness :
  let r := ToyData.nearest (to_three_axes ToyData.layer) 8 8 in
  rows r = 8%nat /\ cols r = 8%nat /\ chans r = 3%nat
  /\ (0 <= 1 <= Z.of_nat 2)%Z
  /\ exists image0 center,
       load_one ToyData.nearest 1 8 8 3 ToyData.layer = Done (image0, center)
       /\ px image0 3 4 0 = -1
       /\ px image0 2 4 0 = px r 2 4 0 * 2 - 1
       /\ px center 0 0 0 = px r 2 2 0 * 2 - 1.
Proof.
  cbv zeta.
  assert (Ho : (0 <= 1 <= Z.of_nat 2)%Z) by lia.
  split; [reflexivity|]. split; [reflexivity|]. split; [reflexivity|].
  split; [exact Ho|].
  destruct (load_one_masks_and_normalizes ToyData.nearest 1 2 ToyData.layer
              eq_refl eq_refl eq_refl Ho)
    as (image0 & center & E & _ & _ & Hi & Hc).
  exists image0, center. split; [exact E|].
  split; [exact (Hi 3%nat 4%nat 0%nat)|].
  split; [exact (Hi 2%nat 4%nat 0%nat) | exact (Hc 0%nat 0%nat 0%nat)].
Defined.

End MoreExamples.
